(** * flatdir: bounded recursive flattening of a directory tree

    A shallow embedding of [flatten_dir] and [main] (src/flatdir.py) over a
    small model of the filesystem they run on, together with the properties
    of the traversal: depth bound, skip/overwrite policy, self-copy guard,
    aggregate counts, error propagation, idempotence, frame conditions; and
    of the program around it: validation, creation of the destination,
    summary. *)

From Stdlib Require Import List String Ascii Strings.Byte ZArith Bool Lia Arith.
From Stdlib Require Import DecimalString.
Import ListNotations.

Set Warnings "-register-all,-notation-for-abbreviation".

Local Open Scope string_scope.
Local Open Scope list_scope.
Local Open Scope Z_scope.

(** ** Paths

    A resolved absolute path is the list of its components below the root,
    outermost first ([pathlib.Path] after [resolve()]); the root is []. *)

Definition path := list string.

Definition path_eq_dec : forall p q : path, {p = q} + {p <> q} :=
  list_eq_dec string_dec.

(** [indir == outdir] on [Path] objects. *)
Definition path_eqb (p q : path) : bool :=
  if path_eq_dec p q then true else false.

(** [outdir / name]. *)
Definition child (p : path) (n : string) : path := p ++ [n].

(** [path.name]: the final component, empty for the root. *)
Definition name (p : path) : string := last p EmptyString.

(** [str(path)], as it appears in the verbose message. *)
Definition path_str (p : path) : string := "/" ++ String.concat "/" p.

(** ** The filesystem

    A directory holds its entries in the order in which the operating system
    enumerates them; a plain file holds its bytes.  There are no links and no
    special files. *)

Inductive node : Type :=
| File (data : list byte)
| Dir (entries : list (string * node)).

Inductive exn : Type :=
| FileNotFoundError
| NotADirectoryError
| IsADirectoryError
| SameFileError
| OSError
| UnicodeEncodeError.

Inductive result (A : Type) : Type :=
| Ok (a : A)
| Raise (e : exn).
Arguments Ok {A} a.
Arguments Raise {A} e.

Fixpoint assoc (n : string) (es : list (string * node)) : option node :=
  match es with
  | [] => None
  | (m, c) :: es' => if String.eqb m n then Some c else assoc n es'
  end.

(** Replace the entry called [n], in place. *)
Fixpoint replace (n : string) (c : node) (es : list (string * node))
  : list (string * node) :=
  match es with
  | [] => []
  | (m, d) :: es' =>
      if String.eqb m n then (m, c) :: es' else (m, d) :: replace n c es'
  end.

(** Path resolution from the root [t]. *)
Fixpoint find (t : node) (p : path) : option node :=
  match p with
  | [] => Some t
  | n :: p' =>
      match t with
      | File _ => None
      | Dir es =>
          match assoc n es with
          | Some c => find c p'
          | None => None
          end
      end
  end.

(** [open(p, 'wb')] followed by writing [data]: the file is created in an
    existing directory (after the entries already there) or truncated. *)
Fixpoint write (t : node) (p : path) (data : list byte) : result node :=
  match p with
  | [] =>
      match t with
      | File _ => Ok (File data)
      | Dir _ => Raise IsADirectoryError
      end
  | n :: p' =>
      match t with
      | File _ => Raise NotADirectoryError
      | Dir es =>
          match assoc n es with
          | Some c =>
              match write c p' data with
              | Ok c' => Ok (Dir (replace n c' es))
              | Raise e => Raise e
              end
          | None =>
              match p' with
              | [] => Ok (Dir (es ++ [(n, File data)]))
              | _ :: _ => Raise FileNotFoundError
              end
          end
      end
  end.

(** What a program can observe of a path: nothing there, a plain file and
    its bytes, or a directory and the names of its entries in order. *)
Inductive obs : Type :=
| OAbsent
| OFile (data : list byte)
| ODir (ns : list string).

Definition observe (t : node) (p : path) : obs :=
  match find t p with
  | Some (File data) => OFile data
  | Some (Dir es) => ODir (map fst es)
  | None => OAbsent
  end.

Definition isdir (t : node) (p : path) : bool :=
  match observe t p with ODir _ => true | _ => false end.

Definition isfile (t : node) (p : path) : bool :=
  match observe t p with OFile _ => true | _ => false end.

Definition present (t : node) (p : path) : bool :=
  match observe t p with OAbsent => false | _ => true end.

Definition read (t : node) (p : path) : option (list byte) :=
  match observe t p with OFile data => Some data | _ => None end.

Definition names (t : node) (p : path) : option (list string) :=
  match observe t p with ODir ns => Some ns | _ => None end.

(** Size in bytes of the plain file at [p], 0 when there is none. *)
Definition file_size (t : node) (p : path) : Z :=
  match observe t p with
  | OFile data => Z.of_nat (List.length data)
  | _ => 0
  end.

(** ** Effects

    Every call that [flatten_dir] makes to the filesystem or to standard
    output is recorded, with its outcome, in the order of the calls. *)

Inductive event : Type :=
| EvIterdir (p : path)
| EvIsDir (p : path) (r : bool)
| EvIsFile (p : path) (r : bool)
| EvExists (p : path) (r : bool)
| EvPrint (line : string)
| EvCopy (src dst : path) (r : result path)
| EvStat (p : path) (size : Z).

(** A computation reads and updates the filesystem, appends to the record of
    calls, and returns or raises. *)
Definition M (A : Type) : Type := node -> result A * node * list event.

Definition ret {A} (a : A) : M A := fun fs => (Ok a, fs, []).

Definition bind {A B} (m : M A) (f : A -> M B) : M B :=
  fun fs =>
    match m fs with
    | (Ok a, fs1, tr1) =>
        match f a fs1 with
        | (r, fs2, tr2) => (r, fs2, tr1 ++ tr2)
        end
    | (Raise e, fs1, tr1) => (Raise e, fs1, tr1)
    end.

Notation "x <- m ;; k" := (bind m (fun x => k))
  (at level 61, m at next level, right associativity).
Notation "m ;;; k" := (bind m (fun _ => k))
  (at level 61, right associativity).

(** [for x in xs: acc = body(x, acc)]; an exception leaves the loop. *)
Fixpoint for_each {A S} (xs : list A) (body : A -> S -> M S) (acc : S) : M S :=
  match xs with
  | [] => ret acc
  | x :: xs' => acc' <- body x acc ;; for_each xs' body acc'
  end.

(** How the operating system lets a copy down: it refuses it before the
    target is opened for writing (no permission to read the source or to
    write the target), or the copy breaks once the target has been opened,
    that is created or emptied, with only the first [written] bytes of the
    source in it (disk full, read error, quota; all the bytes when it is
    the setting of the mode, after the data, that fails). *)
Inductive fault : Type :=
| NoFault
| Refused
| Broken (written : nat).

Section Flatdir.

(** The environment: [io_fault src dst] tells how the operating system
    lets the copy of [src] to [dst] down, if it does; [print_fault line]
    is the exception that writing [line] to standard output raises, if
    any ([UnicodeEncodeError] for a file name that the encoding of
    standard output cannot express, [OSError] for a closed pipe);
    [dir_size] is what [stat] reports as the size of a directory. *)
Variable io_fault : path -> path -> fault.
Variable print_fault : string -> option exn.
Variable dir_size : Z.

(** [indir.iterdir()]: the children of [p], in directory order.  The
    listing is read in full when the loop starts; entries created later
    are not in it. *)
Definition iterdir (p : path) : M (list path) := fun fs =>
  match observe fs p with
  | ODir ns => (Ok (map (child p) ns), fs, [EvIterdir p])
  | OFile _ => (Raise NotADirectoryError, fs, [EvIterdir p])
  | OAbsent => (Raise FileNotFoundError, fs, [EvIterdir p])
  end.

(** [path.is_dir()], [path.is_file()], [outfile.exists()]. *)
Definition is_dir (p : path) : M bool := fun fs =>
  (Ok (isdir fs p), fs, [EvIsDir p (isdir fs p)]).

Definition is_file (p : path) : M bool := fun fs =>
  (Ok (isfile fs p), fs, [EvIsFile p (isfile fs p)]).

Definition exists_ (p : path) : M bool := fun fs =>
  (Ok (present fs p), fs, [EvExists p (present fs p)]).

(** [print(line)]: the line is encoded before anything is written, so a
    call that raises has printed nothing. *)
Definition print (line : string) : M unit := fun fs =>
  match print_fault line with
  | None => (Ok tt, fs, [EvPrint line])
  | Some e => (Raise e, fs, [])
  end.

(** [shutil.copyfile(src, dst)] followed by [shutil.copymode]: refuses to
    copy a file onto itself, opens [src] for reading, opens [dst] for
    writing, which creates it or empties it, and copies the bytes.  A copy
    that breaks after the target was opened leaves in it what was written
    so far. *)
Definition copyfile (src dst : path) (fs : node) : result unit * node :=
  if path_eqb src dst then (Raise SameFileError, fs)
  else
    match observe fs src with
    | OAbsent => (Raise FileNotFoundError, fs)
    | ODir _ => (Raise IsADirectoryError, fs)
    | OFile data =>
        match io_fault src dst with
        | Refused => (Raise OSError, fs)
        | Broken written =>
            match write fs dst (firstn written data) with
            | Ok fs' => (Raise OSError, fs')
            | Raise e => (Raise e, fs)
            end
        | NoFault =>
            match write fs dst data with
            | Ok fs' => (Ok tt, fs')
            | Raise e => (Raise e, fs)
            end
        end
    end.

(** The file [shutil.copy(src, dst)] writes: [dst] itself, or the entry
    called like [src] inside [dst] when [dst] is a directory. *)
Definition copy_target (fs : node) (src dst : path) : path :=
  if isdir fs dst then child dst (name src) else dst.

(** [shutil.copy(src, dst)]; it returns the path of the file written. *)
Definition shutil_copy (src dst : path) : M path := fun fs =>
  let dst' := copy_target fs src dst in
  match copyfile src dst' fs with
  | (Ok _, fs') => (Ok dst', fs', [EvCopy src dst (Ok dst')])
  | (Raise e, fs') => (Raise e, fs', [EvCopy src dst (Raise e)])
  end.

(** [path.stat().st_size]. *)
Definition st_size (p : path) : M Z := fun fs =>
  match observe fs p with
  | OFile data =>
      (Ok (Z.of_nat (List.length data)), fs,
       [EvStat p (Z.of_nat (List.length data))])
  | ODir _ => (Ok dir_size, fs, [EvStat p dir_size])
  | OAbsent => (Raise FileNotFoundError, fs, [])
  end.

(** The message of line 86. *)
Definition copying_line (outfile : path) : string :=
  "Copying '" ++ path_str outfile ++ "'".

(** Lines 82-89: the plain-file branch of the loop body. *)
Definition copy_file (outdir : path) (verbose overwrite : bool)
    (p : path) (acc : Z * Z) : M (Z * Z) :=
  let '(n_files, n_bytes) := acc in
  let outfile := child outdir (name p) in
  e <- exists_ outfile ;;
  if e && negb overwrite then ret (n_files, n_bytes)
  else
    (if verbose then print (copying_line outfile) else ret tt) ;;;
    shutil_copy p outfile ;;;
    size <- st_size p ;;
    ret (n_files + 1, n_bytes + size).

(** Lines 81-89: [elif path.is_file(): ...]. *)
Definition visit (outdir : path) (verbose overwrite : bool)
    (p : path) (acc : Z * Z) : M (Z * Z) :=
  f <- is_file p ;;
  if f then copy_file outdir verbose overwrite p acc else ret acc.

(** Lines 75-89: the loop body, [recurse] being the call of line 77. *)
Definition flatten_entry (recurse : path -> M (Z * Z))
    (outdir : path) (verbose overwrite : bool)
    (p : path) (acc : Z * Z) : M (Z * Z) :=
  d <- is_dir p ;;
  if d then
    sub <- recurse p ;;
    ret (fst acc + fst sub, snd acc + snd sub)
  else visit outdir verbose overwrite p acc.

(** [flatten_dir] with [levels = recursions_left + 1] levels still to be
    scanned, so that [levels = 0] is [recursions_left < 0] and the call of
    line 77 has one level less.  The interpreter's limit on the depth of
    recursion is not part of the model: the calls nest as deep as the
    directories do, and a run described here is one that stays within
    that limit. *)
Fixpoint flatten_dir_at (levels : nat) (indir outdir : path)
    (verbose overwrite : bool) : M (Z * Z) :=
  match levels with
  | O => ret (0, 0)
  | S levels' =>
      if path_eqb indir outdir then ret (0, 0)
      else
        paths <- iterdir indir ;;
        for_each paths
          (flatten_entry
             (fun p => flatten_dir_at levels' p outdir verbose overwrite)
             outdir verbose overwrite)
          (0, 0)
  end.

(** [flatten_dir(indir, outdir, recursions_left, verbose, overwrite)]. *)
Definition flatten_dir (indir outdir : path) (recursions_left : Z)
    (verbose overwrite : bool) : M (Z * Z) :=
  flatten_dir_at (Z.to_nat (recursions_left + 1)) indir outdir verbose overwrite.

End Flatdir.

(** ** Reading the record of calls *)

(** The plain files visited: those for which [path.is_file()] held. *)
Definition visited (tr : list event) : list path :=
  flat_map (fun ev => match ev with EvIsFile p true => [p] | _ => [] end) tr.

(** The copies completed: source, and file written. *)
Definition copied (tr : list event) : list (path * path) :=
  flat_map (fun ev =>
    match ev with EvCopy src _ (Ok dst') => [(src, dst')] | _ => [] end) tr.

(** The copies called for, completed or not: source and [outfile]. *)
Definition copy_calls (tr : list event) : list (path * path) :=
  flat_map (fun ev =>
    match ev with EvCopy src dst _ => [(src, dst)] | _ => [] end) tr.

(** The copies that failed: source and [outfile]. *)
Definition failed (tr : list event) : list (path * path) :=
  flat_map (fun ev =>
    match ev with EvCopy src dst (Raise _) => [(src, dst)] | _ => [] end) tr.

(** The lines printed. *)
Definition printed (tr : list event) : list string :=
  flat_map (fun ev => match ev with EvPrint line => [line] | _ => [] end) tr.

(** The sizes [stat] reported. *)
Definition stat_sizes (tr : list event) : list Z :=
  flat_map (fun ev => match ev with EvStat _ n => [n] | _ => [] end) tr.

(** The directories listed, that is, recursed into. *)
Definition entered (tr : list event) : list path :=
  flat_map (fun ev => match ev with EvIterdir p => [p] | _ => [] end) tr.

(** Calls that only steer the walk: listing a directory, testing for one. *)
Definition is_walk (ev : event) : bool :=
  match ev with
  | EvIterdir _ | EvIsDir _ _ => true
  | _ => false
  end.

Definition file_events (tr : list event) : list event :=
  filter (fun ev => negb (is_walk ev)) tr.

Definition no_prints (tr : list event) : list event :=
  filter (fun ev => match ev with EvPrint _ => false | _ => true end) tr.

Definition sumZ (l : list Z) : Z := fold_right Z.add 0 l.

(** ** The source side of a traversal *)

(** [p] lies at or below [d]. *)
Definition below (d p : path) : Prop := exists rel, p = d ++ rel.

(** [p] is a plain file at subdirectory nesting depth [k] below [indir]:
    depth 0 is directly inside [indir]. *)
Definition file_at_depth (fs : node) (indir : path) (k : nat) (p : path) : Prop :=
  exists rel, p = indir ++ rel /\ List.length rel = S k /\ isfile fs p = true.

(** The plain files at depth less than [levels] below [dir], in directory
    order. *)
Fixpoint files_within (fs : node) (levels : nat) (dir : path) : list path :=
  match levels with
  | O => []
  | S levels' =>
      match observe fs dir with
      | ODir ns =>
          flat_map (fun n =>
            match observe fs (child dir n) with
            | ODir _ => files_within fs levels' (child dir n)
            | OFile _ => [child dir n]
            | OAbsent => []
            end) ns
      | _ => []
      end
  end.

(** The same walk stopping at [outdir]: the plain files that a traversal
    with destination [outdir] reads. *)
Fixpoint sources (fs : node) (outdir : path) (levels : nat) (dir : path)
  : list path :=
  match levels with
  | O => []
  | S levels' =>
      if path_eqb dir outdir then []
      else
        match observe fs dir with
        | ODir ns =>
            flat_map (fun n =>
              match observe fs (child dir n) with
              | ODir _ => sources fs outdir levels' (child dir n)
              | OFile _ => [child dir n]
              | OAbsent => []
              end) ns
        | _ => []
        end
  end.

(** The sources found under one directory entry [c]. *)
Definition entry_sources (fs : node) (outdir : path) (levels : nat) (c : path)
  : list path :=
  match observe fs c with
  | ODir _ => sources fs outdir levels c
  | OFile _ => [c]
  | OAbsent => []
  end.

(** No directory lists a name twice. *)
Fixpoint nodupb (l : list string) : bool :=
  match l with
  | [] => true
  | x :: l' => negb (existsb (String.eqb x) l') && nodupb l'
  end.

Fixpoint wf_node (t : node) : bool :=
  match t with
  | File _ => true
  | Dir es => nodupb (map fst es) && forallb (fun e => wf_node (snd e)) es
  end.

(** ** How the filesystem evolves during a traversal *)

(** [fs'] comes after [fs] in a traversal towards [outdir]: directories are
    the same, plain files are still plain files, and only [outdir] and its
    immediate subdirectories may list new names. *)
Definition grows (outdir : path) (fs fs' : node) : Prop :=
  (forall p, isdir fs' p = isdir fs p) /\
  (forall p, isfile fs p = true -> isfile fs' p = true) /\
  (forall d, d <> outdir -> (forall x, d <> child outdir x) ->
     names fs' d = names fs d).

(** The two places a copy towards [outdir] can write. *)
Definition target_shape (outdir q : path) : Prop :=
  exists x, q = child outdir x \/ q = child (child outdir x) x.

(** Every call recorded by a computation satisfies [ok]. *)
Definition all_events {A} (ok : event -> Prop)
    (x : result A * node * list event) : Prop :=
  Forall ok (snd x).

(** The exception of a call of [shutil.copy] that failed. *)
Definition failed_copy (ev : event) : option exn :=
  match ev with
  | EvCopy _ _ (Raise e) => Some e
  | _ => None
  end.

(** A computation stops at the first copy that fails: that call is the last
    one it makes and its exception is the outcome. *)
Definition aborting {A} (x : result A * node * list event) : Prop :=
  forall ev e, In ev (snd x) -> failed_copy ev = Some e ->
    fst (fst x) = Raise e /\
    exists tr0, snd x = tr0 ++ [ev] /\
                forall ev', In ev' tr0 -> failed_copy ev' = None.

(** A computation's outcome with the lines it printed left out of the
    record. *)
Definition quiet {A} (x : result A * node * list event)
  : result A * node * list event :=
  (fst (fst x), snd (fst x), no_prints (snd x)).

(** [x0] is the outcome [x1] with the lines printed left out, provided
    standard output takes the line of every copy that [x0] calls for. *)
Definition hushed {A} (print_fault : string -> option exn)
    (x0 x1 : result A * node * list event) : Prop :=
  (forall c, In c (copy_calls (snd x0)) ->
     print_fault (copying_line (snd c)) = None) ->
  x0 = quiet x1.



(** The paths a copy towards [outdir] may overwrite, given which entries of
    [outdir] are directories. *)
Definition clobbered (outdir : path) (fs : node) (q : path) : Prop :=
  exists x, q = child outdir x \/
            (q = child (child outdir x) x /\ isdir fs (child outdir x) = true).

(** Every path outside those holds the bytes it held. *)
Definition keeps (outdir : path) (fs fs' : node) : Prop :=
  forall p, ~ clobbered outdir fs p -> read fs' p = read fs p.

(** Add the counts [a] to the counts a computation returns. *)
Definition shift (a : Z * Z) (x : result (Z * Z) * node * list event)
  : result (Z * Z) * node * list event :=
  match x with
  | (Ok s, fs, tr) => (Ok (fst a + fst s, snd a + snd s), fs, tr)
  | (Raise e, fs, tr) => (Raise e, fs, tr)
  end.

(** What visiting one directory entry [p] can do (lines 81-89): it is not a
    plain file; its target exists and is kept; the line cannot be printed;
    the copy fails, leaving the filesystem [fs']; the copy is made. *)
Inductive visit_outcome (io_fault : path -> path -> fault)
    (print_fault : string -> option exn) (outdir : path)
    (verbose overwrite : bool) (p : path) (acc : Z * Z) (fs : node)
  : result (Z * Z) * node * list event -> Prop :=
| VisitOther :
    isfile fs p = false ->
    visit_outcome io_fault print_fault outdir verbose overwrite p acc fs
      (Ok acc, fs, [EvIsFile p false])
| VisitSkip :
    isfile fs p = true ->
    present fs (child outdir (name p)) = true ->
    overwrite = false ->
    visit_outcome io_fault print_fault outdir verbose overwrite p acc fs
      (Ok acc, fs, [EvIsFile p true; EvExists (child outdir (name p)) true])
| VisitMute (data : list byte) (e : exn) :
    observe fs p = OFile data ->
    present fs (child outdir (name p)) && negb overwrite = false ->
    verbose = true ->
    print_fault (copying_line (child outdir (name p))) = Some e ->
    visit_outcome io_fault print_fault outdir verbose overwrite p acc fs
      (Raise e, fs,
       [EvIsFile p true;
        EvExists (child outdir (name p)) (present fs (child outdir (name p)))])
| VisitFail (data : list byte) (e : exn) (fs' : node) :
    observe fs p = OFile data ->
    present fs (child outdir (name p)) && negb overwrite = false ->
    (verbose = true ->
     print_fault (copying_line (child outdir (name p))) = None) ->
    copyfile io_fault p (copy_target fs p (child outdir (name p))) fs
      = (Raise e, fs') ->
    visit_outcome io_fault print_fault outdir verbose overwrite p acc fs
      (Raise e, fs',
       [EvIsFile p true;
        EvExists (child outdir (name p)) (present fs (child outdir (name p)))]
       ++ (if verbose
           then [EvPrint (copying_line (child outdir (name p)))] else [])
       ++ [EvCopy p (child outdir (name p)) (Raise e)])
| VisitCopy (data : list byte) (fs' : node) :
    observe fs p = OFile data ->
    present fs (child outdir (name p)) && negb overwrite = false ->
    (verbose = true ->
     print_fault (copying_line (child outdir (name p))) = None) ->
    p <> copy_target fs p (child outdir (name p)) ->
    io_fault p (copy_target fs p (child outdir (name p))) = NoFault ->
    write fs (copy_target fs p (child outdir (name p))) data = Ok fs' ->
    observe fs' p = OFile data ->
    visit_outcome io_fault print_fault outdir verbose overwrite p acc fs
      (Ok (fst acc + 1, snd acc + Z.of_nat (List.length data)), fs',
       [EvIsFile p true;
        EvExists (child outdir (name p)) (present fs (child outdir (name p)))]
       ++ (if verbose
           then [EvPrint (copying_line (child outdir (name p)))] else [])
       ++ [EvCopy p (child outdir (name p))
             (Ok (copy_target fs p (child outdir (name p))));
           EvStat p (Z.of_nat (List.length data))]).

(** ** Example filesystems *)

Module Examples.

(** An environment in which no copy fails. *)
Definition no_fault (_ _ : path) : fault := NoFault.

(** An environment in which the copy of [root/sub/b.txt] is refused. *)
Definition deny_b (src _ : path) : fault :=
  if path_eqb src ["root"; "sub"; "b.txt"] then Refused else NoFault.

(** An environment in which the copy of [root/sub/b.txt] breaks after 15
    bytes. *)
Definition break_b (src _ : path) : fault :=
  if path_eqb src ["root"; "sub"; "b.txt"] then Broken 15 else NoFault.

(** A standard output that takes every line. *)
Definition print_ok (_ : string) : option exn := None.

(** A standard output that takes ASCII only. *)
Definition ascii_only (line : string) : option exn :=
  if forallb (fun c => Nat.ltb (nat_of_ascii c) 128) (list_ascii_of_string line)
  then None else Some UnicodeEncodeError.

Definition zeros (n : nat) : list byte := repeat x00 n.

(** [root/a.txt] (10 bytes), [root/sub/b.txt] (20), [root/sub/sub2/c.txt]
    (30), and an empty destination [out]. *)
Definition spec_tree : node :=
  Dir [("root",
        Dir [("a.txt", File (zeros 10));
             ("sub",
              Dir [("b.txt", File (zeros 20));
                   ("sub2", Dir [("c.txt", File (zeros 30))])])]);
       ("out", Dir [])].

(** A source file whose target exists in the destination. *)
Definition collide_tree : node :=
  Dir [("src", Dir [("f", File [x01; x02; x03])]);
       ("out", Dir [("f", File [x09])])].

(** A destination inside the source tree. *)
Definition nested_tree : node :=
  Dir [("src", Dir [("f", File [x01]); ("out", Dir [])])].


(** A source file whose name is not ASCII: the byte 233 followed by [t]. *)
Definition odd_name : string := String "233"%char "t".

Definition odd_tree : node :=
  Dir [("src", Dir [(odd_name, File [x01])]); ("out", Dir [])].


End Examples.

(** ** The command line program

    [main], lines 6-27.  The arguments are taken as [parse_args] returns
    them, with the two paths as [resolve()] leaves them: absolute and
    normalised.  *)

(** The ways in which [os.mkdir] fails on a filesystem without links and
    permissions. *)
Inductive mkdir_error : Type :=
| EEXIST
| ENOENT
| ENOTDIR.

(** [os.mkdir(p)]: the path is resolved component by component; a plain
    file on the way gives ENOTDIR, a missing directory on the way ENOENT,
    an existing path EEXIST; otherwise an empty directory is added after
    the entries of the parent. *)
Fixpoint os_mkdir (t : node) (p : path) : node + mkdir_error :=
  match p with
  | [] => inr EEXIST
  | n :: p' =>
      match t with
      | File _ => inr ENOTDIR
      | Dir es =>
          match assoc n es with
          | Some c =>
              match os_mkdir c p' with
              | inl c' => inl (Dir (replace n c' es))
              | inr e => inr e
              end
          | None =>
              match p' with
              | [] => inl (Dir (es ++ [(n, Dir [])]))
              | _ :: _ => inr ENOENT
              end
          end
      end
  end.

(** The outcome of [Path.mkdir]: the [OSError] raised, if any, with the
    path it names, and the filesystem left behind. *)
Definition mkdir_result : Type := option (mkdir_error * path) * node.

(** [Path.mkdir(parents=False, exist_ok=exist_ok)]: [FileNotFoundError] is
    raised again; any other error is swallowed when [exist_ok] is set and
    the path is a directory. *)
Definition mkdir_here (exist_ok : bool) (p : path) (fs : node)
  : mkdir_result :=
  match os_mkdir fs p with
  | inl fs' => (None, fs')
  | inr ENOENT => (Some (ENOENT, p), fs)
  | inr e => if exist_ok && isdir fs p then (None, fs) else (Some (e, p), fs)
  end.

(** [Path.mkdir(parents=True, exist_ok=exist_ok)]: on [FileNotFoundError]
    the parent is made first, with [parents=True, exist_ok=True], and the
    directory is then made with [parents=False].  [depth] counts the
    components of [p]: at depth 0 the path is the root, its own parent. *)
Fixpoint mkdir_parents (depth : nat) (exist_ok : bool) (p : path) (fs : node)
  : mkdir_result :=
  match os_mkdir fs p with
  | inl fs' => (None, fs')
  | inr ENOENT =>
      match depth with
      | O => (Some (ENOENT, p), fs)
      | S depth' =>
          match mkdir_parents depth' true (removelast p) fs with
          | (None, fs1) => mkdir_here exist_ok p fs1
          | (Some err, fs1) => (Some err, fs1)
          end
      end
  | inr e => if exist_ok && isdir fs p then (None, fs) else (Some (e, p), fs)
  end.

Definition path_mkdir (parents exist_ok : bool) (p : path) (fs : node)
  : mkdir_result :=
  if parents then mkdir_parents (List.length p) exist_ok p fs
  else mkdir_here exist_ok p fs.

(** What making the directory [p], and directories above it, may change:
    no file, no directory that was there, and the only new directories are
    [p] and directories above it. *)
Definition made (p : path) (fs fs' : node) : Prop :=
  (forall q, read fs' q = read fs q) /\
  (forall q, isdir fs q = true -> isdir fs' q = true) /\
  (forall q, isdir fs' q = true -> isdir fs q = true \/ below q p).

(** Calls that only look: [exists()] and [is_dir()]. *)
Definition probe (ev : event) : bool :=
  match ev with
  | EvExists _ _ | EvIsDir _ _ => true
  | _ => false
  end.

(** Why [Path.mkdir(parents=parents, exist_ok=True)] fails on [p]. *)
Definition unmakeable (parents : bool) (fs : node) (p : path) : Prop :=
  if parents then exists d, below d p /\ isfile fs d = true
  else isdir fs p = false /\
       (present fs p = true \/ isdir fs (removelast p) = false).

(** Lines 20-23, [try: outdir.mkdir(...) except OSError as err]: the
    error caught, if any.  The call leaves no entry in the record of
    calls; what it does shows in the filesystem. *)
Definition try_mkdir (parents exist_ok : bool) (p : path)
  : M (option (mkdir_error * path)) := fun fs =>
  let '(err, fs') := path_mkdir parents exist_ok p fs in (Ok err, fs', []).

(** The namespace [parse_args] returns, paths resolved. *)
Record args : Type := Args {
  arg_indir : path;
  arg_outdir : path;
  arg_recurse_max : Z;
  arg_verbose : bool;
  arg_parents : bool;
  arg_force_overwrite : bool
}.

(** How [main] ends when nothing is raised: [parser.error(message)], which
    writes the message to standard error and exits with status 2, or the
    end of the function. *)
Inductive ending : Type :=
| UsageError (message : string)
| Done.

(** [str(n)] for an [int]. *)
Definition int_str (n : Z) : string := NilZero.string_of_int (Z.to_int n).

Definition newline : string := String "010"%char EmptyString.

Section Main.

Variable io_fault : path -> path -> fault.
Variable print_fault : string -> option exn.
Variable dir_size : Z.

(** [format_bytes] works in floating point and is not modelled; neither is
    the text [str(err)] that the platform gives an [OSError]. *)
Variable format_bytes : Z -> string.
Variable os_error_text : mkdir_error -> path -> string.

(** The line of line 27. *)
Definition summary_line (counts : Z * Z) : string :=
  "Copied " ++ int_str (fst counts) ++ " files ("
  ++ format_bytes (snd counts) ++ ")".

Definition main (a : args) : M ending :=
  let indir := arg_indir a in
  let outdir := arg_outdir a in
  there <- exists_ indir ;;
  if negb there then
    ret (UsageError ("Input directory does not exist: '"
                     ++ path_str indir ++ "'"))
  else
  dir <- is_dir indir ;;
  if negb dir then
    ret (UsageError ("Input path is not a valid directory: '"
                     ++ path_str indir ++ "'"))
  else
  out_there <- exists_ outdir ;;
  out_bad <- (if out_there
              then out_dir <- is_dir outdir ;; ret (negb out_dir)
              else ret false) ;;
  if out_bad then
    ret (UsageError ("Output path exists but is not a valid directory: "
                     ++ path_str outdir))
  else
  if path_eqb indir outdir then
    ret (UsageError "Input and output directories are the same")
  else
  caught <- try_mkdir (arg_parents a) true outdir ;;
  match caught with
  | Some (e, q) =>
      ret (UsageError
             ("Could not make output directory (did you mean to specify '-p'?):"
              ++ newline ++ " -> " ++ os_error_text e q))
  | None =>
      counts <- flatten_dir io_fault print_fault dir_size indir outdir
                  (arg_recurse_max a) (arg_verbose a) (arg_force_overwrite a) ;;
      print print_fault (summary_line counts) ;;;
      ret Done
  end.

End Main.

(** ** Further example filesystems *)

Module MoreExamples.

Definition fmt (n : Z) : string := int_str n ++ " bytes".

Definition err_text (e : mkdir_error) (q : path) : string :=
  match e with
  | EEXIST => "File exists: "
  | ENOENT => "No such file or directory: "
  | ENOTDIR => "Not a directory: "
  end ++ path_str q.

(** A source directory [src] with one file, and no destination. *)
Definition fresh_tree : node :=
  Dir [("src", Dir [("f", File [x01; x02; x03])])].

Definition run (indir outdir : path) (parents force : bool) : args :=
  Args indir outdir 1 false parents force.

(** Two source files called [f], one directly in [src] and one in
    [src/sub], and an empty destination. *)
Definition twin_tree : node :=
  Dir [("src", Dir [("f", File [x01]); ("sub", Dir [("f", File [x02])])]);
       ("out", Dir [])].

(** A destination whose entry [f] is a directory. *)
Definition dir_target_tree : node :=
  Dir [("src", Dir [("f", File [x01; x02])]);
       ("out", Dir [("f", Dir [])])].

End MoreExamples.

(** * Properties *)

(** ** Paths *)

Lemma path_eqb_eq (p q : path) : path_eqb p q = true <-> p = q.
Proof.
  unfold path_eqb. destruct (path_eq_dec p q); split; congruence.
Qed.

Lemma path_eqb_refl (p : path) : path_eqb p p = true.
Proof. apply path_eqb_eq. reflexivity. Qed.

Lemma path_eqb_neq (p q : path) : path_eqb p q = false <-> p <> q.
Proof.
  unfold path_eqb. destruct (path_eq_dec p q); split; congruence.
Qed.

Lemma name_child (p : path) (n : string) : name (child p n) = n.
Proof. unfold name, child. apply last_last. Qed.

Lemma child_inj (p q : path) (n m : string) :
  child p n = child q m -> p = q /\ n = m.
Proof. unfold child. intros H. apply app_inj_tail in H. exact H. Qed.

Lemma child_not_nil (p : path) (n : string) : child p n <> [].
Proof. unfold child. destruct p; discriminate. Qed.

Lemma child_cons (a : string) (p : path) (n : string) :
  child (a :: p) n = a :: child p n.
Proof. reflexivity. Qed.

Lemma child_neq_self (p : path) (n : string) : child p n <> p.
Proof.
  unfold child. intros H.
  apply (f_equal (@List.length string)) in H.
  rewrite length_app in H. simpl in H. lia.
Qed.

Lemma child_app (p q : path) (n : string) : child (p ++ q) n = p ++ child q n.
Proof. unfold child. symmetry. apply app_assoc. Qed.

(** ** Directory entries *)

Lemma assoc_in_names (n : string) (es : list (string * node)) :
  In n (map fst es) <-> assoc n es <> None.
Proof.
  induction es as [|[m c] es IH]; simpl.
  - split; [intros [] | congruence].
  - destruct (String.eqb_spec m n) as [->|Hne].
    + split; [discriminate | auto].
    + rewrite <- IH. split; [intros [H|H]; [congruence | exact H] | auto].
Qed.

Lemma map_fst_replace (n : string) (c : node) (es : list (string * node)) :
  map fst (replace n c es) = map fst es.
Proof.
  induction es as [|[m d] es IH]; simpl; [reflexivity|].
  destruct (String.eqb m n); simpl; [reflexivity | now rewrite IH].
Qed.

Lemma assoc_replace_same (n : string) (c c0 : node) (es : list (string * node)) :
  assoc n es = Some c0 -> assoc n (replace n c es) = Some c.
Proof.
  induction es as [|[m d] es IH]; simpl; [discriminate|].
  destruct (String.eqb m n) eqn:E; simpl; rewrite E; auto.
Qed.

Lemma assoc_replace_other (n m : string) (c : node) (es : list (string * node)) :
  m <> n -> assoc m (replace n c es) = assoc m es.
Proof.
  intros Hne. induction es as [|[k d] es IH]; simpl; [reflexivity|].
  destruct (String.eqb_spec k n) as [->|Hkn]; simpl.
  - destruct (String.eqb_spec n m); [congruence | reflexivity].
  - destruct (String.eqb k m); [reflexivity | exact IH].
Qed.

Lemma assoc_app_new (n m : string) (c : node) (es : list (string * node)) :
  assoc n es = None ->
  assoc m (es ++ [(n, c)]) = if String.eqb n m then Some c else assoc m es.
Proof.
  induction es as [|[k d] es IH]; simpl; intros Hn.
  - reflexivity.
  - destruct (String.eqb_spec k n) as [->|Hkn]; [discriminate|].
    destruct (String.eqb_spec k m) as [->|Hkm].
    + destruct (String.eqb_spec n m); [congruence | reflexivity].
    + apply IH. exact Hn.
Qed.

(** ** Resolution and writing *)

Lemma find_app (t : node) (p q : path) :
  find t (p ++ q) =
  match find t p with Some c => find c q | None => None end.
Proof.
  revert t. induction p as [|n p IH]; intros t; simpl; [reflexivity|].
  destruct t as [d|es]; [reflexivity|].
  destruct (assoc n es); [apply IH | reflexivity].
Qed.

Lemma find_file_below (d : list byte) (p : path) :
  p <> [] -> find (File d) p = None.
Proof. destruct p; [congruence | reflexivity]. Qed.

(** An entry is listed by its directory exactly when it is there. *)
Lemma names_present (t : node) (p : path) (ns : list string) (n : string) :
  observe t p = ODir ns ->
  (In n ns <-> observe t (child p n) <> OAbsent).
Proof.
  unfold observe, child. rewrite find_app.
  destruct (find t p) as [[d|es]|]; try discriminate.
  intros [= <-]. rewrite assoc_in_names. simpl.
  destruct (assoc n es) as [[d|es']|]; split; congruence.
Qed.

(** Whatever is there lies in a directory. *)
Lemma present_parent (t : node) (p : path) (n : string) :
  observe t (child p n) <> OAbsent -> exists ns, observe t p = ODir ns.
Proof.
  unfold observe, child. rewrite find_app.
  destruct (find t p) as [[d|es]|]; simpl; try congruence.
  intros _. eexists. reflexivity.
Qed.

Lemma absent_below (t : node) (p q : path) :
  observe t p = OAbsent -> observe t (p ++ q) = OAbsent.
Proof.
  unfold observe. rewrite find_app.
  destruct (find t p) as [[d|es]|]; try discriminate. reflexivity.
Qed.

Lemma file_below (t : node) (p q : path) (d : list byte) :
  observe t p = OFile d -> q <> [] -> observe t (p ++ q) = OAbsent.
Proof.
  unfold observe. rewrite find_app.
  destruct (find t p) as [[d'|es]|]; try discriminate.
  intros _ Hq. now rewrite find_file_below.
Qed.

(** The effect of a successful write on every path. *)
Lemma write_observe (t t' : node) (q : path) (data : list byte) :
  write t q data = Ok t' ->
  observe t' q = OFile data /\
  (forall ns, observe t q <> ODir ns) /\
  (forall p, p <> q ->
     (observe t q <> OAbsent \/ forall n, q <> child p n) ->
     observe t' p = observe t p) /\
  (forall p n, q = child p n -> observe t q = OAbsent ->
     exists ns, observe t p = ODir ns /\ observe t' p = ODir (ns ++ [n])).
Proof.
  revert t t'. induction q as [|n q IH]; intros t t' Hw.
  - simpl in Hw. destruct t as [d|es]; [|discriminate].
    injection Hw as <-. unfold observe. simpl.
    repeat split.
    + discriminate.
    + intros p Hp _. destruct p; [congruence | reflexivity].
    + intros p n Hq. symmetry in Hq. now apply child_not_nil in Hq.
  - simpl in Hw. destruct t as [d|es]; [discriminate|].
    destruct (assoc n es) as [c|] eqn:Ea.
    + destruct (write c q data) as [c'|e] eqn:Ew; [|discriminate].
      injection Hw as <-.
      destruct (IH _ _ Ew) as (H1 & H2 & H3 & H4).
      unfold observe in *. simpl.
      rewrite (assoc_replace_same _ _ _ _ Ea), Ea.
      repeat split.
      * exact H1.
      * exact H2.
      * intros p Hp Hc. destruct p as [|m p]; simpl.
        { now rewrite map_fst_replace. }
        destruct (string_dec m n) as [->|Hmn].
        { rewrite (assoc_replace_same _ _ _ _ Ea), Ea.
          apply H3; [congruence|].
          destruct Hc as [Hc|Hc]; [left; exact Hc|right].
          intros k Hk. apply (Hc k). rewrite child_cons. congruence. }
        { rewrite assoc_replace_other by exact Hmn. reflexivity. }
      * intros p k Hq Habs. destruct p as [|m p].
        { unfold child in Hq. simpl in Hq. injection Hq as -> ->.
          simpl in Habs. destruct c; discriminate. }
        rewrite child_cons in Hq. injection Hq as <- ->. simpl.
        rewrite (assoc_replace_same _ _ _ _ Ea), Ea.
        apply H4; [reflexivity | exact Habs].
    + destruct q as [|k q]; [|discriminate].
      injection Hw as <-. unfold observe. simpl.
      rewrite Ea. rewrite (assoc_app_new _ _ _ _ Ea), String.eqb_refl.
      repeat split.
      * discriminate.
      * intros p Hp Hc. destruct Hc as [Hc|Hc]; [congruence|].
        destruct p as [|m p]; simpl.
        { exfalso. apply (Hc n). reflexivity. }
        rewrite (assoc_app_new _ _ _ _ Ea).
        destruct (String.eqb_spec n m) as [<-|Hnm]; [|reflexivity].
        rewrite Ea. destruct p; [congruence | reflexivity].
      * intros p k Hq _. destruct p as [|m p].
        { unfold child in Hq. simpl in Hq. injection Hq as <-.
          exists (map fst es). split; [reflexivity|].
          simpl. rewrite map_app. reflexivity. }
        { rewrite child_cons in Hq. injection Hq as _ Hq.
          symmetry in Hq. now apply child_not_nil in Hq. }
Qed.

Lemma read_eq_dec (a b : option (list byte)) : {a = b} + {a <> b}.
Proof. decide equality; apply list_eq_dec, Byte.byte_eq_dec. Qed.

Lemma write_file_ok (t : node) (q : path) (d0 data : list byte) :
  observe t q = OFile d0 -> exists t', write t q data = Ok t'.
Proof.
  revert t. induction q as [|n q IH]; intros t; unfold observe; simpl.
  - destruct t; [eauto | discriminate].
  - destruct t as [d|es]; [discriminate|].
    destruct (assoc n es) as [c|] eqn:Ea; [|discriminate].
    intros H. destruct (IH c H) as [c' ->]. eauto.
Qed.

Lemma write_new_ok (t : node) (p : path) (n : string) (ns : list string)
    (data : list byte) :
  observe t p = ODir ns -> observe t (child p n) = OAbsent ->
  exists t', write t (child p n) data = Ok t'.
Proof.
  revert t. induction p as [|m p IH]; intros t; unfold observe; simpl.
  - destruct t as [d|es]; [discriminate|]. intros _.
    destruct (assoc n es) as [[d|es']|]; try discriminate. eauto.
  - destruct t as [d|es]; [discriminate|].
    destruct (assoc m es) as [c|] eqn:Ea; [|discriminate].
    intros H1 H2. destruct (IH c H1 H2) as [c' Hc'].
    fold (child p n). rewrite Hc'. eauto.
Qed.

Lemma observe_root_present (t : node) : observe t [] <> OAbsent.
Proof. unfold observe. simpl. destruct t; discriminate. Qed.

Lemma path_snoc (q : path) : q = [] \/ exists p n, q = child p n.
Proof.
  destruct q as [|a q]; [left; reflexivity | right].
  destruct (@exists_last _ (a :: q)) as (p & n & H); [discriminate|].
  exists p, n. exact H.
Qed.


(** ** The evolution of the filesystem *)

Lemma grows_refl (outdir : path) (fs : node) : grows outdir fs fs.
Proof. repeat split; auto. Qed.

Lemma grows_trans (outdir : path) (a b c : node) :
  grows outdir a b -> grows outdir b c -> grows outdir a c.
Proof.
  intros (K1 & F1 & N1) (K2 & F2 & N2). repeat split.
  - intros p. now rewrite K2, K1.
  - intros p H. auto.
  - intros d H1 H2. now rewrite N2, N1.
Qed.

Lemma grows_present (outdir : path) (fs fs' : node) (p : path) :
  grows outdir fs fs' -> observe fs p <> OAbsent -> observe fs' p <> OAbsent.
Proof.
  intros (K & F & _) Hp.
  specialize (K p). specialize (F p). unfold isdir, isfile in *.
  destruct (observe fs p); [congruence | |];
    destruct (observe fs' p); try discriminate; auto.
  discriminate (F eq_refl).
Qed.

Lemma write_grows (outdir : path) (fs fs' : node) (q : path) (data : list byte) :
  write fs q data = Ok fs' -> target_shape outdir q -> grows outdir fs fs'.
Proof.
  intros Hw [x Hq].
  destruct (write_observe _ _ _ _ Hw) as (Hq' & Hnd & Hsame & Hnew).
  assert (Hcases : forall p, p <> q ->
            observe fs' p = observe fs p \/
            exists ns n, q = child p n /\ observe fs p = ODir ns /\
                         observe fs' p = ODir (ns ++ [n])).
  { intros p Hp.
    destruct (observe fs q) eqn:Eq.
    - destruct (path_snoc q) as [->|(p0 & n & ->)].
      + now apply observe_root_present in Eq.
      + destruct (path_eq_dec p p0) as [->|Hpp].
        * right. destruct (Hnew p0 n eq_refl eq_refl) as (ns & H1 & H2).
          exists ns, n. auto.
        * left. apply Hsame; [exact Hp|]. right. intros k Hk.
          apply child_inj in Hk. destruct Hk. congruence.
    - left. apply Hsame; [exact Hp | left; discriminate].
    - left. apply Hsame; [exact Hp | left; discriminate]. }
  repeat split.
  - intros p. unfold isdir. destruct (path_eq_dec p q) as [->|Hp].
    + rewrite Hq'. destruct (observe fs q) eqn:E; try reflexivity.
      exfalso. eapply Hnd. reflexivity.
    + destruct (Hcases p Hp) as [->|(ns & n & _ & -> & ->)]; reflexivity.
  - intros p. unfold isfile. destruct (path_eq_dec p q) as [->|Hp].
    + now rewrite Hq'.
    + destruct (Hcases p Hp) as [->|(ns & n & _ & -> & ->)]; auto.
  - intros d Hd1 Hd2. unfold names. destruct (path_eq_dec d q) as [->|Hp].
    + rewrite Hq'. destruct (observe fs q) eqn:E; try reflexivity.
      exfalso. eapply Hnd. reflexivity.
    + destruct (Hcases d Hp) as [->|(ns & n & Hc & _ & _)]; [reflexivity|].
      exfalso. destruct Hq as [Hq|Hq]; rewrite Hq in Hc;
        apply child_inj in Hc; destruct Hc as [Hc _].
      * now apply Hd1.
      * now apply (Hd2 x).
Qed.

(** ** The monad *)

(** Equal outcomes up to arithmetic on the counts. *)
Ltac eq_counts :=
  repeat first [reflexivity | lia | progress cbn [fst snd] | progress f_equal].

Lemma bind_inv {A B} (m : M A) (f : A -> M B) (fs fs' : node)
    (r : result B) (tr : list event) :
  bind m f fs = (r, fs', tr) ->
  (exists a fs1 tr1 tr2,
      m fs = (Ok a, fs1, tr1) /\ f a fs1 = (r, fs', tr2) /\ tr = tr1 ++ tr2) \/
  (exists e, m fs = (Raise e, fs', tr) /\ r = Raise e).
Proof.
  unfold bind. destruct (m fs) as [[[a|e] fs1] tr1].
  - destruct (f a fs1) as [[r2 fs2] tr2] eqn:E. intros [= <- <- <-].
    left. exists a, fs1, tr1, tr2. auto.
  - intros [= <- <- <-]. right. eauto.
Qed.

Lemma for_each_app {A S} (xs ys : list A) (body : A -> S -> M S) (acc : S)
    (fs : node) :
  for_each (xs ++ ys) body acc fs =
  (acc' <- for_each xs body acc ;; for_each ys body acc') fs.
Proof.
  revert acc fs. induction xs as [|x xs IH]; intros acc fs; simpl.
  - unfold bind, ret. destruct (for_each ys body acc fs) as [[r f] t].
    reflexivity.
  - unfold bind in *. destruct (body x acc fs) as [[[a|e] fs1] tr1].
    + rewrite IH.
      destruct (for_each xs body a fs1) as [[[a'|e'] fs2] tr2].
      * destruct (for_each ys body a' fs2) as [[r3 fs3] tr3].
        now rewrite app_assoc.
      * reflexivity.
    + reflexivity.
Qed.

(** ** One directory entry *)

Section Entry.

Variable io_fault : path -> path -> fault.
Variable print_fault : string -> option exn.
Variable dir_size : Z.
Variable outdir : path.
Variables verbose overwrite : bool.

Local Notation visit' := (visit io_fault print_fault dir_size outdir verbose overwrite).
Local Notation outcome := (visit_outcome io_fault print_fault outdir verbose overwrite).

(** A plain file that was just copied elsewhere still holds its bytes. *)
Lemma write_keeps_source (fs fs' : node) (p q : path) (data d : list byte) :
  observe fs p = OFile d -> p <> q -> write fs q data = Ok fs' ->
  observe fs' p = OFile d.
Proof.
  intros Hp Hpq Hw.
  destruct (write_observe _ _ _ _ Hw) as (_ & _ & Hsame & Hnew).
  rewrite <- Hp. apply Hsame; [exact Hpq|].
  destruct (observe fs q) eqn:Eq; [right | left; discriminate ..].
  intros n Hq. destruct (Hnew p n Hq eq_refl) as (ns & Hd & _). congruence.
Qed.

(** How [copyfile] can fail: before anything is written, or with the
    target holding the bytes that got through. *)
Lemma copyfile_raise (src dst : path) (fs fs' : node) (e : exn) :
  copyfile io_fault src dst fs = (Raise e, fs') ->
  fs' = fs \/
  exists data n,
    observe fs src = OFile data /\ src <> dst /\
    io_fault src dst = Broken n /\
    write fs dst (firstn n data) = Ok fs'.
Proof.
  unfold copyfile. destruct (path_eqb src dst) eqn:E.
  { intros [= _ <-]. now left. }
  apply path_eqb_neq in E.
  destruct (observe fs src) as [|data|ns]; try (intros [= _ <-]; now left).
  destruct (io_fault src dst) as [| |n] eqn:Eio.
  - destruct (write fs dst data); [discriminate|]. intros [= _ <-]. now left.
  - intros [= _ <-]. now left.
  - destruct (write fs dst (firstn n data)) as [fs1|e1] eqn:Ew.
    + intros [= _ <-]. right. exists data, n. auto.
    + intros [= _ <-]. now left.
Qed.

Lemma copyfile_ok (src dst : path) (fs fs' : node) (u : unit) :
  copyfile io_fault src dst fs = (Ok u, fs') ->
  exists data,
    observe fs src = OFile data /\ src <> dst /\
    io_fault src dst = NoFault /\ write fs dst data = Ok fs'.
Proof.
  unfold copyfile. destruct (path_eqb src dst) eqn:E; [discriminate|].
  apply path_eqb_neq in E.
  destruct (observe fs src) as [|data|ns]; try discriminate.
  destruct (io_fault src dst) as [| |n] eqn:Eio.
  - destruct (write fs dst data) as [fs1|e1] eqn:Ew; [|discriminate].
    intros H. inversion H. subst. exists data. auto.
  - discriminate.
  - destruct (write fs dst (firstn n data)); discriminate.
Qed.

Lemma visit_cases (p : path) (acc : Z * Z) (fs : node) :
  outcome p acc fs (visit' p acc fs).
Proof.
  unfold visit, bind, is_file.
  destruct (isfile fs p) eqn:Ef.
  2:{ simpl. now apply VisitOther. }
  unfold isfile in Ef. destruct (observe fs p) as [|data|] eqn:Ep; try discriminate.
  assert (Ef' : isfile fs p = true) by (unfold isfile; now rewrite Ep).
  destruct acc as [n_files n_bytes].
  unfold copy_file, bind, exists_.
  destruct (present fs (child outdir (name p)) && negb overwrite) eqn:Esk.
  { apply andb_prop in Esk. destruct Esk as [E1 E2]. rewrite E1.
    simpl. apply VisitSkip; auto. now destruct overwrite. }
  pose (pr := if verbose
              then [EvPrint (copying_line (child outdir (name p)))] else []).
  destruct (verbose &&
            match print_fault (copying_line (child outdir (name p))) with
            | Some _ => true | None => false end) eqn:Emute.
  { apply andb_prop in Emute. destruct Emute as [Ev Em].
    destruct (print_fault (copying_line (child outdir (name p))))
      as [e|] eqn:Epf; [|discriminate].
    generalize (VisitMute io_fault print_fault outdir verbose overwrite p
                  (n_files, n_bytes) fs data e Ep Esk Ev Epf).
    rewrite Ev. unfold print. rewrite Epf. simpl. auto. }
  assert (Hok : verbose = true ->
                print_fault (copying_line (child outdir (name p))) = None).
  { intros ->. simpl in Emute.
    destruct (print_fault (copying_line (child outdir (name p))));
      [discriminate | reflexivity]. }
  assert (Hpr : (if verbose
                 then print print_fault (copying_line (child outdir (name p)))
                 else ret tt) fs = (Ok tt, fs, pr)).
  { unfold pr, print. destruct verbose; [|reflexivity].
    now rewrite (Hok eq_refl). }
  rewrite Hpr. unfold shutil_copy.
  destruct (copyfile io_fault p (copy_target fs p (child outdir (name p))) fs)
    as [[u|e] fs'] eqn:Ec.
  - destruct (copyfile_ok _ _ _ _ _ Ec) as (data' & Hd & Epq & Eio & Hc).
    rewrite Ep in Hd. injection Hd as <-.
    assert (Hsrc := write_keeps_source _ _ _ _ _ _ Ep Epq Hc).
    unfold st_size. rewrite Hsrc. simpl.
    replace (pr ++ [EvCopy p (child outdir (name p))
                      (Ok (copy_target fs p (child outdir (name p))));
                    EvStat p (Z.of_nat (List.length data))])
      with (pr ++ [EvCopy p (child outdir (name p))
                      (Ok (copy_target fs p (child outdir (name p))))]
               ++ [EvStat p (Z.of_nat (List.length data))])
      by reflexivity.
    apply (VisitCopy io_fault print_fault outdir verbose overwrite p
             (n_files, n_bytes) fs data fs'); auto.
  - simpl. apply (VisitFail io_fault print_fault outdir verbose overwrite p
                    (n_files, n_bytes) fs data e fs'); auto.
Qed.

Lemma copy_target_shape (fs : node) (p : path) :
  target_shape outdir (copy_target fs p (child outdir (name p))).
Proof.
  exists (name p). unfold copy_target.
  destruct (isdir fs (child outdir (name p))); auto.
Qed.

Lemma visit_grows (p : path) (acc : Z * Z) (fs fs' : node)
    (r : result (Z * Z)) (tr : list event) :
  visit' p acc fs = (r, fs', tr) -> grows outdir fs fs'.
Proof.
  intros H. pose proof (visit_cases p acc fs) as Hc. rewrite H in Hc.
  inversion Hc; subst; try apply grows_refl.
  - match goal with
    | K : copyfile _ _ _ _ = (Raise _, _) |- _ =>
        apply copyfile_raise in K;
        destruct K as [->|(d & n & _ & _ & _ & K)]
    end; [apply grows_refl|].
    eapply write_grows; [eassumption | apply copy_target_shape].
  - eapply write_grows; [eassumption | apply copy_target_shape].
Qed.

Lemma visit_acc (p : path) (acc : Z * Z) (fs : node) :
  visit' p acc fs = shift acc (visit' p (0, 0) fs).
Proof.
  destruct acc as [a b].
  unfold visit, copy_file, bind, is_file, exists_, shutil_copy, st_size, ret,
    print, shift.
  destruct (isfile fs p); simpl; [|eq_counts].
  destruct (present fs (child outdir (name p)) && negb overwrite); simpl;
    [eq_counts|].
  destruct verbose; simpl;
    try destruct (print_fault (copying_line (child outdir (name p))));
    simpl; try reflexivity;
    destruct (copyfile io_fault p _ fs) as [[u|e'] fs1]; simpl;
    try reflexivity;
    destruct (observe fs1 p); simpl; try reflexivity; eq_counts.
Qed.

Lemma shift_shift (a b : Z * Z) (x : result (Z * Z) * node * list event) :
  shift a (shift b x) = shift (fst a + fst b, snd a + snd b) x.
Proof.
  destruct x as [[[s|e] fs] tr]; simpl; [|reflexivity].
  eq_counts.
Qed.

Lemma for_each_visit_acc (l : list path) (acc : Z * Z) (fs : node) :
  for_each l visit' acc fs = shift acc (for_each l visit' (0, 0) fs).
Proof.
  revert acc fs. induction l as [|p l IH]; intros acc fs; simpl.
  - unfold ret, shift. simpl. destruct acc. eq_counts.
  - unfold bind. rewrite (visit_acc p acc fs).
    destruct (visit' p (0, 0) fs) as [[[s|e] fs1] tr1]; simpl; [|reflexivity].
    rewrite (IH (fst acc + fst s, snd acc + snd s)), (IH s).
    destruct (for_each l visit' (0, 0) fs1) as [[[s2|e2] fs2] tr2]; simpl;
      [|reflexivity].
    eq_counts.
Qed.

Lemma for_each_visit_grows (l : list path) (acc : Z * Z) (fs fs' : node)
    (r : result (Z * Z)) (tr : list event) :
  for_each l visit' acc fs = (r, fs', tr) -> grows outdir fs fs'.
Proof.
  revert acc fs tr. induction l as [|p l IH]; intros acc fs tr; simpl.
  - intros [= _ <- _]. apply grows_refl.
  - intros H. apply bind_inv in H.
    destruct H as [(a & fs1 & tr1 & tr2 & H1 & H2 & _)|(e & H1 & _)].
    + eapply grows_trans; [eapply visit_grows; eauto | eapply IH; eauto].
    + eapply visit_grows; eauto.
Qed.

Lemma visit_file_events (p : path) (acc : Z * Z) (fs fs' : node)
    (r : result (Z * Z)) (tr : list event) :
  visit' p acc fs = (r, fs', tr) -> file_events tr = tr.
Proof.
  intros H. pose proof (visit_cases p acc fs) as Hc. rewrite H in Hc.
  inversion Hc; subst; try reflexivity; destruct verbose; reflexivity.
Qed.

Lemma file_events_app (a b : list event) :
  file_events (a ++ b) = file_events a ++ file_events b.
Proof. apply filter_app. Qed.

(** ** The traversal as a fold over its sources *)

Lemma flat_map_ext_in {A B} (f g : A -> list B) (l : list A) :
  (forall a, In a l -> f a = g a) -> flat_map f l = flat_map g l.
Proof.
  induction l as [|a l IH]; intros H; simpl; [reflexivity|].
  rewrite (H a) by (left; reflexivity).
  rewrite IH; [reflexivity|]. intros b Hb. apply H. now right.
Qed.

Lemma sources_grows (fs fs' : node) (levels : nat) (c : path) :
  grows outdir fs fs' -> (forall x, c <> child outdir x) ->
  sources fs' outdir levels c = sources fs outdir levels c.
Proof.
  intros Hg. revert c. induction levels as [|l IH]; intros c Hc; simpl.
  - reflexivity.
  - destruct (path_eqb c outdir) eqn:Eco; [reflexivity|].
    apply path_eqb_neq in Eco.
    destruct Hg as (K & F & N).
    pose proof (N c Eco Hc) as Hn. unfold names in Hn.
    destruct (observe fs c) as [|d|ns] eqn:Ec.
    + destruct (observe fs' c); try discriminate; reflexivity.
    + destruct (observe fs' c); try discriminate; reflexivity.
    + destruct (observe fs' c) as [|d'|ns'] eqn:Ec'; try discriminate.
      injection Hn as ->. apply flat_map_ext_in. intros n Hin.
      apply (names_present _ _ _ n Ec) in Hin.
      specialize (K (child c n)). specialize (F (child c n)).
      unfold isdir, isfile in K, F.
      destruct (observe fs (child c n)) as [|d|ms] eqn:En; [congruence | |].
      * destruct (observe fs' (child c n)); try reflexivity;
          discriminate (F eq_refl).
      * destruct (observe fs' (child c n)); try discriminate.
        apply IH. intros x Hx. apply child_inj in Hx. now destruct Hx.
Qed.

Lemma flatten_entry_dir (recurse : path -> M (Z * Z)) (p : path)
    (acc : Z * Z) (fs : node) :
  isdir fs p = true ->
  flatten_entry io_fault print_fault dir_size recurse outdir verbose overwrite p acc fs =
  match recurse p fs with
  | (Ok sub, fs1, tr1) =>
      (Ok (fst acc + fst sub, snd acc + snd sub), fs1, EvIsDir p true :: tr1)
  | (Raise e, fs1, tr1) => (Raise e, fs1, EvIsDir p true :: tr1)
  end.
Proof.
  intros Hd. unfold flatten_entry, bind, is_dir. rewrite Hd.
  destruct (recurse p fs) as [[[sub|e] fs1] tr1]; simpl; [|reflexivity].
  now rewrite app_nil_r.
Qed.

Lemma flatten_entry_file (recurse : path -> M (Z * Z)) (p : path)
    (acc : Z * Z) (fs : node) :
  isdir fs p = false ->
  flatten_entry io_fault print_fault dir_size recurse outdir verbose overwrite p acc fs =
  match visit' p acc fs with
  | (r, fs1, tr1) => (r, fs1, EvIsDir p false :: tr1)
  end.
Proof.
  intros Hd. unfold flatten_entry, bind, is_dir. rewrite Hd.
  destruct (visit' p acc fs) as [[r fs1] tr1]. reflexivity.
Qed.

Lemma sources_S (fs : node) (levels : nat) (d : path) :
  sources fs outdir (S levels) d =
  if path_eqb d outdir then []
  else match observe fs d with
       | ODir ns =>
           flat_map (fun n => entry_sources fs outdir levels (child d n)) ns
       | _ => []
       end.
Proof. reflexivity. Qed.

Lemma entry_sources_grows (fs fs' : node) (levels : nat) (d : path) (n : string) :
  grows outdir fs fs' -> d <> outdir ->
  observe fs (child d n) <> OAbsent ->
  entry_sources fs' outdir levels (child d n) =
  entry_sources fs outdir levels (child d n).
Proof.
  intros Hg Hd Hn. unfold entry_sources.
  pose proof Hg as (K & F & _).
  specialize (K (child d n)). specialize (F (child d n)).
  unfold isdir, isfile in K, F.
  destruct (observe fs (child d n)) as [|data|ms] eqn:En; [congruence | |].
  - destruct (observe fs' (child d n)); try reflexivity;
      discriminate (F eq_refl).
  - destruct (observe fs' (child d n)); try discriminate.
    apply sources_grows; [exact Hg|].
    intros x Hx. apply child_inj in Hx. now destruct Hx.
Qed.

Lemma loop_as_fold (l : nat) (indir : path) :
  indir <> outdir ->
  (forall c fs r fs' tr, isdir fs c = true ->
     flatten_dir_at io_fault print_fault dir_size l c outdir verbose overwrite fs
       = (r, fs', tr) ->
     for_each (sources fs outdir l c) visit' (0, 0) fs
       = (r, fs', file_events tr)) ->
  forall ns acc fs r fs' tr,
    (forall n, In n ns -> observe fs (child indir n) <> OAbsent) ->
    for_each (map (child indir) ns)
      (flatten_entry io_fault print_fault dir_size
         (fun p => flatten_dir_at io_fault print_fault dir_size l p outdir verbose overwrite)
         outdir verbose overwrite) acc fs = (r, fs', tr) ->
    for_each (flat_map (fun n => entry_sources fs outdir l (child indir n)) ns)
      visit' acc fs = (r, fs', file_events tr).
Proof.
  intros Hne IH ns.
  induction ns as [|n ns IHns]; intros acc fs r fs' tr Hpres H.
  - simpl in *. unfold ret in *. injection H as <- <- <-. reflexivity.
  - simpl in H. simpl flat_map. rewrite for_each_app.
    assert (Hn : observe fs (child indir n) <> OAbsent)
      by (apply Hpres; now left).
    assert (Hrest : forall fs1, grows outdir fs fs1 ->
              (forall m, In m ns -> observe fs1 (child indir m) <> OAbsent) /\
              flat_map (fun m => entry_sources fs outdir l (child indir m)) ns =
              flat_map (fun m => entry_sources fs1 outdir l (child indir m)) ns).
    { intros fs1 Hg. split.
      - intros m Hm. eapply grows_present; [exact Hg|]. apply Hpres. now right.
      - apply flat_map_ext_in. intros m Hm. symmetry.
        apply entry_sources_grows; auto. apply Hpres. now right. }
    unfold bind. apply bind_inv in H.
    destruct (isdir fs (child indir n)) eqn:Ed.
    + assert (Hes : entry_sources fs outdir l (child indir n) =
                    sources fs outdir l (child indir n)).
      { unfold entry_sources. unfold isdir in Ed.
        destruct (observe fs (child indir n)); try discriminate; reflexivity. }
      rewrite Hes, for_each_visit_acc.
      destruct H as [(a & fs1 & tr1 & tr2 & H1 & H2 & ->)|(e & H1 & ->)];
        rewrite flatten_entry_dir in H1 by exact Ed;
        destruct (flatten_dir_at io_fault print_fault dir_size l (child indir n) outdir
                    verbose overwrite fs) as [[[sub|e'] fs1'] tr1'] eqn:Er;
        try discriminate; injection H1 as <- <- <-;
        rewrite (IH _ _ _ _ _ Ed Er); simpl.
      * pose proof (for_each_visit_grows _ _ _ _ _ _ (IH _ _ _ _ _ Ed Er)) as Hg.
        destruct (Hrest _ Hg) as [Hp1 Heq]. rewrite Heq.
        rewrite (IHns _ _ _ _ _ Hp1 H2).
        now rewrite file_events_app.
      * reflexivity.
    + assert (Hes : entry_sources fs outdir l (child indir n) = [child indir n]).
      { unfold entry_sources. unfold isdir in Ed.
        destruct (observe fs (child indir n)); try discriminate;
          [congruence | reflexivity]. }
      rewrite Hes. simpl for_each. unfold bind.
      destruct H as [(a & fs1 & tr1 & tr2 & H1 & H2 & ->)|(e & H1 & ->)];
        rewrite flatten_entry_file in H1 by exact Ed;
        destruct (visit' (child indir n) acc fs) as [[r1 fs1'] tr1'] eqn:Ev;
        injection H1 as -> <- <-; simpl.
      * pose proof (visit_grows _ _ _ _ _ _ Ev) as Hg.
        destruct (Hrest _ Hg) as [Hp1 Heq]. rewrite Heq.
        rewrite (IHns _ _ _ _ _ Hp1 H2).
        rewrite app_nil_r, file_events_app.
        now rewrite (visit_file_events _ _ _ _ _ _ Ev).
      * now rewrite (visit_file_events _ _ _ _ _ _ Ev).
Qed.

(** The traversal does to the filesystem, returns and (listing and
    directory tests aside) calls what visiting its sources one after the
    other does. *)
Lemma flatten_at_as_fold (levels : nat) (indir : path) (fs fs' : node)
    (r : result (Z * Z)) (tr : list event) :
  levels = O \/ indir = outdir \/ isdir fs indir = true ->
  flatten_dir_at io_fault print_fault dir_size levels indir outdir verbose overwrite fs
    = (r, fs', tr) ->
  for_each (sources fs outdir levels indir) visit' (0, 0) fs
    = (r, fs', file_events tr).
Proof.
  revert indir fs fs' r tr.
  induction levels as [|l IH]; intros indir fs fs' r tr Hpre H.
  - simpl in *. unfold ret in *. injection H as <- <- <-. reflexivity.
  - rewrite sources_S. simpl in H.
    destruct (path_eqb indir outdir) eqn:Eio.
    + unfold ret in *. injection H as <- <- <-. reflexivity.
    + apply path_eqb_neq in Eio.
      destruct Hpre as [Hpre|[Hpre|Hpre]]; [discriminate | congruence |].
      unfold isdir in Hpre.
      destruct (observe fs indir) as [|d|ns] eqn:Eobs; try discriminate.
      unfold bind, iterdir in H. rewrite Eobs in H.
      destruct (for_each (map (child indir) ns) _ (0, 0) fs)
        as [[r1 fs1] tr1] eqn:El.
      injection H as <- <- <-.
      apply (loop_as_fold l indir Eio) in El.
      * exact El.
      * intros c fs0 r0 fs0' tr0 Hd Hr. apply IH; auto.
      * intros n Hn. now apply (names_present _ _ _ n Eobs).
Qed.

End Entry.

(** ** Sums *)

Lemma sumZ_map_nonneg {A} (f : A -> Z) (l : list A) :
  (forall x, In x l -> 0 <= f x) -> 0 <= sumZ (map f l).
Proof.
  induction l as [|x l IH]; intros H; simpl; [lia|].
  assert (0 <= f x) by (apply H; now left).
  assert (0 <= sumZ (map f l)) by (apply IH; intros y Hy; apply H; now right).
  lia.
Qed.

Lemma file_size_nonneg (fs : node) (p : path) : 0 <= file_size fs p.
Proof. unfold file_size. destruct (observe fs p); lia. Qed.

(** ** Visiting a list of sources *)

Section Fold.

Variable io_fault : path -> path -> fault.
Variable print_fault : string -> option exn.
Variable dir_size : Z.
Variable outdir : path.
Variables verbose overwrite : bool.

Local Notation visit' := (visit io_fault print_fault dir_size outdir verbose overwrite).
Local Notation outcome := (visit_outcome io_fault print_fault outdir verbose overwrite).

(** Induction over a run of the loop, one visit at a time. *)
Lemma for_each_visit_ind
    (P : list path -> Z * Z -> node ->
         result (Z * Z) -> node -> list event -> Prop) :
  (forall acc fs, P [] acc fs (Ok acc) fs []) ->
  (forall p l acc fs e fs1 tr1,
      visit' p acc fs = (Raise e, fs1, tr1) ->
      P (p :: l) acc fs (Raise e) fs1 tr1) ->
  (forall p l acc fs a fs1 tr1 r fs' tr2,
      visit' p acc fs = (Ok a, fs1, tr1) ->
      for_each l visit' a fs1 = (r, fs', tr2) ->
      P l a fs1 r fs' tr2 ->
      P (p :: l) acc fs r fs' (tr1 ++ tr2)) ->
  forall l acc fs r fs' tr,
    for_each l visit' acc fs = (r, fs', tr) -> P l acc fs r fs' tr.
Proof.
  intros Hnil Hraise Hok l.
  induction l as [|p l IH]; intros acc fs r fs' tr H.
  - simpl in H. unfold ret in H. injection H as <- <- <-. apply Hnil.
  - simpl in H. apply bind_inv in H.
    destruct H as [(a & fs1 & tr1 & tr2 & H1 & H2 & ->)|(e & H1 & ->)].
    + eapply Hok; eauto.
    + now apply Hraise.
Qed.

Lemma visited_app (a b : list event) : visited (a ++ b) = visited a ++ visited b.
Proof. apply flat_map_app. Qed.

Lemma copied_app (a b : list event) : copied (a ++ b) = copied a ++ copied b.
Proof. apply flat_map_app. Qed.

Lemma copy_calls_app (a b : list event) :
  copy_calls (a ++ b) = copy_calls a ++ copy_calls b.
Proof. apply flat_map_app. Qed.

Lemma printed_app (a b : list event) : printed (a ++ b) = printed a ++ printed b.
Proof. apply flat_map_app. Qed.

Lemma stat_sizes_app (a b : list event) :
  stat_sizes (a ++ b) = stat_sizes a ++ stat_sizes b.
Proof. apply flat_map_app. Qed.

Lemma sumZ_app (a b : list Z) : sumZ (a ++ b) = sumZ a + sumZ b.
Proof.
  induction a as [|x a IH]; simpl; [reflexivity|]. rewrite IH. lia.
Qed.

Ltac fold_induction :=
  match goal with
  | |- forall l acc fs r fs' tr,
        for_each l _ acc fs = (r, fs', tr) -> @?P l acc fs r fs' tr =>
      apply (for_each_visit_ind P)
  end.

(** [visit_cases], by cases on an equation. *)
Lemma visit_inv (p : path) (acc : Z * Z) (fs fs' : node)
    (r : result (Z * Z)) (tr : list event) :
  visit' p acc fs = (r, fs', tr) ->
  let outfile := child outdir (name p) in
  let dst' := copy_target fs p outfile in
  let pr := if verbose then [EvPrint (copying_line outfile)] else [] in
  (isfile fs p = false /\ r = Ok acc /\ fs' = fs /\ tr = [EvIsFile p false]) \/
  (isfile fs p = true /\ present fs outfile = true /\ overwrite = false /\
   r = Ok acc /\ fs' = fs /\ tr = [EvIsFile p true; EvExists outfile true]) \/
  (exists data e,
     observe fs p = OFile data /\
     present fs outfile && negb overwrite = false /\
     verbose = true /\ print_fault (copying_line outfile) = Some e /\
     r = Raise e /\ fs' = fs /\
     tr = [EvIsFile p true; EvExists outfile (present fs outfile)]) \/
  (exists data e,
     observe fs p = OFile data /\
     present fs outfile && negb overwrite = false /\
     (verbose = true -> print_fault (copying_line outfile) = None) /\
     copyfile io_fault p dst' fs = (Raise e, fs') /\
     r = Raise e /\
     tr = [EvIsFile p true; EvExists outfile (present fs outfile)]
          ++ pr ++ [EvCopy p outfile (Raise e)]) \/
  (exists data,
     observe fs p = OFile data /\
     present fs outfile && negb overwrite = false /\
     (verbose = true -> print_fault (copying_line outfile) = None) /\
     p <> dst' /\ io_fault p dst' = NoFault /\
     write fs dst' data = Ok fs' /\ observe fs' p = OFile data /\
     r = Ok (fst acc + 1, snd acc + Z.of_nat (List.length data)) /\
     tr = [EvIsFile p true; EvExists outfile (present fs outfile)]
          ++ pr ++ [EvCopy p outfile (Ok dst');
                    EvStat p (Z.of_nat (List.length data))]).
Proof.
  intros H. pose proof (visit_cases io_fault print_fault dir_size outdir
                          verbose overwrite p acc fs) as Hc.
  rewrite H in Hc. inversion Hc; subst; clear Hc.
  - left. auto.
  - right; left. auto 10.
  - right; right; left. eauto 12.
  - right; right; right; left. eauto 12.
  - right; right; right; right. eauto 14.
Qed.

(** What a copy that fails leaves: the filesystem as it was, or the target
    written with the first bytes of the source. *)
Lemma visit_fail_state (p : path) (fs fs' : node) (e : exn) :
  copyfile io_fault p (copy_target fs p (child outdir (name p))) fs
    = (Raise e, fs') ->
  fs' = fs \/
  exists data n,
    observe fs p = OFile data /\
    p <> copy_target fs p (child outdir (name p)) /\
    io_fault p (copy_target fs p (child outdir (name p))) = Broken n /\
    write fs (copy_target fs p (child outdir (name p))) (firstn n data)
      = Ok fs'.
Proof. apply copyfile_raise. Qed.

Lemma isfile_observe (fs : node) (p : path) (data : list byte) :
  observe fs p = OFile data -> isfile fs p = true.
Proof. unfold isfile. now intros ->. Qed.

Lemma write_observe_cases (fs fs' : node) (q : path) (data : list byte) :
  write fs q data = Ok fs' ->
  forall p, p <> q ->
    observe fs' p = observe fs p \/
    exists ns n, q = child p n /\ observe fs q = OAbsent /\
                 observe fs p = ODir ns /\ observe fs' p = ODir (ns ++ [n]).
Proof.
  intros Hw p Hp.
  destruct (write_observe _ _ _ _ Hw) as (_ & _ & Hsame & Hnew).
  destruct (observe fs q) eqn:Eq.
  - destruct (path_snoc q) as [->|(p0 & n & ->)].
    + now apply observe_root_present in Eq.
    + destruct (path_eq_dec p p0) as [->|Hpp].
      * right. destruct (Hnew p0 n eq_refl eq_refl) as (ns & H1 & H2).
        exists ns, n. auto.
      * left. apply Hsame; [exact Hp|]. right. intros k Hk.
        apply child_inj in Hk. destruct Hk. congruence.
  - left. apply Hsame; [exact Hp | left; discriminate].
  - left. apply Hsame; [exact Hp | left; discriminate].
Qed.

Lemma write_read_other (fs fs' : node) (q p : path) (data : list byte) :
  write fs q data = Ok fs' -> p <> q -> read fs' p = read fs p.
Proof.
  intros Hw Hp. unfold read.
  destruct (write_observe_cases _ _ _ _ Hw p Hp)
    as [->|(ns & n & _ & _ & -> & ->)]; reflexivity.
Qed.

Lemma write_present_other (fs fs' : node) (q p : path) (data : list byte) :
  write fs q data = Ok fs' -> p <> q -> present fs' p = present fs p.
Proof.
  intros Hw Hp. unfold present.
  destruct (write_observe_cases _ _ _ _ Hw p Hp)
    as [->|(ns & n & _ & _ & -> & ->)]; reflexivity.
Qed.

(** What one visit leaves in the record, however it ends. *)
Lemma visit_trace (p : path) (acc : Z * Z) (fs fs' : node)
    (r : result (Z * Z)) (tr : list event) :
  visit' p acc fs = (r, fs', tr) ->
  visited tr = (if isfile fs p then [p] else []) /\
  printed tr =
    map (fun c => copying_line (snd c))
        (if verbose then copy_calls tr else []) /\
  (forall c, In c (copy_calls tr) ->
     c = (p, child outdir (name p)) /\ isfile fs p = true) /\
  stat_sizes tr = map (fun c => file_size fs (fst c)) (copied tr) /\
  (forall c, In c (copied tr) ->
     c = (p, copy_target fs p (child outdir (name p))) /\
     fst c <> snd c /\ isfile fs p = true /\
     (present fs (child outdir (name p)) = true -> overwrite = true) /\
     read fs' (snd c) = read fs p) /\
  (forall q, read fs' q <> read fs q \/ present fs' q <> present fs q ->
     q = copy_target fs p (child outdir (name p)) /\
     p <> q /\
     (In (p, q) (copied tr) \/ In (p, child outdir (name p)) (failed tr))).
Proof.
  intros H. apply visit_inv in H. cbv zeta in H.
  destruct H as [(Hf & -> & -> & ->)
                |[(Hf & Hp & Ho & -> & -> & ->)
                 |[(data & e & Hobs & Hsk & Hv & Hpf & -> & -> & ->)
                  |[(data & e & Hobs & Hsk & Hpo & Hcf & -> & ->)
                   |(data & Hobs & Hsk & Hpo & Hne & Hio & Hw & Hsrc
                     & -> & ->)]]]].
  - rewrite Hf. simpl. refine (conj eq_refl (conj _ (conj _ _))).
    + now destruct verbose.
    + intros c [].
    + repeat split; try tauto; try (intros q [Hq|Hq]; congruence).
  - rewrite Hf. simpl. refine (conj eq_refl (conj _ (conj _ _))).
    + now destruct verbose.
    + intros c [].
    + repeat split; try tauto; try (intros q [Hq|Hq]; congruence).
  - rewrite (isfile_observe _ _ _ Hobs). simpl.
    refine (conj eq_refl (conj _ (conj _ (conj eq_refl (conj _ _))))).
    + now destruct verbose.
    + intros c [].
    + intros c [].
    + intros q [Hq|Hq]; congruence.
  - rewrite (isfile_observe _ _ _ Hobs).
    refine (conj _ (conj _ (conj _ (conj _ (conj _ _))))).
    + now destruct verbose.
    + now destruct verbose.
    + destruct verbose; simpl; intros c [<-|[]]; auto.
    + now destruct verbose.
    + destruct verbose; simpl; intros c [].
    + intros q Hq.
      apply visit_fail_state in Hcf.
      destruct Hcf as [->|(d & n & _ & Hne & _ & Hw)];
        [destruct Hq; congruence|].
      assert (Eq : q = copy_target fs p (child outdir (name p))).
      { destruct (path_eq_dec q (copy_target fs p (child outdir (name p))))
          as [E|E]; [exact E | exfalso].
        destruct Hq as [Hq|Hq]; apply Hq.
        - eapply write_read_other; eauto.
        - eapply write_present_other; eauto. }
      split; [exact Eq|]. split; [congruence|]. right.
      unfold failed. apply in_flat_map.
      exists (EvCopy p (child outdir (name p)) (Raise e)).
      split; [|now left].
      apply in_or_app. right. apply in_or_app. right. now left.
  - rewrite (isfile_observe _ _ _ Hobs).
    destruct (write_observe _ _ _ _ Hw) as (Hq & _).
    assert (Hrd : read fs' (copy_target fs p (child outdir (name p)))
                  = read fs p).
    { unfold read. now rewrite Hq, Hobs. }
    assert (Hcp : copied ([EvIsFile p true;
                           EvExists (child outdir (name p))
                             (present fs (child outdir (name p)))]
                          ++ (if verbose
                              then [EvPrint (copying_line
                                               (child outdir (name p)))]
                              else [])
                          ++ [EvCopy p (child outdir (name p))
                                (Ok (copy_target fs p
                                       (child outdir (name p))));
                              EvStat p (Z.of_nat (List.length data))])
                  = [(p, copy_target fs p (child outdir (name p)))])
      by (now destruct verbose).
    rewrite Hcp.
    refine (conj _ (conj _ (conj _ (conj _ (conj _ _))))).
    + now destruct verbose.
    + now destruct verbose.
    + destruct verbose; simpl; intros c [<-|[]]; auto.
    + destruct verbose; simpl; unfold file_size; now rewrite Hobs.
    + intros c [<-|[]]. simpl. repeat split; auto.
      intros Hpr. rewrite Hpr in Hsk. now destruct overwrite.
    + intros q Hq'.
      assert (Eq : q = copy_target fs p (child outdir (name p))).
      { destruct (path_eq_dec q (copy_target fs p (child outdir (name p))))
          as [E|E]; [exact E | exfalso].
        destruct Hq' as [Hq'|Hq']; apply Hq'.
        - eapply write_read_other; eauto.
        - eapply write_present_other; eauto. }
      split; [exact Eq|]. split; [congruence|]. left. left. now f_equal.
Qed.

(** What a visit that returns leaves in the record. *)
Lemma visit_trace_ok (p : path) (acc a : Z * Z) (fs fs' : node)
    (tr : list event) :
  visit' p acc fs = (Ok a, fs', tr) ->
  copy_calls tr =
    map (fun c => (fst c, child outdir (name (fst c)))) (copied tr) /\
  fst a = fst acc + Z.of_nat (List.length (copied tr)) /\
  snd a = snd acc + sumZ (stat_sizes tr) /\
  (copied tr = [] ->
   isfile fs p = true -> present fs (child outdir (name p)) = true).
Proof.
  intros H. apply visit_inv in H. cbv zeta in H.
  destruct H as [(Hf & Hr & -> & ->)
                |[(Hf & Hp & Ho & Hr & -> & ->)
                 |[(data & e & Hobs & Hsk & Hv & Hpf & Hr & _)
                  |[(data & e & Hobs & Hsk & Hpo & Hcf & Hr & ->)
                   |(data & Hobs & Hsk & Hpo & Hne & Hio & Hw & Hsrc
                     & Hr & ->)]]]];
    try discriminate; injection Hr as Hr; subst a; simpl.
  - repeat split; try lia. congruence.
  - repeat split; try lia. auto.
  - destruct verbose; simpl; repeat split; try lia; discriminate.
Qed.

Lemma clobbered_grows (fs fs' : node) (q : path) :
  grows outdir fs fs' -> (clobbered outdir fs' q <-> clobbered outdir fs q).
Proof.
  intros (K & _). unfold clobbered.
  split; intros [x Hx]; exists x; [rewrite <- K | rewrite K]; exact Hx.
Qed.

Lemma copy_target_clobbered (fs : node) (p : path) :
  clobbered outdir fs (copy_target fs p (child outdir (name p))).
Proof.
  exists (name p). unfold copy_target.
  destruct (isdir fs (child outdir (name p))) eqn:E; auto.
Qed.

(** A file that is copied is not one that a copy may overwrite: it would be
    copied onto itself. *)
Lemma copy_source_not_clobbered (fs : node) (p : path) :
  p <> copy_target fs p (child outdir (name p)) ->
  (forall x, p <> child outdir x) ->
  ~ clobbered outdir fs p.
Proof.
  intros Hne Hout [x [Hx|[Hx Hd]]].
  - now apply (Hout x).
  - apply Hne. subst p. unfold copy_target.
    rewrite !name_child, Hd. reflexivity.
Qed.

Lemma keeps_refl (fs : node) : keeps outdir fs fs.
Proof. intros p _. reflexivity. Qed.

Lemma keeps_trans (a b c : node) :
  grows outdir a b -> keeps outdir a b -> keeps outdir b c -> keeps outdir a c.
Proof.
  intros Hg H1 H2 p Hp. rewrite H2, H1; auto.
  now rewrite (clobbered_grows _ _ p Hg).
Qed.

Lemma visit_keeps (p : path) (acc : Z * Z) (fs fs' : node)
    (r : result (Z * Z)) (tr : list event) :
  visit' p acc fs = (r, fs', tr) -> keeps outdir fs fs'.
Proof.
  intros H. apply visit_inv in H. cbv zeta in H.
  destruct H as [(Hf & -> & -> & ->)
                |[(Hf & Hp & Ho & -> & -> & ->)
                 |[(data & e & Hobs & Hsk & Hv & Hpf & -> & -> & ->)
                  |[(data & e & Hobs & Hsk & Hpo & Hcf & -> & ->)
                   |(data & Hobs & Hsk & Hpo & Hne & Hio & Hw & Hsrc
                     & -> & ->)]]]];
    try apply keeps_refl.
  - apply visit_fail_state in Hcf.
    destruct Hcf as [->|(d & n & _ & _ & _ & Hw)]; [apply keeps_refl|].
    intros q Hq. eapply write_read_other; [exact Hw|].
    intros ->. apply Hq. apply copy_target_clobbered.
  - intros q Hq. eapply write_read_other; [exact Hw|].
    intros ->. apply Hq. apply copy_target_clobbered.
Qed.

Lemma for_each_visit_keeps (l : list path) (acc : Z * Z) (fs fs' : node)
    (r : result (Z * Z)) (tr : list event) :
  for_each l visit' acc fs = (r, fs', tr) -> keeps outdir fs fs'.
Proof.
  revert l acc fs r fs' tr. apply for_each_visit_ind.
  - intros. apply keeps_refl.
  - intros. eapply visit_keeps; eauto.
  - intros p l acc fs a fs1 tr1 r fs' tr2 H1 H2 IH.
    eapply keeps_trans; [eapply visit_grows | eapply visit_keeps | ]; eauto.
Qed.

Lemma grows_isfile (fs fs' : node) (l : list path) :
  grows outdir fs fs' ->
  (forall p, In p l -> isfile fs p = true) ->
  (forall p, In p l -> isfile fs' p = true).
Proof. intros (_ & F & _) H p Hp. auto. Qed.

(** The files visited are the sources, in order, up to the one whose copy
    fails if any. *)
Lemma fold_visited (l : list path) (acc : Z * Z) (fs fs' : node)
    (r : result (Z * Z)) (tr : list event) :
  for_each l visit' acc fs = (r, fs', tr) ->
  (forall p, In p l -> isfile fs p = true) ->
  exists rest, l = visited tr ++ rest /\ (forall a, r = Ok a -> rest = []).
Proof.
  revert l acc fs r fs' tr. fold_induction.
  - intros acc fs _. exists []. auto.
  - intros p l acc fs e fs1 tr1 H Hf.
    apply visit_trace in H. destruct H as (Hv & _).
    rewrite Hf in Hv by (now left). exists l. rewrite Hv.
    split; [reflexivity | discriminate].
  - intros p l acc fs a fs1 tr1 r fs' tr2 H1 H2 IH Hf.
    pose proof (visit_grows _ _ _ _ _ _ _ _ _ _ _ _ H1) as Hg.
    apply visit_trace in H1. destruct H1 as (Hv & _).
    rewrite Hf in Hv by (now left).
    destruct IH as (rest & Hl & Hr).
    { eapply grows_isfile; [exact Hg|]. intros q Hq. apply Hf. now right. }
    exists rest. rewrite visited_app, Hv. simpl. split; [now f_equal | exact Hr].
Qed.

(** With [verbose], one line per call of [shutil.copy], naming its
    [outfile]; without, none. *)
Lemma fold_prints (l : list path) (acc : Z * Z) (fs fs' : node)
    (r : result (Z * Z)) (tr : list event) :
  for_each l visit' acc fs = (r, fs', tr) ->
  printed tr =
    map (fun c => copying_line (snd c)) (if verbose then copy_calls tr else []).
Proof.
  revert l acc fs r fs' tr. fold_induction.
  - intros. now destruct verbose.
  - intros p l acc fs e fs1 tr1 H.
    apply visit_trace in H. tauto.
  - intros p l acc fs a fs1 tr1 r fs' tr2 H1 H2 IH.
    apply visit_trace in H1. destruct H1 as (_ & Hp & _).
    rewrite printed_app, Hp, IH.
    destruct verbose; [|reflexivity].
    now rewrite copy_calls_app, map_app.
Qed.

Lemma fold_copy_calls (l : list path) (acc : Z * Z) (fs fs' : node)
    (r : result (Z * Z)) (tr : list event) :
  for_each l visit' acc fs = (r, fs', tr) ->
  forall c, In c (copy_calls tr) ->
    In (fst c) l /\ snd c = child outdir (name (fst c)).
Proof.
  revert l acc fs r fs' tr. fold_induction.
  - intros acc fs c [].
  - intros p l acc fs e fs1 tr1 H c Hc.
    apply visit_trace in H. destruct H as (_ & _ & Hcc & _).
    destruct (Hcc c Hc) as [-> _]. simpl. auto.
  - intros p l acc fs a fs1 tr1 r fs' tr2 H1 H2 IH c Hc.
    rewrite copy_calls_app in Hc. apply in_app_or in Hc.
    destruct Hc as [Hc|Hc].
    + apply visit_trace in H1. destruct H1 as (_ & _ & Hcc & _).
      destruct (Hcc c Hc) as [-> _]. simpl. auto.
    + destruct (IH c Hc). split; [now right | assumption].
Qed.

(** The counts returned are the counts given, plus one per copy completed
    and the sizes that [stat] reported. *)
Lemma fold_counts (l : list path) (acc : Z * Z) (fs fs' : node)
    (r : result (Z * Z)) (tr : list event) :
  for_each l visit' acc fs = (r, fs', tr) ->
  forall a, r = Ok a ->
    fst a = fst acc + Z.of_nat (List.length (copied tr)) /\
    snd a = snd acc + sumZ (stat_sizes tr) /\
    copy_calls tr =
      map (fun c => (fst c, child outdir (name (fst c)))) (copied tr).
Proof.
  revert l acc fs r fs' tr. fold_induction.
  - intros acc fs a [= <-]. simpl. repeat split; lia.
  - intros p l acc fs e fs1 tr1 H a Ha. discriminate.
  - intros p l acc fs a fs1 tr1 r fs' tr2 H1 H2 IH b Hb.
    apply visit_trace_ok in H1. destruct H1 as (Hcc & Hn & Hb' & _).
    destruct (IH b Hb) as (IH1 & IH2 & IH3).
    rewrite copied_app, stat_sizes_app, copy_calls_app, length_app, sumZ_app,
      map_app, Hcc, IH3.
    repeat split; lia.
Qed.

(** Every copy completed reads a source that no copy may overwrite and
    writes a path that a copy may overwrite. *)
Lemma fold_copied (l : list path) (acc : Z * Z) (fs fs' : node)
    (r : result (Z * Z)) (tr : list event) :
  for_each l visit' acc fs = (r, fs', tr) ->
  (forall p, In p l -> forall x, p <> child outdir x) ->
  forall c, In c (copied tr) ->
    In (fst c) l /\ fst c <> snd c /\
    ~ clobbered outdir fs (fst c) /\ clobbered outdir fs (snd c).
Proof.
  revert l acc fs r fs' tr. fold_induction.
  - intros acc fs _ c [].
  - intros p l acc fs e fs1 tr1 H Hout c Hc.
    apply visit_trace in H. destruct H as (_ & _ & _ & _ & Hcp & _).
    destruct (Hcp c Hc) as (-> & Hne & _). simpl in *.
    repeat split; auto.
    + apply copy_source_not_clobbered; auto.
    + apply copy_target_clobbered.
  - intros p l acc fs a fs1 tr1 r fs' tr2 H1 H2 IH Hout c Hc.
    pose proof (visit_grows _ _ _ _ _ _ _ _ _ _ _ _ H1) as Hg.
    rewrite copied_app in Hc. apply in_app_or in Hc. destruct Hc as [Hc|Hc].
    + apply visit_trace in H1. destruct H1 as (_ & _ & _ & _ & Hcp & _).
      destruct (Hcp c Hc) as (-> & Hne & _). simpl in *.
      repeat split; auto.
      * apply copy_source_not_clobbered; auto.
      * apply copy_target_clobbered.
    + destruct (IH (fun q Hq => Hout q (or_intror Hq)) c Hc)
        as (Hin & Hne & Hnc & Hcl).
      refine (conj (or_intror Hin) (conj Hne (conj _ _))).
      * now rewrite <- (clobbered_grows _ _ _ Hg).
      * now rewrite <- (clobbered_grows _ _ _ Hg).
Qed.

(** The sizes [stat] reported are the sizes the copied sources had when the
    loop began. *)
Lemma fold_sizes (l : list path) (acc : Z * Z) (fs fs' : node)
    (r : result (Z * Z)) (tr : list event) :
  for_each l visit' acc fs = (r, fs', tr) ->
  (forall p, In p l -> forall x, p <> child outdir x) ->
  stat_sizes tr = map (fun c => file_size fs (fst c)) (copied tr).
Proof.
  revert l acc fs r fs' tr. fold_induction.
  - reflexivity.
  - intros p l acc fs e fs1 tr1 H Hout.
    apply visit_trace in H. destruct H as (_ & _ & _ & Hs & _). exact Hs.
  - intros p l acc fs a fs1 tr1 r fs' tr2 H1 H2 IH Hout.
    pose proof (visit_grows _ _ _ _ _ _ _ _ _ _ _ _ H1) as Hg.
    pose proof (visit_keeps _ _ _ _ _ _ H1) as Hk.
    pose proof (fold_copied _ _ _ _ _ _ H2
                  (fun q Hq => Hout q (or_intror Hq))) as Hcp.
    apply visit_trace in H1. destruct H1 as (_ & _ & _ & Hs & _).
    rewrite stat_sizes_app, copied_app, map_app, Hs, IH
      by (intros q Hq; apply Hout; now right).
    f_equal. apply map_ext_in. intros c Hc.
    destruct (Hcp c Hc) as (_ & _ & Hnc & _).
    rewrite (clobbered_grows _ _ _ Hg) in Hnc.
    unfold file_size. specialize (Hk _ Hnc). unfold read in Hk.
    destruct (observe fs1 (fst c)), (observe fs (fst c));
      try discriminate; try reflexivity.
    now injection Hk as ->.
Qed.

(** Whatever changed was written by a copy that completed. *)
Lemma failed_app (a b : list event) : failed (a ++ b) = failed a ++ failed b.
Proof. apply flat_map_app. Qed.

Lemma copy_target_grows (fs fs' : node) (src dst : path) :
  grows outdir fs fs' -> copy_target fs' src dst = copy_target fs src dst.
Proof. intros (K & _). unfold copy_target. now rewrite K. Qed.

(** Whatever changed was written by a copy: one that completed, or the one
    that failed. *)
Lemma fold_changed (l : list path) (acc : Z * Z) (fs fs' : node)
    (r : result (Z * Z)) (tr : list event) :
  for_each l visit' acc fs = (r, fs', tr) ->
  forall q, read fs' q <> read fs q \/ present fs' q <> present fs q ->
    exists src,
      q = copy_target fs src (child outdir (name src)) /\
      (In (src, q) (copied tr) \/
       In (src, child outdir (name src)) (failed tr)).
Proof.
  revert l acc fs r fs' tr. fold_induction.
  - intros acc fs q [H|H]; congruence.
  - intros p l acc fs e fs1 tr1 H q Hq.
    apply visit_trace in H. destruct H as (_ & _ & _ & _ & _ & Hr).
    exists p. destruct (Hr q Hq) as (E & _ & K). auto.
  - intros p l acc fs a fs1 tr1 r fs' tr2 H1 H2 IH q Hq.
    pose proof (visit_grows _ _ _ _ _ _ _ _ _ _ _ _ H1) as Hg.
    apply visit_trace in H1. destruct H1 as (_ & _ & _ & _ & _ & Hr).
    rewrite copied_app, failed_app.
    assert (Hdec : (read fs1 q = read fs q /\ present fs1 q = present fs q) \/
                   (read fs1 q <> read fs q \/ present fs1 q <> present fs q)).
    { destruct (read_eq_dec (read fs1 q) (read fs q)); [|auto].
      destruct (bool_dec (present fs1 q) (present fs q)); auto. }
    destruct Hdec as [[E1 E2]|Hd].
    + rewrite <- E1, <- E2 in Hq. destruct (IH q Hq) as (src & E & K).
      exists src. rewrite (copy_target_grows _ _ _ _ Hg) in E.
      split; [exact E|].
      destruct K as [K|K]; [left | right]; apply in_or_app; now right.
    + exists p. destruct (Hr q Hd) as (E & _ & K).
      split; [exact E|].
      destruct K as [K|K]; [left | right]; apply in_or_app; now left.
Qed.

(** A plain file that is visited is copied, unless its target exists and
    [overwrite] is off. *)
Lemma visit_copied_or_kept (p : path) (acc a : Z * Z) (fs fs' : node)
    (tr : list event) :
  visit' p acc fs = (Ok a, fs', tr) -> isfile fs p = true ->
  In p (map fst (copied tr)) \/
  (overwrite = false /\ In (EvExists (child outdir (name p)) true) tr).
Proof.
  intros H Hfile. apply visit_inv in H. cbv zeta in H.
  destruct H as [(Hf & Hr & -> & ->)
                |[(Hf & Hp & Ho & Hr & -> & ->)
                 |[(data & e & Hobs & Hsk & Hv & Hpf & Hr & _)
                  |[(data & e & Hobs & Hsk & Hpo & Hcf & Hr & ->)
                   |(data & Hobs & Hsk & Hpo & Hne & Hio & Hw & Hsrc
                     & Hr & ->)]]]];
    try congruence.
  - right. split; [exact Ho | simpl; auto].
  - left. destruct verbose; simpl; auto.
Qed.

Lemma fold_copied_or_kept (l : list path) (acc : Z * Z) (fs fs' : node)
    (r : result (Z * Z)) (tr : list event) :
  for_each l visit' acc fs = (r, fs', tr) ->
  forall a, r = Ok a ->
  (forall p, In p l -> isfile fs p = true) ->
  forall p, In p l ->
    In p (map fst (copied tr)) \/
    (overwrite = false /\ In (EvExists (child outdir (name p)) true) tr).
Proof.
  revert l acc fs r fs' tr. fold_induction.
  - intros acc fs a _ _ p [].
  - intros p l acc fs e fs1 tr1 H a Ha. discriminate.
  - intros p l acc fs a fs1 tr1 r fs' tr2 H1 H2 IH b Hb Hf q Hq.
    pose proof (visit_grows _ _ _ _ _ _ _ _ _ _ _ _ H1) as Hg.
    rewrite copied_app, map_app.
    destruct Hq as [<-|Hq].
    + destruct (visit_copied_or_kept _ _ _ _ _ _ H1 (Hf p (or_introl eq_refl)))
        as [Hc|[Ho Hev]].
      * left. apply in_or_app. now left.
      * right. split; [exact Ho | apply in_or_app; now left].
    + destruct (IH b Hb (grows_isfile _ _ l Hg (fun x Hx => Hf x (or_intror Hx)))
                  q Hq) as [Hc|[Ho Hev]].
      * left. apply in_or_app. now right.
      * right. split; [exact Ho | apply in_or_app; now right].
Qed.

(** Without [overwrite], whatever is there keeps its bytes. *)
Lemma visit_no_overwrite (p : path) (acc : Z * Z) (fs fs' : node)
    (r : result (Z * Z)) (tr : list event) :
  overwrite = false ->
  visit' p acc fs = (r, fs', tr) ->
  forall q, present fs q = true -> read fs' q = read fs q.
Proof.
  intros Ho H q Hq.
  apply visit_inv in H. cbv zeta in H.
  assert (Hnew : forall data' fs1,
            present fs (child outdir (name p)) && negb overwrite = false ->
            write fs (copy_target fs p (child outdir (name p))) data'
              = Ok fs1 ->
            read fs1 q = read fs q).
  { intros data' fs1 Hsk Hw. rewrite Ho, andb_true_r in Hsk.
    eapply write_read_other; [exact Hw|].
    unfold copy_target, isdir, present in *.
    destruct (observe fs (child outdir (name p))) eqn:E; try discriminate.
    intros ->. rewrite E in Hq. discriminate. }
  destruct H as [(Hf & _ & -> & _)
                |[(Hf & Hp & _ & _ & -> & _)
                 |[(data & e & Hobs & Hsk & Hv & Hpf & _ & -> & _)
                  |[(data & e & Hobs & Hsk & Hpo & Hcf & _)
                   |(data & Hobs & Hsk & Hpo & Hne & Hio & Hw & _)]]]];
    try reflexivity.
  - apply visit_fail_state in Hcf.
    destruct Hcf as [->|(d & n & _ & _ & _ & Hw)]; [reflexivity | eauto].
  - eauto.
Qed.

Lemma grows_present_true (fs fs' : node) (q : path) :
  grows outdir fs fs' -> present fs q = true -> present fs' q = true.
Proof.
  intros Hg Hq. unfold present in *.
  pose proof (grows_present _ _ _ q Hg) as H.
  destruct (observe fs q); [discriminate| |];
    (destruct (observe fs' q); [exfalso; apply H; congruence | auto ..]).
Qed.

Lemma fold_no_overwrite (l : list path) (acc : Z * Z) (fs fs' : node)
    (r : result (Z * Z)) (tr : list event) :
  for_each l visit' acc fs = (r, fs', tr) ->
  overwrite = false ->
  forall q, present fs q = true -> read fs' q = read fs q.
Proof.
  revert l acc fs r fs' tr. fold_induction.
  - reflexivity.
  - intros p l acc fs e fs1 tr1 H Ho q Hq. eapply visit_no_overwrite; eauto.
  - intros p l acc fs a fs1 tr1 r fs' tr2 H1 H2 IH Ho q Hq.
    rewrite IH; auto.
    + eapply visit_no_overwrite; eauto.
    + eapply grows_present_true; [eapply visit_grows|]; eauto.
Qed.

(** *** Running the loop a second time *)





(** *** How many sources are copied *)

Lemma visit_copied_shape (p : path) (acc : Z * Z) (fs fs' : node)
    (r : result (Z * Z)) (tr : list event) :
  visit' p acc fs = (r, fs', tr) ->
  copied tr = [] \/
  copied tr = [(p, copy_target fs p (child outdir (name p)))].
Proof.
  intros H. apply visit_inv in H. cbv zeta in H.
  destruct H as [(_ & _ & _ & ->)
                |[(_ & _ & _ & _ & _ & ->)
                 |[(data & e & _ & _ & _ & _ & _ & _ & ->)
                  |[(data & e & _ & _ & _ & _ & _ & ->)
                   |(data & _ & _ & _ & _ & _ & _ & _ & _ & ->)]]]];
    try (left; reflexivity); destruct verbose; auto.
Qed.



(** A copy of [src] writes [outdir / name], or the entry [name] inside it
    when that is a directory. *)
Lemma fold_copied_target (l : list path) (acc : Z * Z) (fs fs' : node)
    (r : result (Z * Z)) (tr : list event) :
  for_each l visit' acc fs = (r, fs', tr) ->
  forall c, In c (copied tr) ->
    snd c = child outdir (name (fst c)) \/
    snd c = child (child outdir (name (fst c))) (name (fst c)).
Proof.
  assert (Hv : forall p acc fs fs' r tr,
             visit' p acc fs = (r, fs', tr) ->
             forall c, In c (copied tr) ->
               snd c = child outdir (name (fst c)) \/
               snd c = child (child outdir (name (fst c))) (name (fst c))).
  { intros p acc0 fs0 fs0' r0 tr0 H c Hc.
    apply visit_trace in H. destruct H as (_ & _ & _ & _ & Hcp & _).
    destruct (Hcp c Hc) as (-> & _). simpl. unfold copy_target.
    destruct (isdir fs0 (child outdir (name p))); auto. }
  revert l acc fs r fs' tr. fold_induction.
  - intros acc fs c [].
  - intros p l acc fs e fs1 tr1 H. eapply Hv; eauto.
  - intros p l acc fs a fs1 tr1 r fs' tr2 H1 H2 IH c Hc.
    rewrite copied_app in Hc. apply in_app_or in Hc.
    destruct Hc as [Hc|Hc]; [eapply Hv; eauto | auto].
Qed.

End Fold.

(** ** The sources of a traversal *)

Lemma in_entry_sources (fs : node) (outdir : path) (levels : nat)
    (d p : path) (n : string) :
  In p (entry_sources fs outdir levels (child d n)) ->
  (p = child d n /\ isfile fs p = true) \/
  (isdir fs (child d n) = true /\ In p (sources fs outdir levels (child d n))).
Proof.
  unfold entry_sources, isfile, isdir.
  destruct (observe fs (child d n)) eqn:E; simpl.
  - intros [].
  - intros [<-|[]]. left. now rewrite E.
  - auto.
Qed.

Lemma in_sources (fs : node) (outdir : path) (levels : nat) (d p : path) :
  In p (sources fs outdir (S levels) d) ->
  d <> outdir /\
  exists ns n, observe fs d = ODir ns /\ In n ns /\
               In p (entry_sources fs outdir levels (child d n)).
Proof.
  simpl. destruct (path_eqb d outdir) eqn:E; [intros []|].
  apply path_eqb_neq in E.
  destruct (observe fs d) as [| |ns] eqn:Ed; try (intros []).
  intros H. apply in_flat_map in H. destruct H as (n & Hn & Hp).
  split; [exact E|]. exists ns, n. auto.
Qed.

Lemma sources_isfile (fs : node) (outdir : path) (levels : nat) (d p : path) :
  In p (sources fs outdir levels d) -> isfile fs p = true.
Proof.
  revert d. induction levels as [|l IH]; intros d H; [destruct H|].
  apply in_sources in H. destruct H as (_ & ns & n & _ & _ & H).
  apply in_entry_sources in H. destruct H as [[_ H]|[_ H]]; eauto.
Qed.

(** No source lies directly in [outdir]. *)
Lemma sources_not_in_outdir (fs : node) (outdir : path) (levels : nat)
    (d p : path) :
  In p (sources fs outdir levels d) -> forall x, p <> child outdir x.
Proof.
  revert d. induction levels as [|l IH]; intros d H; [destruct H|].
  apply in_sources in H. destruct H as (Hd & ns & n & _ & _ & H).
  apply in_entry_sources in H. destruct H as [[-> _]|[_ H]]; eauto.
  intros x Hx. apply child_inj in Hx. now destruct Hx.
Qed.

Lemma flat_map_filter {A B} (f : A -> list B) (g : A -> bool) (l : list A) :
  (forall x, g x = false -> f x = []) ->
  flat_map f (filter g l) = flat_map f l.
Proof.
  intros H. induction l as [|x l IH]; simpl; [reflexivity|].
  destruct (g x) eqn:E; simpl; rewrite IH; [reflexivity|].
  now rewrite (H x E).
Qed.

Lemma visited_file_events (tr : list event) :
  visited (file_events tr) = visited tr.
Proof. apply flat_map_filter. now intros []. Qed.

Lemma copied_file_events (tr : list event) :
  copied (file_events tr) = copied tr.
Proof. apply flat_map_filter. now intros []. Qed.

Lemma copy_calls_file_events (tr : list event) :
  copy_calls (file_events tr) = copy_calls tr.
Proof. apply flat_map_filter. now intros []. Qed.

Lemma printed_file_events (tr : list event) :
  printed (file_events tr) = printed tr.
Proof. apply flat_map_filter. now intros []. Qed.

Lemma stat_sizes_file_events (tr : list event) :
  stat_sizes (file_events tr) = stat_sizes tr.
Proof. apply flat_map_filter. now intros []. Qed.

(** ** Properties of every recorded call *)

Lemma all_events_bind {A B} (ok : event -> Prop) (m : M A) (f : A -> M B)
    (fs : node) :
  all_events ok (m fs) ->
  (forall a fs1, all_events ok (f a fs1)) ->
  all_events ok (bind m f fs).
Proof.
  unfold all_events, bind. intros Hm Hf.
  destruct (m fs) as [[[a|e] fs1] tr1]; simpl in *; [|exact Hm].
  specialize (Hf a fs1). destruct (f a fs1) as [[r fs2] tr2]. simpl in *.
  apply Forall_app. auto.
Qed.

Lemma all_events_for_each {A S} (ok : event -> Prop) (xs : list A)
    (body : A -> S -> M S) (acc : S) (fs : node) :
  (forall x acc fs, In x xs -> all_events ok (body x acc fs)) ->
  all_events ok (for_each xs body acc fs).
Proof.
  revert acc fs. induction xs as [|x xs IH]; intros acc fs H; simpl.
  - constructor.
  - apply all_events_bind.
    + apply H. now left.
    + intros a fs1. apply IH. intros y acc' fs' Hy. apply H. now right.
Qed.

Lemma below_refl (d : path) : below d d.
Proof. exists []. now rewrite app_nil_r. Qed.

Lemma below_child (a d : path) (n : string) :
  below a (child d n) -> a = child d n \/ below a d.
Proof.
  intros [rel H].
  destruct (path_snoc rel) as [->|(rel' & m & ->)].
  - left. now rewrite app_nil_r in H.
  - right. exists rel'. unfold child in *. rewrite app_assoc in H.
    apply app_inj_tail in H. now destruct H.
Qed.

Lemma below_antisym (a b : path) : below a b -> below b a -> a = b.
Proof.
  intros [r1 H1] [r2 H2]. rewrite H1 in H2.
  rewrite <- app_assoc in H2. rewrite <- (app_nil_r a) in H2 at 1.
  apply app_inv_head in H2. symmetry in H2. apply app_eq_nil in H2.
  destruct H2 as [-> _]. now rewrite app_nil_r in H1.
Qed.

(** When the walk does not start strictly inside [outdir], no source lies
    at or below the directory [outdir]. *)
Lemma sources_not_below_outdir (fs : node) (outdir : path) (levels : nat)
    (d p : path) :
  isdir fs outdir = true ->
  (below outdir d -> d = outdir) ->
  In p (sources fs outdir levels d) -> ~ below outdir p.
Proof.
  intros Hout. revert d. induction levels as [|l IH]; intros d Hd H;
    [destruct H|].
  apply in_sources in H. destruct H as (Hne & ns & n & _ & _ & H).
  assert (Hc : below outdir (child d n) -> child d n = outdir).
  { intros Hb. apply below_child in Hb. destruct Hb as [Hb|Hb]; [auto|].
    now apply Hd in Hb. }
  apply in_entry_sources in H. destruct H as [[-> Hf]|[_ H]].
  - intros Hb. apply Hc in Hb. rewrite Hb in Hf.
    unfold isfile, isdir in *. destruct (observe fs outdir); discriminate.
  - now apply (IH (child d n)).
Qed.

(** ** Failure *)

Lemma aborting_quiet {A} (x : result A * node * list event) :
  (forall ev, In ev (snd x) -> failed_copy ev = None) -> aborting x.
Proof. intros H ev e Hin Hf. rewrite (H ev Hin) in Hf. discriminate. Qed.

Lemma aborting_bind {A B} (m : M A) (f : A -> M B) (fs : node) :
  aborting (m fs) -> (forall a fs1, aborting (f a fs1)) ->
  aborting (bind m f fs).
Proof.
  unfold aborting, bind. intros Hm Hf.
  destruct (m fs) as [[[a|e0] fs1] tr1]; simpl in *.
  2:{ intros ev e Hin Hfail. destruct (Hm ev e Hin Hfail) as [[= <-] Htr].
      auto. }
  specialize (Hf a fs1). destruct (f a fs1) as [[r fs2] tr2]. simpl in *.
  assert (Hq : forall ev', In ev' tr1 -> failed_copy ev' = None).
  { intros ev' Hin. destruct (failed_copy ev') as [e'|] eqn:E; [|reflexivity].
    destruct (Hm ev' e' Hin E) as [Habs _]. discriminate. }
  intros ev e Hin Hfail. apply in_app_or in Hin. destruct Hin as [Hin|Hin].
  - rewrite (Hq ev Hin) in Hfail. discriminate.
  - destruct (Hf ev e Hin Hfail) as (Hr & tr0 & -> & H0).
    split; [exact Hr|]. exists (tr1 ++ tr0). split; [apply app_assoc|].
    intros ev' Hin'. apply in_app_or in Hin'. destruct Hin'; auto.
Qed.

Lemma aborting_for_each {A S} (xs : list A) (body : A -> S -> M S)
    (acc : S) (fs : node) :
  (forall x acc fs, aborting (body x acc fs)) ->
  aborting (for_each xs body acc fs).
Proof.
  intros H. revert acc fs. induction xs as [|x xs IH]; intros acc fs; simpl.
  - apply aborting_quiet. intros ev [].
  - apply aborting_bind; auto.
Qed.

Section Failure.

Variable io_fault : path -> path -> fault.
Variable print_fault : string -> option exn.
Variable dir_size : Z.

Lemma aborting_shutil_copy (src dst : path) (fs : node) :
  aborting (shutil_copy io_fault src dst fs).
Proof.
  unfold shutil_copy.
  destruct (copyfile io_fault src _ fs) as [[u|e0] fs'].
  - apply aborting_quiet. intros ev [<-|[]]. reflexivity.
  - intros ev e [<-|[]] [= <-]. simpl. split; [reflexivity|].
    exists []. split; [reflexivity | intros ev' []].
Qed.

Lemma aborting_visit (outdir : path) (verbose overwrite : bool) (p : path)
    (acc : Z * Z) (fs : node) :
  aborting (visit io_fault print_fault dir_size outdir verbose overwrite p acc fs).
Proof.
  unfold visit. apply aborting_bind.
  { apply aborting_quiet. intros ev [<-|[]]. reflexivity. }
  intros [|] fs1; [|apply aborting_quiet; intros ev []].
  unfold copy_file. destruct acc as [n_files n_bytes]. apply aborting_bind.
  { apply aborting_quiet. intros ev [<-|[]]. reflexivity. }
  intros e fs2. destruct (e && negb overwrite).
  { apply aborting_quiet. intros ev []. }
  apply aborting_bind.
  { apply aborting_quiet. unfold print.
    destruct verbose; [destruct (print_fault _)|]; simpl; intros ev H;
      [destruct H | destruct H as [<-|[]]; reflexivity | destruct H]. }
  intros _ fs3. apply aborting_bind; [apply aborting_shutil_copy|].
  intros _ fs4. apply aborting_bind.
  - apply aborting_quiet. unfold st_size.
    destruct (observe fs4 p); simpl; intros ev H;
      try (destruct H as [<-|[]]; reflexivity); destruct H.
  - intros size fs5. apply aborting_quiet. intros ev [].
Qed.

Lemma aborting_flatten_at (levels : nat) (indir outdir : path)
    (verbose overwrite : bool) (fs : node) :
  aborting (flatten_dir_at io_fault print_fault dir_size levels indir outdir
              verbose overwrite fs).
Proof.
  revert indir fs. induction levels as [|l IH]; intros indir fs; simpl.
  - apply aborting_quiet. intros ev [].
  - destruct (path_eqb indir outdir); [apply aborting_quiet; intros ev []|].
    apply aborting_bind.
    + apply aborting_quiet. unfold iterdir.
      destruct (observe fs indir); simpl; intros ev [<-|[]]; reflexivity.
    + intros paths fs1. apply aborting_for_each. intros p acc fs2.
      unfold flatten_entry. apply aborting_bind.
      * apply aborting_quiet. intros ev [<-|[]]. reflexivity.
      * intros [|] fs3; [|apply aborting_visit].
        apply aborting_bind; [apply IH|].
        intros sub fs4. apply aborting_quiet. intros ev [].
Qed.

End Failure.

(** ** Printing *)

Lemma no_prints_app (a b : list event) :
  no_prints (a ++ b) = no_prints a ++ no_prints b.
Proof. apply filter_app. Qed.

Lemma printed_no_prints (tr : list event) : printed (no_prints tr) = [].
Proof.
  induction tr as [|ev tr IH]; simpl; [reflexivity|].
  destruct ev; simpl; auto.
Qed.

Lemma hushed_same {A} (print_fault : string -> option exn)
    (x0 x1 : result A * node * list event) :
  x0 = quiet x1 -> hushed print_fault x0 x1.
Proof. intros H _. exact H. Qed.

Lemma hushed_bind {A B} (print_fault : string -> option exn)
    (m0 m1 : M A) (f0 f1 : A -> M B) (fs : node) :
  hushed print_fault (m0 fs) (m1 fs) ->
  (forall a fs1, hushed print_fault (f0 a fs1) (f1 a fs1)) ->
  hushed print_fault (bind m0 f0 fs) (bind m1 f1 fs).
Proof.
  unfold hushed, bind, quiet. intros Hm Hf.
  destruct (m0 fs) as [[[a|e] fs1] tr1] eqn:E0; simpl in *.
  - specialize (Hf a fs1).
    destruct (f0 a fs1) as [[r fs2] tr2] eqn:E2. simpl in *.
    intros Hall.
    assert (H1 : forall c, In c (copy_calls tr1) ->
                   print_fault (copying_line (snd c)) = None).
    { intros c Hc. apply Hall. unfold copy_calls in *.
      rewrite flat_map_app. apply in_or_app. now left. }
    assert (H2 : forall c, In c (copy_calls tr2) ->
                   print_fault (copying_line (snd c)) = None).
    { intros c Hc. apply Hall. unfold copy_calls in *.
      rewrite flat_map_app. apply in_or_app. now right. }
    specialize (Hm H1). specialize (Hf H2).
    destruct (m1 fs) as [[r1 s1] t1]. simpl in Hm.
    injection Hm as <- <- ->.
    destruct (f1 a fs1) as [[r3 s3] t3]. simpl in Hf.
    injection Hf as <- <- ->. simpl. now rewrite no_prints_app.
  - intros Hall. specialize (Hm Hall).
    destruct (m1 fs) as [[r1 s1] t1]. simpl in Hm.
    injection Hm as <- <- ->. reflexivity.
Qed.

Lemma hushed_for_each {A S} (print_fault : string -> option exn)
    (xs : list A) (body0 body1 : A -> S -> M S) (acc : S) (fs : node) :
  (forall x acc fs, hushed print_fault (body0 x acc fs) (body1 x acc fs)) ->
  hushed print_fault (for_each xs body0 acc fs) (for_each xs body1 acc fs).
Proof.
  intros H. revert acc fs. induction xs as [|x xs IH]; intros acc fs; simpl.
  - now apply hushed_same.
  - apply hushed_bind; auto.
Qed.

Section Printing.

Variable io_fault : path -> path -> fault.
Variable print_fault : string -> option exn.
Variable dir_size : Z.

(** The line is printed before the copy is called for: if the copy is
    called for in the run without [verbose] and its line can be printed,
    the run with [verbose] does the same and prints the line. *)
Lemma hushed_visit (outdir : path) (overwrite : bool) (p : path)
    (acc : Z * Z) (fs : node) :
  hushed print_fault
    (visit io_fault print_fault dir_size outdir false overwrite p acc fs)
    (visit io_fault print_fault dir_size outdir true overwrite p acc fs).
Proof.
  unfold visit. apply hushed_bind; [now apply hushed_same|].
  intros [|] fs1; [|now apply hushed_same].
  unfold copy_file. destruct acc as [n_files n_bytes].
  apply hushed_bind; [now apply hushed_same|].
  intros e fs2. destruct (e && negb overwrite); [now apply hushed_same|].
  unfold hushed, bind, ret, print, shutil_copy, st_size, quiet.
  destruct (print_fault (copying_line (child outdir (name p)))) eqn:K; simpl.
  - intros Hall. exfalso.
    specialize (Hall (p, child outdir (name p))). simpl in Hall.
    rewrite Hall in K; [discriminate|].
    destruct (copyfile io_fault p _ fs2) as [[u|e1] fs3]; simpl; auto.
    destruct (observe fs3 p); simpl; auto.
  - intros _.
    destruct (copyfile io_fault p _ fs2) as [[u|e1] fs3]; simpl; auto.
    destruct (observe fs3 p); reflexivity.
Qed.

Lemma hushed_flatten_at (levels : nat) (indir outdir : path)
    (overwrite : bool) (fs : node) :
  hushed print_fault
    (flatten_dir_at io_fault print_fault dir_size levels indir outdir false
       overwrite fs)
    (flatten_dir_at io_fault print_fault dir_size levels indir outdir true
       overwrite fs).
Proof.
  revert indir fs. induction levels as [|l IH]; intros indir fs; simpl.
  - now apply hushed_same.
  - destruct (path_eqb indir outdir); [now apply hushed_same|].
    apply hushed_bind.
    + apply hushed_same. unfold iterdir, quiet.
      destruct (observe fs indir); reflexivity.
    + intros paths fs1. apply hushed_for_each. intros p acc fs2.
      unfold flatten_entry. apply hushed_bind; [now apply hushed_same|].
      intros [|] fs3; [|apply hushed_visit].
      apply hushed_bind; [apply IH | intros; now apply hushed_same].
Qed.

End Printing.

(** ** Well-formed trees and the files within a depth *)

Lemma nodupb_NoDup (l : list string) : nodupb l = true -> NoDup l.
Proof.
  induction l as [|x l IH]; simpl; intros H; constructor.
  - apply andb_prop in H. destruct H as [H _].
    intros Hin. apply negb_true_iff in H.
    assert (existsb (String.eqb x) l = true); [|congruence].
    apply existsb_exists. exists x. split; [exact Hin | apply String.eqb_refl].
  - apply IH. apply andb_prop in H. tauto.
Qed.

Lemma assoc_in (n : string) (c : node) (es : list (string * node)) :
  assoc n es = Some c -> In (n, c) es.
Proof.
  induction es as [|[m d] es IH]; simpl; [discriminate|].
  destruct (String.eqb_spec m n) as [->|_].
  - intros [= ->]. now left.
  - intros H. right. auto.
Qed.

Lemma wf_find (t c : node) (p : path) :
  wf_node t = true -> find t p = Some c -> wf_node c = true.
Proof.
  revert t. induction p as [|n p IH]; intros t Hwf; simpl.
  - now intros [= <-].
  - destruct t as [d|es]; [discriminate|].
    destruct (assoc n es) as [c'|] eqn:Ea; [|discriminate].
    apply IH. simpl in Hwf. apply andb_prop in Hwf. destruct Hwf as [_ Hall].
    rewrite forallb_forall in Hall.
    apply (Hall (n, c')). now apply assoc_in.
Qed.

Lemma wf_names (fs : node) (d : path) (ns : list string) :
  wf_node fs = true -> observe fs d = ODir ns -> NoDup ns.
Proof.
  intros Hwf. unfold observe.
  destruct (find fs d) as [[data|es]|] eqn:E; try discriminate.
  intros [= <-]. apply (wf_find _ _ _ Hwf) in E. simpl in E.
  apply andb_prop in E. destruct E as [E _]. now apply nodupb_NoDup.
Qed.

Lemma NoDup_flat_map {A B} (f : A -> list B) (l : list A) :
  NoDup l ->
  (forall a, In a l -> NoDup (f a)) ->
  (forall a b x, In a l -> In b l -> In x (f a) -> In x (f b) -> a = b) ->
  NoDup (flat_map f l).
Proof.
  induction l as [|a l IH]; intros Hl Hf Hdis; simpl; [constructor|].
  apply NoDup_cons_iff in Hl. destruct Hl as [Ha Hl].
  apply NoDup_app.
  - apply Hf. now left.
  - apply IH; auto.
    + intros b Hb. apply Hf. now right.
    + intros b c x Hb Hc. apply Hdis; now right.
  - intros x Hx Hx'. apply in_flat_map in Hx'. destruct Hx' as (b & Hb & Hxb).
    assert (a = b) by (apply (Hdis a b x); auto; [now left | now right]).
    congruence.
Qed.

(** Something below a path makes that path a directory. *)
Lemma present_below (t : node) (p q : path) :
  observe t (p ++ q) <> OAbsent -> q <> [] -> isdir t p = true.
Proof.
  intros H Hq. unfold isdir.
  destruct (observe t p) eqn:E; [| |reflexivity].
  - now apply (absent_below _ _ q) in E.
  - now apply (file_below _ _ q) in E.
Qed.

Lemma isfile_present (t : node) (p : path) :
  isfile t p = true -> observe t p <> OAbsent.
Proof. unfold isfile. destruct (observe t p); congruence. Qed.

Lemma files_within_S (fs : node) (levels : nat) (d : path) :
  files_within fs (S levels) d =
  match observe fs d with
  | ODir ns =>
      flat_map (fun n =>
        match observe fs (child d n) with
        | ODir _ => files_within fs levels (child d n)
        | OFile _ => [child d n]
        | OAbsent => []
        end) ns
  | _ => []
  end.
Proof. reflexivity. Qed.

(** [files_within] lists the plain files at depth less than [levels]. *)
Lemma in_files_within (fs : node) (levels : nat) (d p : path) :
  In p (files_within fs levels d) <->
  exists k, (k < levels)%nat /\ file_at_depth fs d k p.
Proof.
  revert d. induction levels as [|l IH]; intros d.
  - simpl. split; [intros [] | intros (k & Hk & _); lia].
  - rewrite files_within_S. split.
    + destruct (observe fs d) as [| |ns] eqn:Ed; try (intros []).
      intros H. apply in_flat_map in H. destruct H as (n & Hn & H).
      destruct (observe fs (child d n)) as [|data|ms] eqn:Ec.
      * destruct H.
      * destruct H as [<-|[]]. exists O. split; [lia|].
        exists [n]. repeat split. unfold isfile. now rewrite Ec.
      * apply IH in H. destruct H as (k & Hk & rel & -> & Hlen & Hf).
        exists (S k). split; [lia|].
        exists (n :: rel). unfold child in *. rewrite <- app_assoc in *.
        simpl. repeat split; auto.
    + intros (k & Hk & rel & -> & Hlen & Hf).
      destruct rel as [|n rel]; [discriminate|].
      injection Hlen as Hlen.
      assert (Hpres : observe fs (child d n ++ rel) <> OAbsent).
      { unfold child. rewrite <- app_assoc. now apply isfile_present. }
      assert (Hc : observe fs (child d n) <> OAbsent).
      { intros E. now apply (absent_below _ _ rel) in E. }
      destruct (present_parent _ _ _ Hc) as [ns Ed]. rewrite Ed.
      apply in_flat_map. exists n. split.
      { now apply (names_present _ _ _ n Ed). }
      destruct rel as [|m rel].
      * rewrite app_nil_r in Hpres. unfold isfile in Hf.
        change (d ++ [n]) with (child d n) in Hf.
        destruct (observe fs (child d n)); try discriminate. now left.
      * assert (Hd : isdir fs (child d n) = true)
          by (apply (present_below _ _ (m :: rel)); [exact Hpres | discriminate]).
        unfold isdir in Hd.
        destruct (observe fs (child d n)); try discriminate.
        apply IH. simpl in Hlen. exists (List.length rel). split; [lia|].
        exists (m :: rel). unfold child. rewrite <- app_assoc.
        repeat split; auto.
Qed.

Lemma files_within_below (fs : node) (levels : nat) (d p : path) :
  In p (files_within fs levels d) -> exists rel, p = d ++ rel /\ rel <> [].
Proof.
  intros H. apply in_files_within in H.
  destruct H as (k & _ & rel & -> & Hlen & _).
  exists rel. split; [reflexivity|]. destruct rel; [discriminate | congruence].
Qed.

Lemma NoDup_files_within (fs : node) (levels : nat) (d : path) :
  wf_node fs = true -> NoDup (files_within fs levels d).
Proof.
  intros Hwf. revert d. induction levels as [|l IH]; intros d.
  - constructor.
  - rewrite files_within_S.
    destruct (observe fs d) as [| |ns] eqn:Ed; try constructor.
    apply NoDup_flat_map.
    + eapply wf_names; eauto.
    + intros n _. destruct (observe fs (child d n)).
      * constructor.
      * repeat constructor. intros [].
      * apply IH.
    + intros a b x _ _ Ha Hb.
      assert (Hx : forall n,
                In x (match observe fs (child d n) with
                      | ODir _ => files_within fs l (child d n)
                      | OFile _ => [child d n]
                      | OAbsent => []
                      end) -> exists rel, x = d ++ n :: rel).
      { intros n Hn. destruct (observe fs (child d n)).
        - destruct Hn.
        - destruct Hn as [<-|[]]. now exists [].
        - apply files_within_below in Hn. destruct Hn as (rel & -> & _).
          exists rel. unfold child. now rewrite <- app_assoc. }
      destruct (Hx a Ha) as [r1 E1]. destruct (Hx b Hb) as [r2 E2].
      rewrite E1 in E2. apply app_inv_head in E2. congruence.
Qed.

(** When [outdir] is none of the directories at or below [d], the
    traversal's sources are the files within the depth. *)
Lemma sources_files_within (fs : node) (outdir : path) (levels : nat) (d : path) :
  (forall rel, isdir fs (d ++ rel) = true -> d ++ rel <> outdir) ->
  sources fs outdir levels d = files_within fs levels d.
Proof.
  revert d. induction levels as [|l IH]; intros d Hsep; [reflexivity|].
  rewrite files_within_S. simpl.
  destruct (path_eqb d outdir) eqn:E.
  - apply path_eqb_eq in E. specialize (Hsep []). rewrite app_nil_r in Hsep.
    unfold isdir in Hsep. destruct (observe fs d); try reflexivity.
    now destruct (Hsep eq_refl).
  - destruct (observe fs d) as [| |ns]; try reflexivity.
    apply flat_map_ext_in. intros n _.
    destruct (observe fs (child d n)); try reflexivity.
    apply IH. intros rel. unfold child. rewrite <- app_assoc. apply Hsep.
Qed.






(** ** What the loop leaves in the destination *)

Section FurtherFold.

Variable io_fault : path -> path -> fault.
Variable print_fault : string -> option exn.
Variable dir_size : Z.
Variable outdir : path.
Variables verbose overwrite : bool.

Local Notation visit' := (visit io_fault print_fault dir_size outdir verbose overwrite).

Ltac visit_fold_induction :=
  match goal with
  | |- forall l acc fs r fs' tr,
        for_each l _ acc fs = (r, fs', tr) -> @?P l acc fs r fs' tr =>
      apply (for_each_visit_ind io_fault print_fault dir_size outdir verbose overwrite P)
  end.

Lemma present_in_dir (fs : node) (d : path) (n : string) :
  present fs (child d n) = true -> isdir fs d = true.
Proof.
  unfold present, isdir. intros H.
  destruct (present_parent fs d n) as [ns ->]; [|reflexivity].
  destruct (observe fs (child d n)); congruence.
Qed.

Lemma write_needs_dir (fs fs' : node) (d : path) (n : string)
    (data : list byte) :
  write fs (child d n) data = Ok fs' -> isdir fs d = true.
Proof.
  intros Hw. destruct (write_observe _ _ _ _ Hw) as (_ & Hnd & _ & Hnew).
  destruct (observe fs (child d n)) eqn:E.
  - destruct (Hnew d n eq_refl eq_refl) as (ns & Hd & _).
    unfold isdir. now rewrite Hd.
  - apply present_in_dir with (n := n). unfold present. now rewrite E.
  - exfalso. eapply Hnd. reflexivity.
Qed.

Lemma copy_target_plain (fs : node) (p q : path) :
  isdir fs q = false -> copy_target fs p q = q.
Proof. unfold copy_target. now intros ->. Qed.

(** *** A destination that is not a directory *)

Lemma visit_no_destination (p : path) (acc : Z * Z) (fs fs' : node)
    (r : result (Z * Z)) (tr : list event) :
  isdir fs outdir = false ->
  visit' p acc fs = (r, fs', tr) ->
  fs' = fs /\ copied tr = [] /\
  (forall a, r = Ok a -> a = acc /\ visited tr = []).
Proof.
  intros Hout H. apply visit_inv in H. cbv zeta in H.
  assert (Hnd : isdir fs (child outdir (name p)) = false).
  { destruct (isdir fs (child outdir (name p))) eqn:E; [|reflexivity].
    assert (K : present fs (child outdir (name p)) = true).
    { unfold isdir, present in *.
      destruct (observe fs (child outdir (name p))); congruence. }
    apply present_in_dir in K. congruence. }
  assert (Hno : forall data' fs1,
            write fs (copy_target fs p (child outdir (name p))) data'
              = Ok fs1 -> False).
  { intros data' fs1 Hw. rewrite (copy_target_plain _ _ _ Hnd) in Hw.
    apply write_needs_dir in Hw. congruence. }
  destruct H as [(Hf & -> & -> & ->)
                |[(Hf & Hp & Ho & -> & -> & ->)
                 |[(data & e & Hobs & Hsk & Hv & Hpf & -> & -> & ->)
                  |[(data & e & Hobs & Hsk & Hpo & Hcf & -> & ->)
                   |(data & Hobs & Hsk & Hpo & Hne & Hio & Hw & Hsrc
                     & -> & ->)]]]].
  - refine (conj eq_refl (conj eq_refl _)). intros a [= <-]. auto.
  - apply present_in_dir in Hp. congruence.
  - refine (conj eq_refl (conj eq_refl _)). discriminate.
  - apply visit_fail_state in Hcf.
    destruct Hcf as [->|(d & n & _ & _ & _ & Hw)];
      [|now destruct (Hno _ _ Hw)].
    refine (conj eq_refl (conj _ _)); [now destruct verbose | discriminate].
  - now destruct (Hno _ _ Hw).
Qed.

Lemma fold_no_destination (l : list path) (acc : Z * Z) (fs fs' : node)
    (r : result (Z * Z)) (tr : list event) :
  for_each l visit' acc fs = (r, fs', tr) ->
  isdir fs outdir = false ->
  fs' = fs /\ copied tr = [] /\
  (forall a, r = Ok a -> a = acc /\ visited tr = []).
Proof.
  revert l acc fs r fs' tr. visit_fold_induction.
  - intros acc fs _. refine (conj eq_refl (conj eq_refl _)).
    intros a [= <-]. auto.
  - intros p l acc fs e fs1 tr1 H Hout.
    destruct (visit_no_destination _ _ _ _ _ _ Hout H) as (-> & Hc & _).
    refine (conj eq_refl (conj Hc _)). discriminate.
  - intros p l acc fs a fs1 tr1 r fs' tr2 H1 H2 IH Hout.
    destruct (visit_no_destination _ _ _ _ _ _ Hout H1) as (-> & Hc & Ha).
    destruct (Ha a eq_refl) as (-> & Hv).
    destruct (IH Hout) as (-> & Hc2 & Ha2).
    rewrite copied_app, visited_app, Hc, Hc2, Hv.
    refine (conj eq_refl (conj eq_refl _)). exact Ha2.
Qed.

(** *** Copies that fail *)

(** With the destination a directory, and [overwrite] off or no directory
    among its entries, a copy fails only if the operating system lets it
    down. *)
Lemma visit_failures (p : path) (acc : Z * Z) (fs fs' : node)
    (r : result (Z * Z)) (tr : list event) :
  isdir fs outdir = true ->
  overwrite = false \/ (forall x, isdir fs (child outdir x) = false) ->
  (forall x, p <> child outdir x) ->
  visit' p acc fs = (r, fs', tr) ->
  forall src dst e, In (EvCopy src dst (Raise e)) tr ->
    e = OSError /\ io_fault src dst <> NoFault /\
    src = p /\ dst = child outdir (name src).
Proof.
  intros Hout Hpol Hp H src dst e0 Hin.
  apply visit_inv in H. cbv zeta in H.
  destruct H as [(Hf & _ & _ & ->)
                |[(Hf & _ & _ & _ & _ & ->)
                 |[(data & e & Hobs & Hsk & Hv & Hpf & _ & _ & ->)
                  |[(data & e & Hobs & Hsk & Hpo & Hcf & _ & ->)
                   |(data & Hobs & Hsk & Hpo & Hne & _ & Hw & Hsrc
                     & _ & ->)]]]].
  - destruct Hin as [|[]]; discriminate.
  - destruct Hin as [|[|[]]]; discriminate.
  - destruct Hin as [|[|[]]]; discriminate.
  - assert (E : EvCopy src dst (Raise e0)
                = EvCopy p (child outdir (name p)) (Raise e)).
    { destruct verbose; simpl in Hin;
        repeat (destruct Hin as [Hin|Hin]; try discriminate; auto);
        now destruct Hin. }
    injection E as -> -> ->.
    assert (Hnd : isdir fs (child outdir (name p)) = false).
    { destruct Hpol as [->|Hpol]; [|apply Hpol].
      rewrite andb_true_r in Hsk. unfold present, isdir in *.
      destruct (observe fs (child outdir (name p))); congruence. }
    rewrite (copy_target_plain _ _ _ Hnd) in Hcf.
    assert (Hw : forall bytes,
               exists t, write fs (child outdir (name p)) bytes = Ok t).
    { intros bytes. unfold isdir in Hout, Hnd.
      destruct (observe fs outdir) as [| |ns] eqn:Eo; try discriminate.
      destruct (observe fs (child outdir (name p))) as [|d|ms] eqn:Et;
        try discriminate.
      - eapply write_new_ok; eauto.
      - eapply write_file_ok; eauto. }
    unfold copyfile in Hcf.
    destruct (path_eqb p (child outdir (name p))) eqn:E.
    { apply path_eqb_eq in E. now destruct (Hp (name p)). }
    rewrite Hobs in Hcf.
    destruct (io_fault p (child outdir (name p))) as [| |n] eqn:Hio.
    + destruct (Hw data) as [t Ht]. rewrite Ht in Hcf. discriminate.
    + injection Hcf as <- _. repeat split. discriminate.
    + destruct (Hw (firstn n data)) as [t Ht]. rewrite Ht in Hcf.
      injection Hcf as <- _. repeat split. discriminate.
  - destruct verbose; simpl in Hin;
      repeat (destruct Hin as [Hin|Hin]; try discriminate); now destruct Hin.
Qed.

Lemma fold_failures (l : list path) (acc : Z * Z) (fs fs' : node)
    (r : result (Z * Z)) (tr : list event) :
  for_each l visit' acc fs = (r, fs', tr) ->
  isdir fs outdir = true ->
  overwrite = false \/ (forall x, isdir fs (child outdir x) = false) ->
  (forall p, In p l -> forall x, p <> child outdir x) ->
  forall src dst e, In (EvCopy src dst (Raise e)) tr ->
    e = OSError /\ io_fault src dst <> NoFault /\
    In src l /\ dst = child outdir (name src).
Proof.
  revert l acc fs r fs' tr. visit_fold_induction.
  - intros acc fs _ _ _ src dst e [].
  - intros p l acc fs e fs1 tr1 H Hout Hpol Hl src dst e0 Hin.
    destruct (visit_failures _ _ _ _ _ _ Hout Hpol (Hl p (or_introl eq_refl))
                H src dst e0 Hin) as (K1 & K2 & K3 & K4).
    subst src. repeat split; auto. now left.
  - intros p l acc fs a fs1 tr1 r fs' tr2 H1 H2 IH Hout Hpol Hl src dst e Hin.
    pose proof (visit_grows _ _ _ _ _ _ _ _ _ _ _ _ H1) as (K & _).
    apply in_app_or in Hin. destruct Hin as [Hin|Hin].
    + destruct (visit_failures _ _ _ _ _ _ Hout Hpol
                  (Hl p (or_introl eq_refl)) H1 src dst e Hin)
        as (K1 & K2 & K3 & K4).
      subst src. repeat split; auto. now left.
    + assert (Hout1 : isdir fs1 outdir = true) by (now rewrite K).
      assert (Hpol1 : overwrite = false \/
                      (forall x, isdir fs1 (child outdir x) = false)).
      { destruct Hpol as [Hpol|Hpol]; [now left | right].
        intros x. now rewrite K. }
      destruct (IH Hout1 Hpol1 (fun q Hq => Hl q (or_intror Hq)) src dst e Hin)
        as (K1 & K2 & K3 & K4).
      repeat split; auto. now right.
Qed.

(** *** What the destination holds afterwards *)

Lemma visit_target_present (p : path) (acc a : Z * Z) (fs fs' : node)
    (tr : list event) :
  visit' p acc fs = (Ok a, fs', tr) -> isfile fs p = true ->
  present fs' (child outdir (name p)) = true.
Proof.
  intros H Hfile. pose proof (visit_grows _ _ _ _ _ _ _ _ _ _ _ _ H) as Hg.
  apply visit_inv in H. cbv zeta in H.
  destruct H as [(Hf & _)
                |[(Hf & Hp & Ho & _ & -> & _)
                 |[(data & e & _ & _ & _ & _ & Hr & _)
                  |[(data & e & _ & _ & _ & _ & Hr & _)
                   |(data & Hobs & Hsk & Hpo & Hne & Hio & Hw & Hsrc
                     & _ & _)]]]];
    try congruence.
  unfold copy_target in Hw.
  destruct (isdir fs (child outdir (name p))) eqn:Ed.
  - apply (grows_present_true outdir fs fs' _ Hg).
    unfold isdir, present in *.
    destruct (observe fs (child outdir (name p))); congruence.
  - destruct (write_observe _ _ _ _ Hw) as (Hq & _).
    unfold present. now rewrite Hq.
Qed.

Lemma fold_targets_present (l : list path) (acc : Z * Z) (fs fs' : node)
    (r : result (Z * Z)) (tr : list event) :
  for_each l visit' acc fs = (r, fs', tr) ->
  forall a, r = Ok a ->
  (forall p, In p l -> isfile fs p = true) ->
  forall p, In p l -> present fs' (child outdir (name p)) = true.
Proof.
  revert l acc fs r fs' tr. visit_fold_induction.
  - intros acc fs a _ _ p [].
  - intros p l acc fs e fs1 tr1 H a Ha. discriminate.
  - intros p l acc fs a fs1 tr1 r fs' tr2 H1 H2 IH b Hb Hf q Hq.
    pose proof (visit_grows _ _ _ _ _ _ _ _ _ _ _ _ H1) as Hg1.
    pose proof (for_each_visit_grows _ _ _ _ _ _ _ _ _ _ _ _ H2) as Hg2.
    destruct Hq as [<-|Hq].
    + apply (grows_present_true outdir fs1 fs' _ Hg2).
      eapply visit_target_present; eauto. apply Hf. now left.
    + apply (IH b Hb); [|exact Hq].
      eapply grows_isfile; [exact Hg1|]. intros x Hx. apply Hf. now right.
Qed.

(** *** Which source a name of the destination comes from *)

Lemma for_each_split (l1 l2 : list path) (p : path) (acc a : Z * Z)
    (fs fs' : node) (tr : list event) :
  for_each (l1 ++ p :: l2) visit' acc fs = (Ok a, fs', tr) ->
  exists a1 s1 t1 a2 s2 t2 t3,
    for_each l1 visit' acc fs = (Ok a1, s1, t1) /\
    visit' p a1 s1 = (Ok a2, s2, t2) /\
    for_each l2 visit' a2 s2 = (Ok a, fs', t3) /\
    tr = t1 ++ t2 ++ t3.
Proof.
  rewrite for_each_app. intros H. apply bind_inv in H.
  destruct H as [(a1 & s1 & t1 & t23 & H1 & H23 & ->)|(e & _ & He)];
    [|discriminate].
  simpl in H23. apply bind_inv in H23.
  destruct H23 as [(a2 & s2 & t2 & t3 & H2 & H3 & ->)|(e & _ & He)];
    [|discriminate].
  exists a1, s1, t1, a2, s2, t2, t3. auto.
Qed.

Lemma fold_copied_in (l : list path) (acc : Z * Z) (fs fs' : node)
    (r : result (Z * Z)) (tr : list event) :
  for_each l visit' acc fs = (r, fs', tr) ->
  forall c, In c (copied tr) -> In (fst c) l.
Proof.
  revert l acc fs r fs' tr. visit_fold_induction.
  - intros acc fs c [].
  - intros p l acc fs e fs1 tr1 H c Hc.
    apply visit_trace in H. destruct H as (_ & _ & _ & _ & Hcp & _).
    destruct (Hcp c Hc) as (-> & _). now left.
  - intros p l acc fs a fs1 tr1 r fs' tr2 H1 H2 IH c Hc.
    rewrite copied_app in Hc. apply in_app_or in Hc. destruct Hc as [Hc|Hc].
    + apply visit_trace in H1. destruct H1 as (_ & _ & _ & _ & Hcp & _).
      destruct (Hcp c Hc) as (-> & _). now left.
    + right. auto.
Qed.

(** The entry [x] of the destination is as it was when no source is called
    [x]. *)
Lemma failed_copy_calls (tr : list event) (c : path * path) :
  In c (failed tr) -> In c (copy_calls tr).
Proof.
  unfold failed, copy_calls. rewrite !in_flat_map.
  intros (ev & Hev & Hc). exists ev. split; [exact Hev|].
  destruct ev; try contradiction. destruct r; [contradiction | exact Hc].
Qed.

(** The entry [x] of the destination is as it was when no source is called
    [x]. *)
Lemma fold_untouched_name (l : list path) (acc : Z * Z) (fs fs' : node)
    (r : result (Z * Z)) (tr : list event) (x : string) :
  for_each l visit' acc fs = (r, fs', tr) ->
  (forall q, In q l -> name q <> x) ->
  read fs' (child outdir x) = read fs (child outdir x) /\
  present fs' (child outdir x) = present fs (child outdir x).
Proof.
  intros H Hx.
  assert (Hno : ~ (read fs' (child outdir x) <> read fs (child outdir x) \/
                   present fs' (child outdir x)
                     <> present fs (child outdir x))).
  { intros Hch.
    destruct (fold_changed _ _ _ _ _ _ _ _ _ _ _ _ H _ Hch)
      as (src & E & Hin).
    assert (Hl : In src l).
    { destruct Hin as [Hin|Hin].
      - apply (fold_copied_in _ _ _ _ _ _ H _ Hin).
      - apply failed_copy_calls in Hin.
        apply (fold_copy_calls _ _ _ _ _ _ _ _ _ _ _ _ H _ Hin). }
    unfold copy_target in E.
    destruct (isdir fs (child outdir (name src))).
    - apply child_inj in E. destruct E as [E _].
      symmetry in E. now apply child_neq_self in E.
    - apply child_inj in E. destruct E as [_ E].
      apply (Hx src Hl). now symmetry. }
  split.
  - destruct (read_eq_dec (read fs' (child outdir x))
                (read fs (child outdir x))); tauto.
  - destruct (bool_dec (present fs' (child outdir x))
                (present fs (child outdir x))); tauto.
Qed.

(** The bytes a visit copies are those its source held when the loop
    began. *)
Lemma visit_copies_original (fs0 : node) (p : path) (acc a : Z * Z)
    (fs fs' : node) (tr : list event) :
  grows outdir fs0 fs -> keeps outdir fs0 fs ->
  visit' p acc fs = (Ok a, fs', tr) ->
  isfile fs0 p = true -> (forall x, p <> child outdir x) ->
  isdir fs0 (child outdir (name p)) = false ->
  present fs (child outdir (name p)) && negb overwrite = false ->
  read fs' (child outdir (name p)) = read fs0 p.
Proof.
  intros Hg Hk H Hfile Hout Hnd Hsk'.
  pose proof Hg as (K & F & _).
  apply visit_inv in H. cbv zeta in H.
  destruct H as [(Hf & _)
                |[(Hf & Hp & Ho & _)
                 |[(data & e & _ & _ & _ & _ & Hr & _)
                  |[(data & e & _ & _ & _ & _ & Hr & _)
                   |(data & Hobs & Hsk & Hpo & Hne & Hio & Hw & Hsrc
                     & _ & _)]]]];
    try discriminate.
  - rewrite (F p Hfile) in Hf. discriminate.
  - rewrite Hp, Ho in Hsk'. discriminate.
  - assert (Hnc : ~ clobbered outdir fs0 p).
    { rewrite <- (clobbered_grows _ _ _ _ Hg).
      now apply copy_source_not_clobbered. }
    rewrite <- (Hk p Hnc).
    rewrite copy_target_plain in Hw by (now rewrite K).
    destruct (write_observe _ _ _ _ Hw) as (Hq & _).
    unfold read. now rewrite Hq, Hobs.
Qed.

Lemma fold_last_writer (l1 l2 : list path) (p : path) (acc a : Z * Z)
    (fs fs' : node) (tr : list event) :
  for_each (l1 ++ p :: l2) visit' acc fs = (Ok a, fs', tr) ->
  overwrite = true ->
  isfile fs p = true -> (forall x, p <> child outdir x) ->
  isdir fs (child outdir (name p)) = false ->
  (forall q, In q l2 -> name q <> name p) ->
  read fs' (child outdir (name p)) = read fs p.
Proof.
  intros H Ho Hfile Hout Hnd Hl2.
  destruct (for_each_split _ _ _ _ _ _ _ _ H)
    as (a1 & s1 & t1 & a2 & s2 & t2 & t3 & H1 & H2 & H3 & _).
  destruct (fold_untouched_name _ _ _ _ _ _ (name p) H3 Hl2) as [-> _].
  eapply visit_copies_original; eauto.
  - eapply for_each_visit_grows; eauto.
  - eapply for_each_visit_keeps; eauto.
  - rewrite Ho. apply andb_false_r.
Qed.

Lemma fold_first_writer (l1 l2 : list path) (p : path) (acc a : Z * Z)
    (fs fs' : node) (tr : list event) :
  for_each (l1 ++ p :: l2) visit' acc fs = (Ok a, fs', tr) ->
  overwrite = false ->
  isfile fs p = true -> (forall x, p <> child outdir x) ->
  present fs (child outdir (name p)) = false ->
  (forall q, In q l1 -> name q <> name p) ->
  read fs' (child outdir (name p)) = read fs p.
Proof.
  intros H Ho Hfile Hout Habs Hl1.
  destruct (for_each_split _ _ _ _ _ _ _ _ H)
    as (a1 & s1 & t1 & a2 & s2 & t2 & t3 & H1 & H2 & H3 & _).
  destruct (fold_untouched_name _ _ _ _ _ _ (name p) H1 Hl1) as [_ Hp1].
  rewrite Habs in Hp1.
  assert (Hnd : isdir fs (child outdir (name p)) = false).
  { unfold isdir, present in *.
    destruct (observe fs (child outdir (name p))); congruence. }
  assert (Hrd : read s2 (child outdir (name p)) = read fs p).
  { eapply visit_copies_original; eauto.
    - eapply for_each_visit_grows; eauto.
    - eapply for_each_visit_keeps; eauto.
    - now rewrite Hp1. }
  rewrite <- Hrd.
  eapply (fold_no_overwrite _ _ _ _ _ _ _ _ _ _ _ _ H3 Ho).
  assert (Hs1 : isfile s1 p = true).
  { pose proof (for_each_visit_grows _ _ _ _ _ _ _ _ _ _ _ _ H1) as (_ & F & _).
    auto. }
  eapply visit_target_present; eauto.
Qed.

(** *** What the copies counted have written *)

Lemma visit_ok_no_failed (p : path) (acc a : Z * Z) (fs fs' : node)
    (tr : list event) :
  visit' p acc fs = (Ok a, fs', tr) -> failed tr = [].
Proof.
  intros H. apply visit_inv in H. cbv zeta in H.
  destruct H as [(_ & _ & _ & ->)
                |[(_ & _ & _ & _ & _ & ->)
                 |[(data & e & _ & _ & _ & _ & Hr & _)
                  |[(data & e & _ & _ & _ & _ & Hr & _)
                   |(data & _ & _ & _ & _ & _ & _ & _ & _ & ->)]]]];
    try discriminate; try reflexivity.
  now destruct verbose.
Qed.

Lemma fold_ok_no_failed (l : list path) (acc : Z * Z) (fs fs' : node)
    (r : result (Z * Z)) (tr : list event) :
  for_each l visit' acc fs = (r, fs', tr) ->
  forall a, r = Ok a -> failed tr = [].
Proof.
  revert l acc fs r fs' tr. visit_fold_induction.
  - reflexivity.
  - intros p l acc fs e fs1 tr1 H a Ha. discriminate.
  - intros p l acc fs a fs1 tr1 r fs' tr2 H1 H2 IH b Hb.
    rewrite failed_app, (visit_ok_no_failed _ _ _ _ _ _ H1), (IH b Hb).
    reflexivity.
Qed.

(** Every path that a completed copy wrote is a plain file afterwards. *)
Lemma fold_copied_written (l : list path) (acc : Z * Z) (fs fs' : node)
    (r : result (Z * Z)) (tr : list event) :
  for_each l visit' acc fs = (r, fs', tr) ->
  forall c, In c (copied tr) -> isfile fs' (snd c) = true.
Proof.
  assert (Hv : forall p acc fs fs' r tr,
             visit' p acc fs = (r, fs', tr) ->
             forall c, In c (copied tr) -> isfile fs' (snd c) = true).
  { intros p acc0 fs0 fs0' r0 tr0 H c Hc.
    apply visit_trace in H. destruct H as (_ & _ & _ & _ & Hcp & _).
    destruct (Hcp c Hc) as (_ & _ & Hf & _ & Hr).
    unfold isfile, read in *.
    destruct (observe fs0 p); try discriminate.
    destruct (observe fs0' (snd c)); congruence. }
  revert l acc fs r fs' tr. visit_fold_induction.
  - intros acc fs c [].
  - intros p l acc fs e fs1 tr1 H. eapply Hv; eauto.
  - intros p l acc fs a fs1 tr1 r fs' tr2 H1 H2 IH c Hc.
    rewrite copied_app in Hc. apply in_app_or in Hc.
    destruct Hc as [Hc|Hc]; [|auto].
    destruct (for_each_visit_grows _ _ _ _ _ _ _ _ _ _ _ _ H2) as (_ & F & _).
    apply F. eapply Hv; eauto.
Qed.

(** When the loop returns, the target of a completed copy holds the bytes
    that the source of the last copy onto it had when the loop began. *)
Lemma fold_copied_last (l : list path) (acc : Z * Z) (fs fs' : node)
    (r : result (Z * Z)) (tr : list event) :
  for_each l visit' acc fs = (r, fs', tr) ->
  forall a, r = Ok a ->
  (forall p, In p l -> forall x, p <> child outdir x) ->
  forall l1 c l2, copied tr = l1 ++ c :: l2 ->
    (forall c', In c' l2 -> snd c' <> snd c) ->
    read fs' (snd c) = read fs (fst c).
Proof.
  revert l acc fs r fs' tr. visit_fold_induction.
  - intros acc fs a _ _ l1 c l2 H. now destruct l1.
  - intros p l acc fs e fs1 tr1 H a Ha. discriminate.
  - intros p l acc fs a fs1 tr1 r fs' tr2 H1 H2 IH b Hb Hout l1 c l2 Hsplit
      Hlast.
    pose proof (visit_grows _ _ _ _ _ _ _ _ _ _ _ _ H1) as Hg.
    pose proof (visit_keeps _ _ _ _ _ _ _ _ _ _ _ _ H1) as Hk.
    assert (Hout2 : forall q, In q l -> forall x, q <> child outdir x)
      by (intros q Hq; apply Hout; now right).
    pose proof (fold_copied _ _ _ _ _ _ _ _ _ _ _ _ H2 Hout2) as Hcp2.
    assert (Hlater : forall k1 k2,
              copied tr2 = k1 ++ c :: k2 ->
              (forall c', In c' k2 -> snd c' <> snd c) ->
              read fs' (snd c) = read fs (fst c)).
    { intros k1 k2 Hk2 Hl2.
      rewrite (IH b Hb Hout2 k1 c k2 Hk2 Hl2).
      apply Hk.
      assert (Hin : In c (copied tr2))
        by (rewrite Hk2; apply in_or_app; right; now left).
      destruct (Hcp2 c Hin) as (_ & _ & Hnc & _).
      now rewrite <- (clobbered_grows _ _ _ _ Hg). }
    rewrite copied_app in Hsplit.
    destruct (visit_copied_shape _ _ _ _ _ _ _ _ _ _ _ _ H1) as [E|E];
      rewrite E in Hsplit; simpl in Hsplit.
    + eapply Hlater; eauto.
    + destruct l1 as [|c0 l1]; simpl in Hsplit.
      * injection Hsplit as <- <-. simpl.
        pose proof (visit_trace _ _ _ _ _ _ _ _ _ _ _ _ H1)
          as (_ & _ & _ & _ & Hc1 & _).
        destruct (Hc1 (p, copy_target fs p (child outdir (name p))))
          as (_ & _ & _ & _ & Hrd); [rewrite E; now left|].
        simpl in Hrd. rewrite <- Hrd.
        destruct (read_eq_dec
                    (read fs' (copy_target fs p (child outdir (name p))))
                    (read fs1 (copy_target fs p (child outdir (name p)))))
          as [Hd|Hd]; [exact Hd | exfalso].
        destruct (fold_changed _ _ _ _ _ _ _ _ _ _ _ _ H2 _ (or_introl Hd))
          as (src & _ & [Hin|Hin]).
        -- apply (Hlast _ Hin). reflexivity.
        -- rewrite (fold_ok_no_failed _ _ _ _ _ _ H2 b Hb) in Hin.
           destruct Hin.
      * injection Hsplit as _ Hsplit. eapply Hlater; eauto.
Qed.

End FurtherFold.

(** ** The top-level call *)

Section Traversal.

Variable io_fault : path -> path -> fault.
Variable print_fault : string -> option exn.
Variable dir_size : Z.

Local Notation flatten := (flatten_dir io_fault print_fault dir_size).
Local Notation flatten_at := (flatten_dir_at io_fault print_fault dir_size).
Local Notation entry := (flatten_entry io_fault print_fault dir_size).
Local Notation visit' := (visit io_fault print_fault dir_size).

(** [flatten_dir] satisfies the equation that is its source text: the test
    of line 69, then the loop of lines 72-91 with the recursive call on
    [recursions_left - 1]. *)
Lemma flatten_dir_unfold (indir outdir : path) (recursions_left : Z)
    (verbose overwrite : bool) (fs : node) :
  flatten indir outdir recursions_left verbose overwrite fs =
  if (recursions_left <? 0) || path_eqb indir outdir then ret (0, 0) fs
  else
    (paths <- iterdir indir ;;
     for_each paths
       (entry (fun p => flatten p outdir (recursions_left - 1) verbose overwrite)
          outdir verbose overwrite)
       (0, 0)) fs.
Proof.
  unfold flatten_dir.
  destruct (Z.ltb_spec recursions_left 0) as [Hneg|Hpos]; simpl.
  - replace (Z.to_nat (recursions_left + 1)) with O by lia. reflexivity.
  - replace (Z.to_nat (recursions_left + 1))
      with (S (Z.to_nat (recursions_left - 1 + 1))) by lia.
    simpl. destruct (path_eqb indir outdir); reflexivity.
Qed.

Lemma flatten_at_guard (levels : nat) (d : path) (verbose overwrite : bool)
    (fs : node) :
  flatten_at levels d d verbose overwrite fs = (Ok (0, 0), fs, []).
Proof.
  destruct levels; simpl; [reflexivity|]. now rewrite path_eqb_refl.
Qed.

(** C3. Called with the same directory as source and destination,
    [flatten_dir] returns (0, 0) at once, whatever the depth budget and the
    flags: it makes no call at all (no listing, so no recursion, and no
    copy) and the filesystem is the one it was given. *)
Theorem self_copy_guard (d : path) (recursions_left : Z)
    (verbose overwrite : bool) (fs : node) :
  flatten d d recursions_left verbose overwrite fs = (Ok (0, 0), fs, []).
Proof. apply flatten_at_guard. Qed.


(** A traversal either is the fold over its sources, or fails at once
    because [indir] cannot be listed. *)
Lemma flatten_at_fold_or_fail (levels : nat) (indir outdir : path)
    (verbose overwrite : bool) (fs fs' : node) (r : result (Z * Z))
    (tr : list event) :
  flatten_at levels indir outdir verbose overwrite fs = (r, fs', tr) ->
  for_each (sources fs outdir levels indir)
    (visit' outdir verbose overwrite) (0, 0) fs = (r, fs', file_events tr) \/
  (isdir fs indir = false /\ fs' = fs /\ tr = [EvIterdir indir] /\
   exists e, r = Raise e).
Proof.
  intros H.
  destruct levels as [|l].
  { left. eapply flatten_at_as_fold; eauto. }
  destruct (path_eq_dec indir outdir) as [E|E].
  { left. eapply flatten_at_as_fold; eauto. }
  destruct (isdir fs indir) eqn:Ed.
  { left. eapply flatten_at_as_fold; eauto. }
  right. simpl in H. apply path_eqb_neq in E. rewrite E in H.
  unfold bind, iterdir in H. unfold isdir in Ed.
  destruct (observe fs indir); try discriminate;
    injection H as <- <- <-; eauto.
Qed.

Lemma flatten_at_ok_fold (levels : nat) (indir outdir : path)
    (verbose overwrite : bool) (fs fs' : node) (a : Z * Z)
    (tr : list event) :
  flatten_at levels indir outdir verbose overwrite fs = (Ok a, fs', tr) ->
  for_each (sources fs outdir levels indir)
    (visit' outdir verbose overwrite) (0, 0) fs = (Ok a, fs', file_events tr).
Proof.
  intros H. apply flatten_at_fold_or_fail in H.
  destruct H as [H|(_ & _ & _ & e & He)]; [exact H | discriminate].
Qed.

(** The counts of a traversal that returns. *)
Lemma flatten_at_counts (levels : nat) (indir outdir : path)
    (verbose overwrite : bool) (fs fs' : node) (a : Z * Z)
    (tr : list event) :
  flatten_at levels indir outdir verbose overwrite fs = (Ok a, fs', tr) ->
  fst a = Z.of_nat (List.length (copied tr)) /\
  snd a = sumZ (stat_sizes tr) /\
  stat_sizes tr = map (fun c => file_size fs (fst c)) (copied tr).
Proof.
  intros H. apply flatten_at_ok_fold in H.
  pose proof (fold_counts _ _ _ _ _ _ _ _ _ _ _ _ H _ eq_refl) as (H1 & H2 & _).
  pose proof (fold_sizes _ _ _ _ _ _ _ _ _ _ _ _ H
                (sources_not_in_outdir _ _ _ _)) as H3.
  rewrite copied_file_events in *. rewrite stat_sizes_file_events in *.
  simpl in H1, H2. auto.
Qed.

(** C4. When a traversal returns, [n_files] is the number of copies that
    completed and [n_bytes] is the sum of the sizes of the files copied, as
    [stat] reported them right after each copy, which are the sizes these
    files had when the traversal began; both are nonnegative.  The copies
    counted are copies made: every one of them wrote a plain file of the
    final filesystem, [outdir / name] or the entry [name] inside it, and
    that file holds the bytes of the source of the last copy onto it.  The
    counts start from (0, 0) by [flatten_dir_unfold], and no iteration of
    the loop returns counts smaller than those it was given. *)
Theorem aggregate_counts (indir outdir : path) (recursions_left : Z)
    (verbose overwrite : bool) (fs fs' : node) (n_files n_bytes : Z)
    (tr : list event) :
  flatten indir outdir recursions_left verbose overwrite fs
    = (Ok (n_files, n_bytes), fs', tr) ->
  n_files = Z.of_nat (List.length (copied tr)) /\
  n_bytes = sumZ (stat_sizes tr) /\
  n_bytes = sumZ (map (fun c => file_size fs (fst c)) (copied tr)) /\
  0 <= n_files /\ 0 <= n_bytes /\
  (forall p acc fs0 acc' fs1 tr1,
      entry (fun q => flatten q outdir (recursions_left - 1) verbose overwrite)
        outdir verbose overwrite p acc fs0 = (Ok acc', fs1, tr1) ->
      fst acc <= fst acc' /\ snd acc <= snd acc') /\
  (forall c, In c (copied tr) ->
     isfile fs (fst c) = true /\ isfile fs' (snd c) = true /\
     (snd c = child outdir (name (fst c)) \/
      snd c = child (child outdir (name (fst c))) (name (fst c)))) /\
  (forall l1 c l2, copied tr = l1 ++ c :: l2 ->
     (forall c', In c' l2 -> snd c' <> snd c) ->
     read fs' (snd c) = read fs (fst c)).
Proof.
  intros H. unfold flatten_dir in H.
  destruct (flatten_at_counts _ _ _ _ _ _ _ _ _ H) as (H1 & H2 & H3).
  simpl in H1, H2.
  assert (Hnn : forall l, 0 <= sumZ (map (fun c : path * path =>
                                            file_size fs (fst c)) l))
    by (intros l; apply sumZ_map_nonneg; intros; apply file_size_nonneg).
  pose proof (flatten_at_ok_fold _ _ _ _ _ _ _ _ _ H) as F.
  refine (conj H1 (conj H2 (conj _ (conj _ (conj _ (conj _ (conj _ _))))))).
  - now rewrite <- H3.
  - lia.
  - rewrite H2, H3. apply Hnn.
  - intros p acc fs0 acc' fs1 tr1 H0. split.
    + destruct (isdir fs0 p) eqn:Ed.
      * rewrite flatten_entry_dir in H0 by exact Ed.
        destruct (flatten p outdir (recursions_left - 1) verbose overwrite fs0)
          as [[[sub|e] fs2] tr2] eqn:Er; [|discriminate].
        injection H0 as <- _ _. unfold flatten_dir in Er.
        destruct (flatten_at_counts _ _ _ _ _ _ _ _ _ Er) as (E1 & _).
        simpl. lia.
      * rewrite flatten_entry_file in H0 by exact Ed.
        destruct (visit' outdir verbose overwrite p acc fs0)
          as [[r1 fs2] tr2] eqn:Ev.
        injection H0 as -> _ _.
        apply visit_trace_ok in Ev. lia.
    + destruct (isdir fs0 p) eqn:Ed.
      * rewrite flatten_entry_dir in H0 by exact Ed.
        destruct (flatten p outdir (recursions_left - 1) verbose overwrite fs0)
          as [[[sub|e] fs2] tr2] eqn:Er; [|discriminate].
        injection H0 as <- _ _. unfold flatten_dir in Er.
        destruct (flatten_at_counts _ _ _ _ _ _ _ _ _ Er) as (_ & E2 & E3).
        simpl. rewrite E2, E3.
        pose proof (sumZ_map_nonneg
                      (fun c : path * path => file_size fs0 (fst c))
                      (copied tr2) (fun x _ => file_size_nonneg fs0 (fst x))).
        lia.
      * rewrite flatten_entry_file in H0 by exact Ed.
        destruct (visit' outdir verbose overwrite p acc fs0)
          as [[r1 fs2] tr2] eqn:Ev.
        injection H0 as -> _ _.
        pose proof (visit_trace _ _ _ _ _ _ _ _ _ _ _ _ Ev)
          as (_ & _ & _ & Hs & _).
        apply visit_trace_ok in Ev. destruct Ev as (_ & _ & Hb & _).
        rewrite Hb, Hs.
        pose proof (sumZ_map_nonneg
                      (fun c : path * path => file_size fs0 (fst c))
                      (copied tr2) (fun x _ => file_size_nonneg fs0 (fst x))).
        lia.
  - intros c Hc. rewrite <- copied_file_events in Hc.
    refine (conj _ (conj _ _)).
    + eapply sources_isfile.
      apply (fold_copied_in _ _ _ _ _ _ _ _ _ _ _ _ F _ Hc).
    + apply (fold_copied_written _ _ _ _ _ _ _ _ _ _ _ _ F _ Hc).
    + apply (fold_copied_target _ _ _ _ _ _ _ _ _ _ _ _ F _ Hc).
  - intros l1 c l2 Hsplit Hlast. rewrite <- copied_file_events in Hsplit.
    apply (fold_copied_last _ _ _ _ _ _ _ _ _ _ _ _ F _ eq_refl
             (sources_not_in_outdir _ _ _ _) l1 c l2 Hsplit Hlast).
Qed.

Lemma flatten_at_visited (levels : nat) (indir outdir : path)
    (verbose overwrite : bool) (fs fs' : node) (a : Z * Z)
    (tr : list event) :
  flatten_at levels indir outdir verbose overwrite fs = (Ok a, fs', tr) ->
  visited tr = sources fs outdir levels indir.
Proof.
  intros H. apply flatten_at_ok_fold in H.
  destruct (fold_visited _ _ _ _ _ _ _ _ _ _ _ _ H
              (sources_isfile _ _ _ _)) as (rest & Hl & Hr).
  rewrite (Hr a eq_refl), app_nil_r, visited_file_events in Hl. now symmetry.
Qed.

Lemma in_file_events (ev : event) (tr : list event) :
  In ev (file_events tr) -> In ev tr.
Proof. intros H. apply filter_In in H. tauto. Qed.

(** C1. A call with [maxDepth < 0] does nothing and returns (0, 0).  When
    the destination is none of the directories of the source tree, a
    traversal that returns has visited exactly the plain files at
    subdirectory nesting depth [k <= maxDepth] below [indir], each of them
    once; each file visited was copied, unless its target already existed
    and [overwrite] was off; and a file visited whose name no other file
    visited bears, and whose target was not there (or, with [overwrite]
    on, was not a directory), has its bytes in [outdir / name] when the
    traversal returns. *)
Theorem depth_bound (indir outdir : path) (maxDepth : Z)
    (verbose overwrite : bool) (fs : node) :
  (maxDepth < 0 ->
   flatten indir outdir maxDepth verbose overwrite fs = (Ok (0, 0), fs, [])) /\
  (wf_node fs = true ->
   (forall d, below indir d -> isdir fs d = true -> d <> outdir) ->
   forall counts fs' tr,
     flatten indir outdir maxDepth verbose overwrite fs
       = (Ok counts, fs', tr) ->
     NoDup (visited tr) /\
     (forall p, In p (visited tr) <->
        exists k, Z.of_nat k <= maxDepth /\ file_at_depth fs indir k p) /\
     (forall p, In p (visited tr) ->
        In p (map fst (copied tr)) \/
        (overwrite = false /\
         In (EvExists (child outdir (name p)) true) tr)) /\
     (forall p, In p (visited tr) ->
        (forall q, In q (visited tr) -> name q = name p -> q = p) ->
        present fs (child outdir (name p)) = false \/
        (overwrite = true /\ isdir fs (child outdir (name p)) = false) ->
        exists data,
          read fs p = Some data /\
          read fs' (child outdir (name p)) = Some data)).
Proof.
  split.
  - intros Hneg. unfold flatten_dir.
    replace (Z.to_nat (maxDepth + 1)) with O by lia. reflexivity.
  - intros Hwf Hsep counts fs' tr H. unfold flatten_dir in H.
    pose proof (flatten_at_visited _ _ _ _ _ _ _ _ _ H) as Hv.
    assert (Hs : sources fs outdir (Z.to_nat (maxDepth + 1)) indir =
                 files_within fs (Z.to_nat (maxDepth + 1)) indir).
    { apply sources_files_within. intros rel. apply Hsep. now exists rel. }
    assert (Hnd : NoDup (visited tr)).
    { rewrite Hv, Hs. now apply NoDup_files_within. }
    pose proof (flatten_at_ok_fold _ _ _ _ _ _ _ _ _ H) as F.
    refine (conj Hnd (conj _ (conj _ _))).
    + intros p. split.
      * rewrite Hv, Hs. intros Hin. apply in_files_within in Hin.
        destruct Hin as (k & Hk & Hf). exists k. split; [lia | exact Hf].
      * rewrite Hv, Hs. intros (k & Hk & Hf). apply in_files_within.
        exists k. split; [lia | exact Hf].
    + intros p Hp. rewrite Hv in Hp.
      destruct (fold_copied_or_kept _ _ _ _ _ _ _ _ _ _ _ _ F _ eq_refl
                  (sources_isfile _ _ _ _) p Hp) as [Hc|[Ho Hev]].
      * left. now rewrite copied_file_events in Hc.
      * right. split; [exact Ho | now apply in_file_events].
    + intros p Hp Huniq Htarget.
      assert (Hsrc : In p (sources fs outdir (Z.to_nat (maxDepth + 1)) indir))
        by (now rewrite <- Hv).
      assert (Hfile : isfile fs p = true) by (eapply sources_isfile; eauto).
      assert (Hdata : exists data, read fs p = Some data).
      { unfold isfile, read in *. destruct (observe fs p); try discriminate.
        eauto. }
      destruct Hdata as [data Hdata]. exists data. split; [exact Hdata|].
      rewrite <- Hdata.
      destruct (in_split _ _ Hp) as (l1 & l2 & Hsplit).
      assert (Hother : forall q, In q (l1 ++ l2) -> name q <> name p).
      { intros q Hq Hn. rewrite Hsplit in Hnd, Huniq.
        apply NoDup_remove_2 in Hnd. apply Hnd.
        rewrite <- (Huniq q); [exact Hq | | exact Hn].
        apply in_app_or in Hq. apply in_or_app.
        destruct Hq; [now left | right; now right]. }
      rewrite <- Hv, Hsplit in F.
      destruct overwrite.
      * eapply (fold_last_writer io_fault print_fault dir_size); eauto.
        -- eapply sources_not_in_outdir; eauto.
        -- destruct Htarget as [Ha|[_ Hd]]; [|exact Hd].
           unfold present, isdir in *.
           destruct (observe fs (child outdir (name p))); congruence.
        -- intros q Hq. apply Hother. apply in_or_app. now right.
      * eapply (fold_first_writer io_fault print_fault dir_size); eauto.
        -- eapply sources_not_in_outdir; eauto.
        -- destruct Htarget as [Ha|[Ho _]]; [exact Ha | discriminate].
        -- intros q Hq. apply Hother. apply in_or_app. now left.
Qed.

Lemma visit_all_events (ok : event -> Prop) (outdir : path)
    (verbose overwrite : bool) (p : path) (acc : Z * Z) (fs : node) :
  (forall ev, is_walk ev = false -> ok ev) ->
  all_events ok (visit' outdir verbose overwrite p acc fs).
Proof.
  intros Hok. unfold all_events.
  destruct (visit' outdir verbose overwrite p acc fs) as [[r fs'] tr] eqn:E.
  simpl. rewrite <- (visit_file_events _ _ _ _ _ _ _ _ _ _ _ _ E).
  apply Forall_forall. intros ev Hev. apply filter_In in Hev.
  apply Hok. now destruct (is_walk ev).
Qed.

(** No directory at or below [outdir] is ever listed, unless the walk
    starts strictly inside [outdir]. *)
Lemma flatten_at_entered (levels : nat) (indir outdir : path)
    (verbose overwrite : bool) (fs : node) :
  (below outdir indir -> indir = outdir) ->
  all_events (fun ev => match ev with
                        | EvIterdir p => ~ below outdir p
                        | _ => True
                        end)
    (flatten_at levels indir outdir verbose overwrite fs).
Proof.
  revert indir fs. induction levels as [|l IH]; intros indir fs Hq; simpl.
  - constructor.
  - destruct (path_eqb indir outdir) eqn:E; [constructor|].
    apply path_eqb_neq in E.
    assert (Hlist : forall ns, all_events
              (fun ev => match ev with
                         | EvIterdir p => ~ below outdir p
                         | _ => True
                         end)
              (for_each (map (child indir) ns)
                 (entry (fun p => flatten_at l p outdir verbose overwrite)
                    outdir verbose overwrite) (0, 0) fs)).
    { intros ns. apply all_events_for_each. intros c acc fs0 Hc.
      apply in_map_iff in Hc. destruct Hc as (n & <- & _).
      unfold flatten_entry. apply all_events_bind.
      - repeat constructor.
      - intros [|] fs1.
        + apply all_events_bind.
          * apply IH. intros Hb. apply below_child in Hb.
            destruct Hb as [Hb|Hb]; [auto | now apply Hq in Hb].
          * intros a fs2. constructor.
        + apply visit_all_events. now intros []. }
    unfold bind, iterdir.
    destruct (observe fs indir) as [|d|ns];
      try (repeat constructor; intros Hb; now apply Hq in Hb).
    specialize (Hlist ns). unfold all_events in *.
    destruct (for_each _ _ _ fs) as [[r fs'] tr]. simpl in *.
    constructor; [|exact Hlist]. intros Hb. now apply Hq in Hb.
Qed.

Lemma flatten_at_sources (levels : nat) (indir outdir : path)
    (verbose overwrite : bool) (fs fs' : node) (r : result (Z * Z))
    (tr : list event) :
  flatten_at levels indir outdir verbose overwrite fs = (r, fs', tr) ->
  (forall p, In p (visited tr) -> In p (sources fs outdir levels indir)) /\
  (forall c, In c (copy_calls tr) ->
     In (fst c) (sources fs outdir levels indir) /\
     snd c = child outdir (name (fst c))).
Proof.
  intros H. apply flatten_at_fold_or_fail in H.
  destruct H as [H|(_ & _ & -> & _)].
  - split.
    + intros p Hp. rewrite <- visited_file_events in Hp.
      destruct (fold_visited _ _ _ _ _ _ _ _ _ _ _ _ H
                  (sources_isfile _ _ _ _)) as (rest & -> & _).
      apply in_or_app. now left.
    + intros c Hc. rewrite <- copy_calls_file_events in Hc.
      eapply fold_copy_calls; eauto.
  - split; intros x [].
Qed.

(** C10. The guard of line 69 holds at every level of the recursion: a
    call whose source is [outdir] returns (0, 0) without a single call,
    whatever the budget.  Hence, when the destination is a directory nested
    inside the source tree, nothing at or below it is listed, visited as a
    plain file or passed to [shutil.copy] as a source: what was copied into
    [outdir] is never copied again in the same traversal. *)
Theorem guard_at_every_level (indir outdir : path) (recursions_left : Z)
    (verbose overwrite : bool) (fs fs' : node) (r : result (Z * Z))
    (tr : list event) :
  below indir outdir -> indir <> outdir -> isdir fs outdir = true ->
  flatten indir outdir recursions_left verbose overwrite fs = (r, fs', tr) ->
  (forall budget fs0,
      flatten outdir outdir budget verbose overwrite fs0
        = (Ok (0, 0), fs0, [])) /\
  (forall p, below outdir p ->
      ~ In p (entered tr) /\ ~ In p (visited tr) /\
      forall dst res, ~ In (EvCopy p dst res) tr).
Proof.
  intros Hin Hne Hout H.
  split; [intros; apply flatten_at_guard|].
  assert (Hq : below outdir indir -> indir = outdir).
  { intros Hb. now apply below_antisym. }
  unfold flatten_dir in H.
  pose proof (flatten_at_entered (Z.to_nat (recursions_left + 1)) indir outdir
                verbose overwrite fs Hq) as He.
  rewrite H in He. unfold all_events in He. simpl in He.
  rewrite Forall_forall in He.
  destruct (flatten_at_sources _ _ _ _ _ _ _ _ _ H) as (Hv & Hc).
  intros p Hp. repeat split.
  - intros Hent. unfold entered in Hent. apply in_flat_map in Hent.
    destruct Hent as (ev & Hev & Hp'). specialize (He ev Hev).
    destruct ev; simpl in Hp'; try contradiction.
    destruct Hp' as [<-|[]]. auto.
  - intros Hvis. apply Hv in Hvis.
    now apply (sources_not_below_outdir _ _ _ _ _ Hout Hq) in Hvis.
  - intros dst res Hev.
    assert (Hcc : In (p, dst) (copy_calls tr)).
    { unfold copy_calls. apply in_flat_map. exists (EvCopy p dst res).
      split; [exact Hev | now left]. }
    apply Hc in Hcc. destruct Hcc as [Hs _]. simpl in Hs.
    now apply (sources_not_below_outdir _ _ _ _ _ Hout Hq) in Hs.
Qed.

(** C5. [flatten_dir] neither catches nor retries: as soon as a call of
    [shutil.copy] fails, that call is the last one the traversal makes (no
    later entry is looked at, no copy is attempted again), and the outcome
    of the whole traversal is the exception of that call, not a pair of
    counts.  In particular a plain file that passes the overwrite test and
    whose copy the operating system lets down makes its visit raise; what
    the failed copy leaves behind is the filesystem as it was, or its
    target holding the first bytes of the source. *)
Theorem io_failure_aborts (indir outdir : path) (recursions_left : Z)
    (verbose overwrite : bool) (fs fs' : node) (r : result (Z * Z))
    (tr : list event) :
  flatten indir outdir recursions_left verbose overwrite fs = (r, fs', tr) ->
  (forall src dst e, In (EvCopy src dst (Raise e)) tr ->
     r = Raise e /\
     exists tr0, tr = tr0 ++ [EvCopy src dst (Raise e)] /\
       forall s d e', ~ In (EvCopy s d (Raise e')) tr0) /\
  (forall p acc fs0 data,
     observe fs0 p = OFile data ->
     present fs0 (child outdir (name p)) && negb overwrite = false ->
     io_fault p (copy_target fs0 p (child outdir (name p))) <> NoFault ->
     exists e fs1 tr1,
       visit' outdir verbose overwrite p acc fs0 = (Raise e, fs1, tr1) /\
       ((verbose = true ->
         print_fault (copying_line (child outdir (name p))) = None) ->
        In (EvCopy p (child outdir (name p)) (Raise e)) tr1) /\
       (forall q, q <> copy_target fs0 p (child outdir (name p)) ->
          read fs1 q = read fs0 q /\ present fs1 q = present fs0 q) /\
       (fs1 = fs0 \/
        exists n,
          io_fault p (copy_target fs0 p (child outdir (name p))) = Broken n /\
          read fs1 (copy_target fs0 p (child outdir (name p)))
            = Some (firstn n data))).
Proof.
  intros H. split.
  - intros src dst e Hin.
    pose proof (aborting_flatten_at io_fault print_fault dir_size
                  (Z.to_nat (recursions_left + 1)) indir outdir
                  verbose overwrite fs) as Hab.
    unfold flatten_dir in H. rewrite H in Hab.
    destruct (Hab _ e Hin eq_refl) as (Hr & tr0 & Htr & Hq). simpl in *.
    split; [exact Hr|]. exists tr0. split; [exact Htr|].
    intros s d e' Hin'. specialize (Hq _ Hin'). discriminate.
  - intros p acc fs0 data Hobs Hsk Hio.
    destruct (visit' outdir verbose overwrite p acc fs0)
      as [[r1 fs1] tr1] eqn:Ev.
    apply visit_inv in Ev. cbv zeta in Ev.
    destruct Ev as [(Hf & _)
                   |[(Hf & Hp & Ho & _)
                    |[(data' & e & _ & _ & Hv & Hpf & -> & -> & ->)
                     |[(data' & e & Hobs' & Hsk' & Hpo & Hcf & -> & ->)
                      |(data' & Hobs' & Hsk' & Hpo & Hne & Hio' & _)]]]].
    + unfold isfile in Hf. rewrite Hobs in Hf. discriminate.
    + rewrite Hp, Ho in Hsk. discriminate.
    + exists e, fs0. eexists. split; [reflexivity|].
      split; [|split; [auto | now left]].
      intros Hpo. rewrite (Hpo Hv) in Hpf. discriminate.
    + exists e, fs1. eexists. split; [reflexivity|].
      split; [|split].
      * intros _. apply in_or_app. right. apply in_or_app. right. now left.
      * intros q Hq. apply visit_fail_state in Hcf.
        destruct Hcf as [->|(d & n & _ & _ & _ & Hw)]; [auto|].
        split; [eapply write_read_other | eapply write_present_other]; eauto.
      * apply visit_fail_state in Hcf.
        destruct Hcf as [->|(d & n & Hd & _ & Hn & Hw)]; [now left | right].
        exists n. split; [exact Hn|].
        rewrite Hobs in Hd. injection Hd as <-.
        destruct (write_observe _ _ _ _ Hw) as (Hq & _).
        unfold read. now rewrite Hq.
    + congruence.
Qed.

(** C8, as amended.  The run without [verbose] prints nothing.  The run
    with [verbose] prints one line per call of [shutil.copy], in order,
    naming its [outfile], and before the call: so exactly one line per
    file copied when it returns, none for a file skipped, and one for the
    file whose copy fails.  And [verbose] changes nothing but the output
    provided standard output takes these lines: then the run with
    [verbose] ends the same way (same counts or same exception), leaves
    the same filesystem and makes the same calls, the prints apart. *)
Theorem verbose_noninterference (indir outdir : path) (recursions_left : Z)
    (overwrite : bool) (fs fs' : node) (r : result (Z * Z))
    (tr0 : list event) :
  flatten indir outdir recursions_left false overwrite fs = (r, fs', tr0) ->
  printed tr0 = [] /\
  (forall r1 fs1 tr1,
     flatten indir outdir recursions_left true overwrite fs
       = (r1, fs1, tr1) ->
     printed tr1 = map (fun c => copying_line (snd c)) (copy_calls tr1) /\
     (forall counts, r1 = Ok counts ->
        printed tr1 =
          map (fun c => copying_line (child outdir (name (fst c))))
            (copied tr1))) /\
  ((forall c, In c (copy_calls tr0) ->
      print_fault (copying_line (snd c)) = None) ->
   exists tr,
     flatten indir outdir recursions_left true overwrite fs = (r, fs', tr) /\
     no_prints tr = tr0).
Proof.
  intros H. unfold flatten_dir in *.
  refine (conj _ (conj _ _)).
  - apply flatten_at_fold_or_fail in H.
    destruct H as [H|(_ & _ & -> & _)]; [|reflexivity].
    apply fold_prints in H. now rewrite printed_file_events in H.
  - intros r1 fs1 tr1 H1.
    assert (Hp : printed tr1 =
                 map (fun c => copying_line (snd c)) (copy_calls tr1)).
    { pose proof H1 as H'. apply flatten_at_fold_or_fail in H'.
      destruct H' as [H'|(_ & _ & -> & _)]; [|reflexivity].
      apply fold_prints in H'.
      now rewrite printed_file_events, copy_calls_file_events in H'. }
    split; [exact Hp|].
    intros counts ->. rewrite Hp.
    apply flatten_at_ok_fold in H1.
    destruct (fold_counts _ _ _ _ _ _ _ _ _ _ _ _ H1 _ eq_refl)
      as (_ & _ & Hc).
    rewrite copy_calls_file_events, copied_file_events in Hc.
    rewrite Hc, map_map. reflexivity.
  - intros Hall.
    pose proof (hushed_flatten_at io_fault print_fault dir_size
                  (Z.to_nat (recursions_left + 1)) indir outdir overwrite fs)
      as Hh.
    unfold hushed in Hh. rewrite H in Hh. specialize (Hh Hall).
    destruct (flatten_at (Z.to_nat (recursions_left + 1)) indir outdir true
                overwrite fs) as [[r1 fs1] tr1].
    unfold quiet in Hh. simpl in Hh. injection Hh as -> -> ->.
    exists tr1. auto.
Qed.







Lemma read_present_observe (fs fs' : node) (p : path) :
  (forall ns, observe fs p <> ODir ns) ->
  read fs' p = read fs p -> present fs' p = present fs p ->
  observe fs' p = observe fs p.
Proof.
  unfold read, present. intros Hnd Hr Hp.
  destruct (observe fs p) eqn:E, (observe fs' p) eqn:E'; try congruence;
    exfalso; eapply Hnd; reflexivity.
Qed.

(** C9, as amended.  Whatever way a traversal ends: no directory is created
    and nothing is removed or changes kind; every path whose bytes or
    presence changed was written by a copy, one that completed or the one
    that failed, and is the target [outdir / name] of its source or, when
    that target is a directory, the entry [name] inside it; a traversal
    that returns has no failed copy; so an entry of [outdir] whose name is
    that of no source copied, or tried, keeps its bytes; no file that was
    copied from is modified; and when the destination lies outside the
    source tree and the source is not an immediate subdirectory of the
    destination, nothing at or below the source changes at all. *)
Theorem frame_condition (indir outdir : path) (recursions_left : Z)
    (verbose overwrite : bool) (fs fs' : node) (r : result (Z * Z))
    (tr : list event) :
  flatten indir outdir recursions_left verbose overwrite fs = (r, fs', tr) ->
  (forall p, isdir fs' p = isdir fs p) /\
  (forall p, isfile fs p = true -> isfile fs' p = true) /\
  (forall q, read fs' q <> read fs q \/ present fs' q <> present fs q ->
     exists src,
       (In (src, q) (copied tr) \/
        In (src, child outdir (name src)) (failed tr)) /\
       (q = child outdir (name src) \/
        q = child (child outdir (name src)) (name src))) /\
  (forall counts, r = Ok counts -> failed tr = []) /\
  (forall x, (forall c, In c (copied tr) -> name (fst c) <> x) ->
     (forall c, In c (failed tr) -> name (fst c) <> x) ->
     read fs' (child outdir x) = read fs (child outdir x)) /\
  (forall c, In c (copied tr) -> read fs' (fst c) = read fs (fst c)) /\
  (~ below indir outdir -> (forall x, indir <> child outdir x) ->
   forall p, below indir p -> observe fs' p = observe fs p).
Proof.
  unfold flatten_dir. set (levels := Z.to_nat (recursions_left + 1)).
  intros H. apply flatten_at_fold_or_fail in H.
  destruct H as [F|(_ & -> & -> & e & ->)].
  2:{ refine (conj _ (conj _ (conj _ (conj _ (conj _ (conj _ _))))));
        auto; try discriminate.
      intros q [Hq|Hq]; congruence. }
  pose proof (for_each_visit_grows _ _ _ _ _ _ _ _ _ _ _ _ F) as (K & Fl & N).
  pose proof (for_each_visit_keeps _ _ _ _ _ _ _ _ _ _ _ _ F) as Hk.
  pose proof (fold_copied _ _ _ _ _ _ _ _ _ _ _ _ F
                (sources_not_in_outdir _ _ _ _)) as Hcp.
  pose proof (fold_changed _ _ _ _ _ _ _ _ _ _ _ _ F) as Hch.
  pose proof (fold_copy_calls _ _ _ _ _ _ _ _ _ _ _ _ F) as Hcc.
  pose proof (fold_ok_no_failed _ _ _ _ _ _ _ _ _ _ _ _ F) as Hnf.
  assert (Hfe : failed (file_events tr) = failed tr)
    by (apply flat_map_filter; now intros []).
  rewrite copied_file_events, ?Hfe in *.
  assert (Hb : forall q,
             read fs' q <> read fs q \/ present fs' q <> present fs q ->
             exists src,
               In src (sources fs outdir levels indir) /\
               (In (src, q) (copied tr) \/
                In (src, child outdir (name src)) (failed tr)) /\
               (q = child outdir (name src) \/
                q = child (child outdir (name src)) (name src))).
  { intros q Hq. destruct (Hch q Hq) as (src & E & Hsrc). exists src.
    refine (conj _ (conj Hsrc _)).
    - destruct Hsrc as [Hin|Hin].
      + apply (Hcp _ Hin).
      + apply failed_copy_calls in Hin.
        rewrite <- copy_calls_file_events in Hin.
        apply (Hcc _ Hin).
    - rewrite E. unfold copy_target.
      destruct (isdir fs (child outdir (name src))); auto. }
  refine (conj K (conj Fl (conj _ (conj Hnf (conj _ (conj _ _)))))).
  - intros q Hq. destruct (Hb q Hq) as (src & _ & H1 & H2). eauto.
  - intros x Hx Hy.
    destruct (read_eq_dec (read fs' (child outdir x))
                (read fs (child outdir x))) as [Hd|Hd];
      [exact Hd | exfalso].
    destruct (Hb _ (or_introl Hd)) as (src & _ & Hin & [E|E]).
    + apply child_inj in E. destruct E as [_ E].
      destruct Hin as [Hin|Hin];
        [apply (Hx _ Hin) | apply (Hy _ Hin)]; now symmetry.
    + apply child_inj in E. destruct E as [E _].
      symmetry in E. now apply child_neq_self in E.
  - intros c Hc. destruct (Hcp c Hc) as (_ & _ & Hnc & _). now apply Hk.
  - intros Hsep1 Hsep2 p Hp.
    assert (Hout : p <> outdir) by (intros ->; contradiction).
    assert (Hch1 : forall x, p <> child outdir x).
    { intros x ->. apply below_child in Hp. destruct Hp as [Hp|Hp]; [|auto].
      now apply (Hsep2 x). }
    assert (Hno : (forall ns, observe fs p <> ODir ns) ->
              ~ (read fs' p <> read fs p \/ present fs' p <> present fs p)).
    { intros Hnd Hq. destruct (Hb p Hq) as (src & Hsrc & _ & [E|E]).
      - now apply (Hch1 (name src)).
      - rewrite E in Hp. apply below_child in Hp. destruct Hp as [Hp|Hp].
        + destruct levels as [|l]; [destruct Hsrc|].
          apply in_sources in Hsrc. destruct Hsrc as (_ & ns & n & Hd' & _).
          apply (Hnd ns). rewrite E, <- Hp. exact Hd'.
        + apply below_child in Hp. destruct Hp as [Hp|Hp];
            [now apply (Hsep2 (name src)) | contradiction]. }
    destruct (observe fs p) as [|d|ns] eqn:Eo.
    3:{ specialize (N p Hout Hch1). unfold names in N. rewrite Eo in N.
        destruct (observe fs' p); congruence. }
    all: rewrite <- Eo; apply read_present_observe;
      [rewrite Eo; discriminate | |].
    1,3: destruct (read_eq_dec (read fs' p) (read fs p)) as [Hd|Hd];
      [exact Hd | exfalso; apply Hno; [discriminate | auto]].
    all: destruct (bool_dec (present fs' p) (present fs p)) as [Hd|Hd];
      [exact Hd | exfalso; apply Hno; [discriminate | auto]].
Qed.

End Traversal.

(** ** The properties at concrete inputs *)

Module Witnesses.

Import Examples.

(** The depth boundary of the specification: budget 0 copies [a.txt] only,
    budget 1 copies [a.txt] and [b.txt], budget -1 copies nothing. *)
Example depth_boundary :
  fst (fst (flatten_dir no_fault print_ok 4096 ["root"] ["out"] 0 false false
              spec_tree))
    = Ok (1, 10) /\
  fst (fst (flatten_dir no_fault print_ok 4096 ["root"] ["out"] 1 false false
              spec_tree))
    = Ok (2, 30) /\
  fst (fst (flatten_dir no_fault print_ok 4096 ["root"] ["out"] (-1) false
              false spec_tree))
    = Ok (0, 0).
Proof. repeat split; reflexivity. Qed.

Lemma depth_bound_witness :
  exists counts fs' tr,
    flatten_dir no_fault print_ok 4096 ["root"] ["out"] 1 false false spec_tree
      = (Ok counts, fs', tr) /\
    visited tr = [["root"; "a.txt"]; ["root"; "sub"; "b.txt"]] /\
    read fs' ["out"; "a.txt"] = Some (zeros 10) /\
    read fs' ["out"; "b.txt"] = Some (zeros 20) /\
    read fs' ["out"; "c.txt"] = None /\
    NoDup (visited tr) /\
    (forall p, In p (visited tr) <->
       exists k, Z.of_nat k <= 1 /\ file_at_depth spec_tree ["root"] k p) /\
    (forall p, In p (visited tr) ->
       In p (map fst (copied tr)) \/
       (false = false /\ In (EvExists (child ["out"] (name p)) true) tr)).
Proof.
  eexists _, _, _. split; [reflexivity|]. split; [reflexivity|].
  destruct (proj2 (depth_bound no_fault print_ok 4096 ["root"] ["out"] 1
                     false false spec_tree)
              eq_refl
              ltac:(intros d [rel ->] _; discriminate)
              _ _ _ eq_refl)
    as (H1 & H2 & H3 & H4).
  split; [|split; [|split; [reflexivity | auto]]].
  - destruct (H4 ["root"; "a.txt"]) as (data & Hd & Hr).
    + left. reflexivity.
    + intros q [<-|[<-|[]]] Hn; [reflexivity | discriminate].
    + left. reflexivity.
    + injection Hd as <-. exact Hr.
  - destruct (H4 ["root"; "sub"; "b.txt"]) as (data & Hd & Hr).
    + right. left. reflexivity.
    + intros q [<-|[<-|[]]] Hn; [discriminate | reflexivity].
    + left. reflexivity.
    + injection Hd as <-. exact Hr.
Defined.


Lemma aggregate_counts_witness :
  exists fs' tr,
    flatten_dir no_fault print_ok 4096 ["root"] ["out"] 5 false false spec_tree
      = (Ok (3, 60), fs', tr) /\
    copied tr =
      [(["root"; "a.txt"], ["out"; "a.txt"]);
       (["root"; "sub"; "b.txt"], ["out"; "b.txt"]);
       (["root"; "sub"; "sub2"; "c.txt"], ["out"; "c.txt"])] /\
    read fs' ["out"; "a.txt"] = Some (zeros 10) /\
    read fs' ["out"; "b.txt"] = Some (zeros 20) /\
    read fs' ["out"; "c.txt"] = Some (zeros 30) /\
    3 = Z.of_nat (List.length (copied tr)) /\
    60 = sumZ (stat_sizes tr) /\
    60 = sumZ (map (fun c => file_size spec_tree (fst c)) (copied tr)).
Proof.
  eexists _, _. split; [reflexivity|]. split; [reflexivity|].
  destruct (aggregate_counts no_fault print_ok 4096 ["root"] ["out"] 5 false
              false spec_tree _ 3 60 _ eq_refl)
    as (H1 & H2 & H3 & _ & _ & _ & _ & H8).
  split; [|split; [|split; [|auto]]].
  - apply (H8 [] (["root"; "a.txt"], ["out"; "a.txt"])
             [(["root"; "sub"; "b.txt"], ["out"; "b.txt"]);
              (["root"; "sub"; "sub2"; "c.txt"], ["out"; "c.txt"])] eq_refl).
    intros c' [<-|[<-|[]]]; discriminate.
  - apply (H8 [(["root"; "a.txt"], ["out"; "a.txt"])]
             (["root"; "sub"; "b.txt"], ["out"; "b.txt"])
             [(["root"; "sub"; "sub2"; "c.txt"], ["out"; "c.txt"])] eq_refl).
    intros c' [<-|[]]; discriminate.
  - apply (H8 [(["root"; "a.txt"], ["out"; "a.txt"]);
               (["root"; "sub"; "b.txt"], ["out"; "b.txt"])]
             (["root"; "sub"; "sub2"; "c.txt"], ["out"; "c.txt"]) [] eq_refl).
    intros c' [].
Defined.

Lemma io_failure_aborts_witness :
  exists fs' tr,
    flatten_dir break_b print_ok 4096 ["root"] ["out"] 5 false false spec_tree
      = (Raise OSError, fs', tr) /\
    read fs' ["out"; "a.txt"] = Some (zeros 10) /\
    read fs' ["out"; "b.txt"] = Some (zeros 15) /\
    read fs' ["out"; "c.txt"] = None /\
    exists tr0,
      tr = tr0 ++ [EvCopy ["root"; "sub"; "b.txt"] ["out"; "b.txt"]
                     (Raise OSError)] /\
      forall s d e', ~ In (EvCopy s d (Raise e')) tr0.
Proof.
  eexists _, _. split; [reflexivity|]. split; [reflexivity|].
  split; [reflexivity|]. split; [reflexivity|].
  apply (proj1 (io_failure_aborts break_b print_ok 4096 ["root"] ["out"] 5
                  false false spec_tree _ _ _ eq_refl)
           ["root"; "sub"; "b.txt"] ["out"; "b.txt"] OSError).
  simpl. auto 20.
Defined.



Lemma verbose_noninterference_witness :
  exists fs' tr0 tr,
    flatten_dir no_fault print_ok 4096 ["root"] ["out"] 1 false false spec_tree
      = (Ok (2, 30), fs', tr0) /\
    flatten_dir no_fault print_ok 4096 ["root"] ["out"] 1 true false spec_tree
      = (Ok (2, 30), fs', tr) /\
    no_prints tr = tr0 /\
    printed tr0 = [] /\
    printed tr = ["Copying '/out/a.txt'"; "Copying '/out/b.txt'"] /\
    printed tr =
      map (fun c => copying_line (child ["out"] (name (fst c)))) (copied tr).
Proof.
  eexists _, _, _. split; [reflexivity|]. split; [reflexivity|].
  split; [reflexivity|].
  destruct (verbose_noninterference no_fault print_ok 4096 ["root"] ["out"] 1
              false spec_tree _ _ _ eq_refl) as (H0 & H1 & _).
  split; [exact H0|]. split; [reflexivity|].
  exact (proj2 (H1 _ _ _ eq_refl) _ eq_refl).
Defined.

Lemma frame_condition_witness :
  exists fs' tr,
    flatten_dir break_b print_ok 4096 ["root"] ["out"] 5 false false spec_tree
      = (Raise OSError, fs', tr) /\
    read fs' ["out"; "b.txt"] = Some (zeros 15) /\
    copied tr = [(["root"; "a.txt"], ["out"; "a.txt"])] /\
    failed tr = [(["root"; "sub"; "b.txt"], ["out"; "b.txt"])] /\
    (forall p, below ["root"] p -> observe fs' p = observe spec_tree p) /\
    (forall q, read fs' q <> read spec_tree q ->
       q = ["out"; "a.txt"] \/ q = ["out"; "b.txt"]).
Proof.
  eexists _, _. split; [reflexivity|]. split; [reflexivity|].
  split; [reflexivity|]. split; [reflexivity|].
  destruct (frame_condition break_b print_ok 4096 ["root"] ["out"] 5 false
              false spec_tree _ _ _ eq_refl)
    as (_ & _ & Hb & _ & _ & _ & He).
  split.
  - apply He.
    + intros [rel H]. discriminate.
    + intros x H. discriminate.
  - intros q Hq. destruct (Hb q (or_introl Hq)) as (src & [Hin|Hin] & Hs).
    + destruct Hin as [[= _ <-]|[]]. now left.
    + destruct Hin as [[= <- _]|[]]. right.
      destruct Hs as [->| ->]; [reflexivity | exfalso].
      apply Hq. reflexivity.
Defined.

Lemma guard_at_every_level_witness :
  exists r fs' tr,
    flatten_dir no_fault print_ok 4096 ["src"] ["src"; "out"] 3 false false
      nested_tree = (r, fs', tr) /\
    r = Ok (1, 1) /\
    isfile fs' ["src"; "out"; "f"] = true /\
    forall p, below ["src"; "out"] p ->
      ~ In p (entered tr) /\ ~ In p (visited tr) /\
      forall dst res, ~ In (EvCopy p dst res) tr.
Proof.
  eexists _, _, _. split; [reflexivity|]. split; [reflexivity|].
  split; [reflexivity|].
  apply (proj2 (guard_at_every_level no_fault print_ok 4096 ["src"]
                  ["src"; "out"] 3 false false nested_tree _ _ _
                  (ex_intro _ ["out"] eq_refl)
                  ltac:(discriminate) eq_refl eq_refl)).
Defined.



(** C8, as stated, fails twice.  A file whose name standard output cannot
    encode is copied by the run without [verbose], while the run with
    [verbose] raises at the line it has to print, with nothing copied: the
    two runs differ in their outcome and in the filesystem they leave.
    And a run with [verbose] whose second copy is refused has printed two
    lines for one file copied. *)
Lemma verbose_counterexample :
  (exists fs' tr,
     flatten_dir no_fault ascii_only 4096 ["src"] ["out"] 0 false false
       odd_tree = (Ok (1, 1), fs', tr) /\
     read fs' ["out"; odd_name] = Some [x01]) /\
  (exists tr,
     flatten_dir no_fault ascii_only 4096 ["src"] ["out"] 0 true false
       odd_tree = (Raise UnicodeEncodeError, odd_tree, tr) /\
     read odd_tree ["out"; odd_name] = None) /\
  (exists fs' tr,
     flatten_dir deny_b print_ok 4096 ["root"] ["out"] 1 true false spec_tree
       = (Raise OSError, fs', tr) /\
     printed tr = ["Copying '/out/a.txt'"; "Copying '/out/b.txt'"] /\
     copied tr = [(["root"; "a.txt"], ["out"; "a.txt"])]).
Proof.
  split; [|split].
  - eexists _, _. split; reflexivity.
  - eexists. split; reflexivity.
  - eexists _, _. split; [reflexivity|]. split; reflexivity.
Qed.

(** C9, as stated, fails: with the destination [src/out] inside the source
    tree, the traversal adds the file [src/out/f] to the source tree. *)
Lemma source_tree_counterexample :
  exists fs' tr,
    flatten_dir no_fault print_ok 4096 ["src"] ["src"; "out"] 0 false false
      nested_tree = (Ok (1, 1), fs', tr) /\
    below ["src"] ["src"; "out"; "f"] /\
    observe nested_tree ["src"; "out"; "f"] = OAbsent /\
    observe fs' ["src"; "out"; "f"] = OFile [x01].
Proof.
  eexists _, _. split; [reflexivity|].
  split; [now exists ["out"; "f"]|]. split; reflexivity.
Qed.

End Witnesses.


Lemma write_dir (t : node) (q : path) (ns : list string) (data : list byte) :
  observe t q = ODir ns -> write t q data = Raise IsADirectoryError.
Proof.
  revert t. induction q as [|n q IH]; intros t; unfold observe; simpl.
  - destruct t; [discriminate | reflexivity].
  - destruct t as [d|es]; [discriminate|].
    destruct (assoc n es) as [c|]; [|discriminate].
    intros H. now rewrite (IH c H).
Qed.

Section FurtherTraversal.

Variable io_fault : path -> path -> fault.
Variable print_fault : string -> option exn.
Variable dir_size : Z.

Local Notation flatten := (flatten_dir io_fault print_fault dir_size).
Local Notation flatten_at := (flatten_dir_at io_fault print_fault dir_size).
Local Notation entry := (flatten_entry io_fault print_fault dir_size).
Local Notation visit' := (visit io_fault print_fault dir_size).

(** X1. The copies [flatten_dir] attempts are well posed.  When the
    destination is a directory and either [overwrite] is off or no entry
    of the destination is a directory, a call of [shutil.copy] that raised
    was let down by the operating system: it was asked to copy a plain
    file of the source tree to its name in the destination, never a file
    onto itself, something that is not a file, or onto a directory. *)
Theorem copies_well_posed (indir outdir : path) (recursions_left : Z)
    (verbose overwrite : bool) (fs fs' : node) (r : result (Z * Z))
    (tr : list event) :
  isdir fs outdir = true ->
  overwrite = false \/ (forall x, isdir fs (child outdir x) = false) ->
  flatten indir outdir recursions_left verbose overwrite fs = (r, fs', tr) ->
  forall src dst e, In (EvCopy src dst (Raise e)) tr ->
    e = OSError /\ io_fault src dst <> NoFault /\
    dst = child outdir (name src) /\ isfile fs src = true.
Proof.
  intros Hout Hpol H src dst e Hin. unfold flatten_dir in H.
  apply flatten_at_fold_or_fail in H.
  destruct H as [H|(_ & _ & -> & _)].
  - destruct (fold_failures io_fault print_fault dir_size outdir verbose
                overwrite _ _ _ _ _ _ H Hout Hpol) with (src := src)
      (dst := dst) (e := e) as (K1 & K2 & K3 & K4).
    + intros p Hp. eapply sources_not_in_outdir; eauto.
    + apply filter_In. split; [exact Hin | reflexivity].
    + repeat split; auto. eapply sources_isfile; eauto.
  - destruct Hin as [|[]]; discriminate.
Qed.

(** X2. [flatten_dir] never creates the destination: when [outdir] is not
    a directory the traversal writes nothing, completes no copy, and can
    only return if it visited no plain file at all, with counts (0, 0). *)
Theorem missing_destination (indir outdir : path) (recursions_left : Z)
    (verbose overwrite : bool) (fs fs' : node) (r : result (Z * Z))
    (tr : list event) :
  isdir fs outdir = false ->
  flatten indir outdir recursions_left verbose overwrite fs = (r, fs', tr) ->
  fs' = fs /\ copied tr = [] /\
  (forall counts, r = Ok counts -> counts = (0, 0) /\ visited tr = []).
Proof.
  intros Hout H. unfold flatten_dir in H.
  apply flatten_at_fold_or_fail in H.
  destruct H as [H|(_ & -> & -> & e & ->)].
  - apply (fold_no_destination io_fault print_fault dir_size) in H; [|exact Hout].
    now rewrite copied_file_events, visited_file_events in H.
  - refine (conj eq_refl (conj eq_refl _)). discriminate.
Qed.

(** X3. After a traversal that returns, the destination has an entry
    called like each plain file visited; so, when the destination is none
    of the directories of the source tree, like each plain file within
    [maxDepth] levels of the source. *)
Theorem destination_complete (indir outdir : path) (maxDepth : Z)
    (verbose overwrite : bool) (fs fs' : node) (counts : Z * Z)
    (tr : list event) :
  flatten indir outdir maxDepth verbose overwrite fs = (Ok counts, fs', tr) ->
  (forall p, In p (visited tr) ->
     present fs' (child outdir (name p)) = true) /\
  ((forall d, below indir d -> isdir fs d = true -> d <> outdir) ->
   forall k p, Z.of_nat k <= maxDepth -> file_at_depth fs indir k p ->
     present fs' (child outdir (name p)) = true).
Proof.
  intros H. unfold flatten_dir in H.
  pose proof (flatten_at_visited _ _ _ _ _ _ _ _ _ _ _ _ H) as Hv.
  pose proof (flatten_at_ok_fold _ _ _ _ _ _ _ _ _ _ _ _ H) as F.
  assert (Hall : forall p,
             In p (sources fs outdir (Z.to_nat (maxDepth + 1)) indir) ->
             present fs' (child outdir (name p)) = true).
  { apply (fold_targets_present _ _ _ _ _ _ _ _ _ _ _ _ F _ eq_refl).
    apply sources_isfile. }
  split.
  - intros p Hp. apply Hall. now rewrite <- Hv.
  - intros Hsep k p Hk Hf. apply Hall.
    rewrite sources_files_within.
    + apply in_files_within. exists k. split; [lia | exact Hf].
    + intros rel. apply Hsep. now exists rel.
Qed.

(** X4. First writer wins: with [overwrite] off, an entry [x] that the
    destination did not have holds, after a traversal that returns, the
    bytes of the first file called [x] that was visited. *)
Theorem first_writer_wins (indir outdir : path) (recursions_left : Z)
    (verbose : bool) (fs fs' : node) (counts : Z * Z) (tr : list event)
    (l1 l2 : list path) (p : path) :
  flatten indir outdir recursions_left verbose false fs
    = (Ok counts, fs', tr) ->
  visited tr = l1 ++ p :: l2 ->
  (forall q, In q l1 -> name q <> name p) ->
  present fs (child outdir (name p)) = false ->
  read fs' (child outdir (name p)) = read fs p.
Proof.
  intros H Hv Hl1 Habs. unfold flatten_dir in H.
  rewrite (flatten_at_visited _ _ _ _ _ _ _ _ _ _ _ _ H) in Hv.
  apply flatten_at_ok_fold in H. rewrite Hv in H.
  assert (Hin : In p (sources fs outdir (Z.to_nat (recursions_left + 1)) indir))
    by (rewrite Hv; apply in_or_app; right; now left).
  eapply (fold_first_writer io_fault print_fault dir_size); eauto.
  - eapply sources_isfile; eauto.
  - eapply sources_not_in_outdir; eauto.
Qed.

(** X5. Last writer wins: with [overwrite] on, an entry [x] of the
    destination that is not a directory holds, after a traversal that
    returns, the bytes of the last file called [x] that was visited. *)
Theorem last_writer_wins (indir outdir : path) (recursions_left : Z)
    (verbose : bool) (fs fs' : node) (counts : Z * Z) (tr : list event)
    (l1 l2 : list path) (p : path) :
  flatten indir outdir recursions_left verbose true fs
    = (Ok counts, fs', tr) ->
  visited tr = l1 ++ p :: l2 ->
  (forall q, In q l2 -> name q <> name p) ->
  isdir fs (child outdir (name p)) = false ->
  read fs' (child outdir (name p)) = read fs p.
Proof.
  intros H Hv Hl2 Hnd. unfold flatten_dir in H.
  rewrite (flatten_at_visited _ _ _ _ _ _ _ _ _ _ _ _ H) in Hv.
  apply flatten_at_ok_fold in H. rewrite Hv in H.
  assert (Hin : In p (sources fs outdir (Z.to_nat (recursions_left + 1)) indir))
    by (rewrite Hv; apply in_or_app; right; now left).
  eapply (fold_last_writer io_fault print_fault dir_size); eauto.
  - eapply sources_isfile; eauto.
  - eapply sources_not_in_outdir; eauto.
Qed.

(** X6. A directory of the destination called like a source file [n]:
    with [overwrite] off the file is skipped, the directory counting as an
    existing target; with [overwrite] on [shutil.copy] writes the file
    inside that directory, as [outdir/n/n], while the line printed names
    [outdir/n]; and it raises [IsADirectoryError] when [outdir/n/n] is a
    directory too.  With [verbose] on, a line that cannot be printed
    raises before anything is copied. *)
Theorem copy_into_directory (recurse : path -> M (Z * Z)) (indir outdir : path)
    (n : string) (verbose : bool) (acc : Z * Z) (fs : node)
    (data : list byte) :
  indir <> child outdir n ->
  observe fs (child indir n) = OFile data ->
  isdir fs (child outdir n) = true ->
  io_fault (child indir n) (child (child outdir n) n) = NoFault ->
  entry recurse outdir verbose false (child indir n) acc fs
    = (Ok acc, fs,
       [EvIsDir (child indir n) false; EvIsFile (child indir n) true;
        EvExists (child outdir n) true]) /\
  (isdir fs (child (child outdir n) n) = false ->
   (verbose = true -> print_fault (copying_line (child outdir n)) = None) ->
   exists fs',
     entry recurse outdir verbose true (child indir n) acc fs
       = (Ok (fst acc + 1, snd acc + Z.of_nat (List.length data)), fs',
          [EvIsDir (child indir n) false; EvIsFile (child indir n) true;
           EvExists (child outdir n) true]
          ++ (if verbose then [EvPrint (copying_line (child outdir n))]
              else [])
          ++ [EvCopy (child indir n) (child outdir n)
                (Ok (child (child outdir n) n));
              EvStat (child indir n) (Z.of_nat (List.length data))]) /\
     observe fs' (child (child outdir n) n) = OFile data /\
     isdir fs' (child outdir n) = true) /\
  (isdir fs (child (child outdir n) n) = true ->
   (verbose = true -> print_fault (copying_line (child outdir n)) = None) ->
   entry recurse outdir verbose true (child indir n) acc fs
     = (Raise IsADirectoryError, fs,
        [EvIsDir (child indir n) false; EvIsFile (child indir n) true;
         EvExists (child outdir n) true]
        ++ (if verbose then [EvPrint (copying_line (child outdir n))]
            else [])
        ++ [EvCopy (child indir n) (child outdir n)
              (Raise IsADirectoryError)])) /\
  (forall e, verbose = true ->
     print_fault (copying_line (child outdir n)) = Some e ->
     entry recurse outdir verbose true (child indir n) acc fs
       = (Raise e, fs,
          [EvIsDir (child indir n) false; EvIsFile (child indir n) true;
           EvExists (child outdir n) true])).
Proof.
  intros Hne Hsrc Hdir Hio.
  assert (Hd : isdir fs (child indir n) = false)
    by (unfold isdir; now rewrite Hsrc).
  assert (Hpr : present fs (child outdir n) = true).
  { unfold isdir, present in *. destruct (observe fs (child outdir n));
      congruence. }
  assert (Htg : copy_target fs (child indir n) (child outdir n)
                = child (child outdir n) n).
  { unfold copy_target. now rewrite Hdir, name_child. }
  assert (Hpq : child indir n <> child (child outdir n) n).
  { intros E. apply child_inj in E. now destruct E. }
  assert (Hcases : forall ov r1 fs1 tr1,
            visit' outdir verbose ov (child indir n) acc fs = (r1, fs1, tr1) ->
            (ov = false /\ r1 = Ok acc /\ fs1 = fs /\
             tr1 = [EvIsFile (child indir n) true;
                    EvExists (child outdir n) true]) \/
            (ov = true /\
             exists e,
               verbose = true /\
               print_fault (copying_line (child outdir n)) = Some e /\
               r1 = Raise e /\ fs1 = fs /\
               tr1 = [EvIsFile (child indir n) true;
                      EvExists (child outdir n) true]) \/
            (ov = true /\
             (verbose = true ->
              print_fault (copying_line (child outdir n)) = None) /\
             exists e,
               write fs (child (child outdir n) n) data = Raise e /\
               r1 = Raise e /\ fs1 = fs /\
               tr1 = [EvIsFile (child indir n) true;
                      EvExists (child outdir n) true]
                     ++ (if verbose
                         then [EvPrint (copying_line (child outdir n))]
                         else [])
                     ++ [EvCopy (child indir n) (child outdir n) (Raise e)]) \/
            (ov = true /\
             (verbose = true ->
              print_fault (copying_line (child outdir n)) = None) /\
             write fs (child (child outdir n) n) data = Ok fs1 /\
             r1 = Ok (fst acc + 1, snd acc + Z.of_nat (List.length data)) /\
             tr1 = [EvIsFile (child indir n) true;
                    EvExists (child outdir n) true]
                   ++ (if verbose
                       then [EvPrint (copying_line (child outdir n))]
                       else [])
                   ++ [EvCopy (child indir n) (child outdir n)
                         (Ok (child (child outdir n) n));
                       EvStat (child indir n)
                         (Z.of_nat (List.length data))])).
  { intros ov r1 fs1 tr1 Ev. apply visit_inv in Ev. cbv zeta in Ev.
    rewrite name_child, Htg, Hpr in Ev.
    destruct Ev as [(Hf & _)
                   |[(_ & _ & Ho & -> & -> & ->)
                    |[(d' & e & Hobs' & Hsk & Hv & Hpf & -> & -> & ->)
                     |[(d' & e & Hobs' & Hsk & Hpo & Hcf & -> & ->)
                      |(d' & Hobs' & Hsk & Hpo & _ & _ & Hw & _ & -> & ->)]]]].
    - unfold isfile in Hf. rewrite Hsrc in Hf. discriminate.
    - left. auto.
    - right; left. destruct ov; [|discriminate]. split; [reflexivity|].
      exists e. auto.
    - right; right; left. destruct ov; [|discriminate].
      split; [reflexivity|]. split; [exact Hpo|].
      exists e. unfold copyfile in Hcf. apply path_eqb_neq in Hpq.
      rewrite Hpq, Hsrc, Hio in Hcf.
      destruct (write fs (child (child outdir n) n) data) as [t|e1] eqn:Ew;
        [discriminate|].
      injection Hcf as -> ->. auto.
    - right; right; right. destruct ov; [|discriminate].
      rewrite Hsrc in Hobs'. injection Hobs' as <-. auto. }
  split; [|split; [|split]].
  - rewrite flatten_entry_file by exact Hd.
    destruct (visit' outdir verbose false (child indir n) acc fs)
      as [[r1 fs1] tr1] eqn:Ev.
    destruct (Hcases _ _ _ _ Ev)
      as [(_ & -> & -> & ->)|[(Ho & _)|[(Ho & _)|(Ho & _)]]];
      [reflexivity | discriminate ..].
  - intros Hnd Hprint.
    assert (Hok : exists t, write fs (child (child outdir n) n) data = Ok t).
    { unfold isdir in Hdir, Hnd.
      destruct (observe fs (child outdir n)) as [| |ns] eqn:Eo;
        try discriminate.
      destruct (observe fs (child (child outdir n) n)) as [|d|ms] eqn:Et;
        try discriminate.
      - eapply write_new_ok; eauto.
      - eapply write_file_ok; eauto. }
    destruct Hok as [t Ht]. exists t.
    rewrite flatten_entry_file by exact Hd.
    destruct (visit' outdir verbose true (child indir n) acc fs)
      as [[r1 fs1] tr1] eqn:Ev.
    destruct (Hcases _ _ _ _ Ev)
      as [(Ho & _)
         |[(_ & e & Hv & Hpf & _)
          |[(_ & _ & e & Hw & _)|(_ & _ & Hw & -> & ->)]]];
      [discriminate | rewrite (Hprint Hv) in Hpf; discriminate
       | congruence |].
    rewrite Ht in Hw. injection Hw as <-.
    split; [reflexivity|].
    destruct (write_grows (child outdir n) fs t _ _ Ht) as (K & _).
    { exists n. left. reflexivity. }
    destruct (write_observe _ _ _ _ Ht) as (Hq & _).
    split; [exact Hq | now rewrite K].
  - intros Hdd Hprint.
    assert (Hw : write fs (child (child outdir n) n) data
                 = Raise IsADirectoryError).
    { unfold isdir in Hdd.
      destruct (observe fs (child (child outdir n) n)) eqn:E;
        try discriminate.
      eapply write_dir; eauto. }
    rewrite flatten_entry_file by exact Hd.
    destruct (visit' outdir verbose true (child indir n) acc fs)
      as [[r1 fs1] tr1] eqn:Ev.
    destruct (Hcases _ _ _ _ Ev)
      as [(Ho & _)
         |[(_ & e & Hv & Hpf & _)
          |[(_ & _ & e & Hw' & -> & -> & ->)|(_ & _ & Hw' & _)]]];
      [discriminate | rewrite (Hprint Hv) in Hpf; discriminate
       | | congruence].
    rewrite Hw in Hw'. injection Hw' as <-. reflexivity.
  - intros e Hv Hpf.
    rewrite flatten_entry_file by exact Hd.
    destruct (visit' outdir verbose true (child indir n) acc fs)
      as [[r1 fs1] tr1] eqn:Ev.
    destruct (Hcases _ _ _ _ Ev)
      as [(Ho & _)
         |[(_ & e' & _ & Hpf' & -> & -> & ->)
          |[(_ & Hpo & _)|(_ & Hpo & _)]]];
      [discriminate | | rewrite (Hpo Hv) in Hpf; discriminate ..].
    rewrite Hpf in Hpf'. injection Hpf' as <-. reflexivity.
Qed.

(** X7. The order of the visits: the plain files are visited depth
    first, each directory in the order of its listing, as the filesystem
    was when the traversal started; what the traversal writes on the way
    changes neither the files visited nor their order.  A traversal that
    raises has visited an initial part of that sequence. *)
Theorem traversal_order (indir outdir : path) (recursions_left : Z)
    (verbose overwrite : bool) (fs fs' : node) (r : result (Z * Z))
    (tr : list event) :
  flatten indir outdir recursions_left verbose overwrite fs = (r, fs', tr) ->
  (exists rest,
     sources fs outdir (Z.to_nat (recursions_left + 1)) indir
       = visited tr ++ rest /\
     (forall counts, r = Ok counts -> rest = [])) /\
  ((forall d, below indir d -> isdir fs d = true -> d <> outdir) ->
   exists rest,
     files_within fs (Z.to_nat (recursions_left + 1)) indir
       = visited tr ++ rest /\
     (forall counts, r = Ok counts -> rest = [])).
Proof.
  intros H. unfold flatten_dir in H.
  assert (K : exists rest,
             sources fs outdir (Z.to_nat (recursions_left + 1)) indir
               = visited tr ++ rest /\
             (forall counts, r = Ok counts -> rest = [])).
  { apply flatten_at_fold_or_fail in H.
    destruct H as [H|(_ & _ & -> & e & ->)].
    + apply (fold_visited io_fault print_fault dir_size) in H.
      * now rewrite visited_file_events in H.
      * apply sources_isfile.
    + eexists. split; [reflexivity | discriminate]. }
  split; [exact K|].
  intros Hsep. rewrite <- (sources_files_within fs outdir); [exact K|].
  intros rel. apply Hsep. now exists rel.
Qed.

End FurtherTraversal.

(** * The command line program *)

(** ** Making the destination *)

Lemma removelast_child (p : path) (n : string) : removelast (child p n) = p.
Proof. apply removelast_last. Qed.

(** Nothing lies below a plain file. *)
Lemma file_above_absent (t : node) (d p : path) :
  below d p -> isfile t d = true -> d <> p -> present t p = false.
Proof.
  intros [rel ->] Hf Hne. unfold isfile in Hf. unfold present.
  destruct (observe t d) as [|data|] eqn:E; try discriminate.
  rewrite (file_below _ _ rel _ E); [reflexivity|].
  intros ->. apply Hne. now rewrite app_nil_r.
Qed.

(** What is above something present is a directory. *)
Lemma present_above_dir (t : node) (d p : path) :
  below d p -> present t p = true -> d <> p -> isdir t d = true.
Proof.
  intros Hb Hp Hne. unfold isdir.
  destruct (observe t d) as [|data|ns] eqn:E; [| |reflexivity].
  - destruct Hb as [rel ->]. unfold present in Hp.
    now rewrite (absent_below _ _ rel E) in Hp.
  - assert (K : isfile t d = true) by (unfold isfile; now rewrite E).
    rewrite (file_above_absent _ _ _ Hb K Hne) in Hp. discriminate.
Qed.

(** The effect of a successful [os.mkdir] on every path. *)
Lemma os_mkdir_observe (t t' : node) (q : path) :
  os_mkdir t q = inl t' ->
  observe t q = OAbsent /\
  observe t' q = ODir [] /\
  (forall p, p <> q -> (forall n, q <> child p n) ->
     observe t' p = observe t p) /\
  (exists p n ns, q = child p n /\ observe t p = ODir ns /\
     observe t' p = ODir (ns ++ [n])).
Proof.
  revert t t'. induction q as [|n q IH]; intros t t' Hm; [discriminate|].
  simpl in Hm. destruct t as [d|es]; [discriminate|].
  destruct (assoc n es) as [c|] eqn:Ea.
  - destruct (os_mkdir c q) as [c'|e] eqn:Em; [|discriminate].
    injection Hm as <-.
    destruct (IH _ _ Em) as (H1 & H2 & H3 & (p & k & ns & Hq & H4 & H5)).
    unfold observe in *. simpl.
    rewrite (assoc_replace_same _ _ _ _ Ea), Ea.
    refine (conj H1 (conj H2 (conj _ _))).
    + intros p' Hp Hc. destruct p' as [|m p']; simpl.
      { now rewrite map_fst_replace. }
      destruct (string_dec m n) as [->|Hmn].
      * rewrite (assoc_replace_same _ _ _ _ Ea), Ea.
        apply H3; [congruence|].
        intros k' Hk. apply (Hc k'). rewrite child_cons. congruence.
      * rewrite assoc_replace_other by exact Hmn. reflexivity.
    + exists (n :: p), k, ns. rewrite child_cons, Hq. simpl.
      rewrite (assoc_replace_same _ _ _ _ Ea), Ea. auto.
  - destruct q as [|k q]; [|discriminate].
    injection Hm as <-. unfold observe. simpl.
    rewrite Ea. rewrite (assoc_app_new _ _ _ _ Ea), String.eqb_refl.
    refine (conj eq_refl (conj eq_refl (conj _ _))).
    + intros p Hp Hc. destruct p as [|m p]; simpl.
      { exfalso. apply (Hc n). reflexivity. }
      destruct (string_dec m n) as [->|Hmn].
      * rewrite (assoc_app_new _ _ _ _ Ea), String.eqb_refl, Ea.
        destruct p; [congruence | reflexivity].
      * rewrite (assoc_app_new _ _ _ _ Ea).
        destruct (String.eqb n m) eqn:E; [|reflexivity].
        apply String.eqb_eq in E. congruence.
    + exists [], n, (map fst es). simpl. rewrite map_app. auto.
Qed.

(** The three ways [os.mkdir] fails. *)
Lemma os_mkdir_errors (t : node) (q : path) (e : mkdir_error) :
  os_mkdir t q = inr e ->
  match e with
  | EEXIST => present t q = true
  | ENOTDIR =>
      present t q = false /\
      exists d, below d q /\ d <> q /\ isfile t d = true
  | ENOENT =>
      present t q = false /\ q <> [] /\
      present t (removelast q) = false /\
      (forall d, below d q -> isfile t d = false)
  end.
Proof.
  revert t. induction q as [|n q IH]; intros t Hm.
  - injection Hm as <-. unfold present, observe. simpl. now destruct t.
  - simpl in Hm. destruct t as [data|es].
    + injection Hm as <-. split; [reflexivity|].
      exists []. split; [now exists (n :: q) | split; [discriminate | reflexivity]].
    + destruct (assoc n es) as [c|] eqn:Ea.
      * destruct (os_mkdir c q) as [c'|e'] eqn:Em; [discriminate|].
        injection Hm as <-. specialize (IH _ Em).
        assert (Hobs : forall p, observe (Dir es) (n :: p) = observe c p).
        { intros p. unfold observe. simpl. now rewrite Ea. }
        destruct e'.
        -- unfold present in *. now rewrite Hobs.
        -- destruct IH as (Ha & Hq & Hp & Hall).
           unfold present in *. rewrite Hobs.
           refine (conj Ha (conj _ (conj _ _))); [discriminate | |].
           ++ destruct q as [|k q]; [congruence|].
              change (removelast (n :: k :: q)) with (n :: removelast (k :: q)).
              now rewrite Hobs.
           ++ intros d [rel Hd]. destruct d as [|m d].
              { reflexivity. }
              simpl in Hd. injection Hd as <- Hd.
              unfold isfile. rewrite Hobs. apply Hall. now exists rel.
        -- destruct IH as (Ha & d & Hb & Hne & Hf).
           unfold present, isfile in *. rewrite Hobs.
           split; [exact Ha|]. exists (n :: d).
           destruct Hb as [rel ->].
           split; [now exists rel | split; [congruence | now rewrite Hobs]].
      * assert (Hobs : forall p, observe (Dir es) (n :: p) = OAbsent).
        { intros p. unfold observe. simpl. now rewrite Ea. }
        destruct q as [|k q]; [discriminate|]. injection Hm as <-.
        unfold present. rewrite Hobs.
        refine (conj eq_refl (conj _ (conj _ _))); [discriminate | |].
        -- change (removelast (n :: k :: q)) with (n :: removelast (k :: q)).
           now rewrite Hobs.
        -- intros d [rel Hd]. destruct d as [|m d]; [reflexivity|].
           simpl in Hd. injection Hd as <- Hd.
           unfold isfile. now rewrite Hobs.
Qed.

Lemma present_cases (t : node) (p : path) :
  present t p = isfile t p || isdir t p.
Proof. unfold present, isfile, isdir. now destruct (observe t p). Qed.

Lemma isfile_read (t t' : node) (p : path) :
  read t' p = read t p -> isfile t' p = isfile t p.
Proof.
  unfold read, isfile.
  destruct (observe t' p), (observe t p); congruence.
Qed.

Lemma made_refl (p : path) (fs : node) : made p fs fs.
Proof. refine (conj _ (conj _ _)); auto. Qed.

Lemma made_trans (p p' : path) (a b c : node) :
  below p' p -> made p' a b -> made p b c -> made p a c.
Proof.
  intros Hb (R1 & D1 & N1) (R2 & D2 & N2).
  refine (conj _ (conj _ _)).
  - intros q. now rewrite R2.
  - auto.
  - intros q Hq. destruct (N2 q Hq) as [H|H]; [|now right].
    destruct (N1 q H) as [K|[rel ->]]; [now left|right].
    destruct Hb as [rel' ->]. exists (rel ++ rel'). now rewrite app_assoc.
Qed.

Lemma made_present (p : path) (fs fs' : node) (q : path) :
  made p fs fs' -> present fs q = true -> present fs' q = true.
Proof.
  intros (R & D & _). rewrite !present_cases, (isfile_read _ _ _ (R q)).
  destruct (isfile fs q); [reflexivity|]. simpl. apply D.
Qed.

(** No plain file lies on the way to a directory or to a place where a
    directory can be made. *)
Lemma clear_way (t : node) (p d : path) :
  isdir t p = true \/ (p <> [] /\ isdir t (removelast p) = true /\
                       present t p = false) ->
  below d p -> isfile t d = false.
Proof.
  intros H Hb. destruct (isfile t d) eqn:Hf; [exfalso | reflexivity].
  assert (K : forall q, below d q -> isdir t q = true -> False).
  { intros q Hq Hd. destruct (path_eq_dec d q) as [->|Hne].
    - unfold isfile, isdir in *. destruct (observe t q); discriminate.
    - pose proof (file_above_absent _ _ _ Hq Hf Hne) as Ha.
      rewrite present_cases, Hd, orb_true_r in Ha. discriminate. }
  destruct H as [H|(Hne & Hp & Ha)]; [now apply (K p)|].
  destruct (path_snoc p) as [->|(p' & n & ->)]; [congruence|].
  rewrite removelast_child in Hp.
  apply below_child in Hb. destruct Hb as [->|Hb].
  - rewrite present_cases, Hf in Ha. discriminate.
  - now apply (K p').
Qed.

Lemma os_mkdir_made (fs fs' : node) (p : path) :
  os_mkdir fs p = inl fs' ->
  made p fs fs' /\ isdir fs' p = true /\
  present fs p = false /\ p <> [] /\ isdir fs (removelast p) = true /\
  (forall q, isdir fs' q = true -> isdir fs q = true \/ q = p).
Proof.
  intros H.
  destruct (os_mkdir_observe _ _ _ H)
    as (Ha & Hn & Hf & (p' & n & ns & -> & Hp & Hp')).
  assert (Hobs : forall q,
            q = child p' n \/ q = p' \/ observe fs' q = observe fs q).
  { intros q. destruct (path_eq_dec q (child p' n)) as [->|H1]; [now left|].
    destruct (path_eq_dec q p') as [->|H2]; [right; left; reflexivity|].
    right; right. apply Hf; [exact H1|].
    intros k Hk. apply child_inj in Hk. destruct Hk. congruence. }
  assert (Hnew : forall q, isdir fs' q = true -> isdir fs q = true \/
                                                 q = child p' n).
  { intros q Hq. destruct (Hobs q) as [->|[->|E]]; [now right | left ..].
    - unfold isdir. now rewrite Hp.
    - unfold isdir in *. now rewrite <- E. }
  refine (conj (conj _ (conj _ _)) (conj _ (conj _ (conj _ (conj _ Hnew))))).
  - intros q. unfold read. destruct (Hobs q) as [->|[->|E]].
    + now rewrite Ha, Hn.
    + now rewrite Hp, Hp'.
    + now rewrite E.
  - intros q Hq. unfold isdir in *. destruct (Hobs q) as [->|[->|E]].
    + now rewrite Hn.
    + now rewrite Hp'.
    + now rewrite E.
  - intros q Hq. destruct (Hnew q Hq) as [K| ->]; [now left | right].
    apply below_refl.
  - unfold isdir. now rewrite Hn.
  - unfold present. now rewrite Ha.
  - apply child_not_nil.
  - rewrite removelast_child. unfold isdir. now rewrite Hp.
Qed.

(** [Path.mkdir(exist_ok=True)]: it succeeds exactly when the path is a
    directory, or is missing from a directory; a failure leaves the
    filesystem as it was. *)
Lemma mkdir_here_spec (p : path) (fs fs1 : node)
    (err : option (mkdir_error * path)) :
  mkdir_here true p fs = (err, fs1) ->
  match err with
  | None =>
      made p fs fs1 /\ isdir fs1 p = true /\
      (forall q, isdir fs1 q = true -> isdir fs q = true \/ q = p) /\
      (isdir fs p = true \/
       (present fs p = false /\ isdir fs (removelast p) = true))
  | Some _ =>
      fs1 = fs /\ isdir fs p = false /\
      (present fs p = true \/ isdir fs (removelast p) = false)
  end.
Proof.
  unfold mkdir_here. destruct (os_mkdir fs p) as [fs'|e] eqn:Em.
  - intros [= <- <-].
    destruct (os_mkdir_made _ _ _ Em) as (H1 & H2 & H3 & H4 & H5 & H6).
    auto 10.
  - pose proof (os_mkdir_errors _ _ _ Em) as He.
    assert (Hdir : isdir fs p = true -> (None, fs) = (err, fs1) ->
              match err with
              | None =>
                  made p fs fs1 /\ isdir fs1 p = true /\
                  (forall q, isdir fs1 q = true ->
                             isdir fs q = true \/ q = p) /\
                  (isdir fs p = true \/
                   (present fs p = false /\ isdir fs (removelast p) = true))
              | Some _ =>
                  fs1 = fs /\ isdir fs p = false /\
                  (present fs p = true \/ isdir fs (removelast p) = false)
              end).
    { intros Hd [= <- <-]. pose proof (made_refl p fs). auto 10. }
    destruct e; simpl.
    + destruct (isdir fs p) eqn:Hd; [now apply Hdir|].
      intros [= <- <-]. auto.
    + intros [= <- <-]. destruct He as (Ha & _ & Hp & _).
      rewrite present_cases in Ha, Hp.
      apply orb_false_iff in Ha, Hp. destruct Ha, Hp. auto.
    + destruct (isdir fs p) eqn:Hd; [now apply Hdir|].
      intros [= <- <-]. refine (conj eq_refl (conj eq_refl _)). right.
      destruct He as (Ha & d & Hb & Hne & Hf).
      destruct (isdir fs (removelast p)) eqn:Hp; [exfalso | reflexivity].
      assert (Hnil : p <> []).
      { intros ->. unfold present, observe in Ha. simpl in Ha.
        now destruct fs. }
      rewrite (clear_way fs p d) in Hf; [discriminate | | exact Hb].
      right. auto.
Qed.

(** [Path.mkdir(parents=True, exist_ok=True)]: it succeeds exactly when no
    plain file lies on the way; a failure leaves the filesystem as it
    was. *)
Lemma mkdir_parents_spec (depth : nat) (p : path) (fs fs1 : node)
    (err : option (mkdir_error * path)) :
  List.length p = depth ->
  mkdir_parents depth true p fs = (err, fs1) ->
  match err with
  | None =>
      made p fs fs1 /\ isdir fs1 p = true /\
      (forall d, below d p -> isfile fs d = false)
  | Some _ => fs1 = fs /\ exists d, below d p /\ isfile fs d = true
  end.
Proof.
  revert p fs fs1 err.
  induction depth as [|depth IH]; intros p fs fs1 err Hlen.
  - destruct p; [|discriminate]. simpl.
    replace (isdir fs []) with (negb (isfile fs []))
      by (unfold isdir, isfile, observe; simpl; now destruct fs).
    destruct (isfile fs []) eqn:Hf; simpl; intros [= <- <-].
    + split; [reflexivity|]. exists []. split; [apply below_refl | exact Hf].
    + refine (conj (made_refl _ _) (conj _ _)).
      * unfold isdir, isfile, observe in *. simpl in *. now destruct fs.
      * intros d [rel Hd]. symmetry in Hd. apply app_eq_nil in Hd.
        destruct Hd as [-> _]. exact Hf.
  - cbn [mkdir_parents].
    destruct (os_mkdir fs p) as [fs'|e] eqn:Em.
    + intros [= <- <-].
      destruct (os_mkdir_made _ _ _ Em) as (H1 & H2 & H3 & H4 & H5 & _).
      refine (conj H1 (conj H2 _)). intros d. apply clear_way. right. auto.
    + pose proof (os_mkdir_errors _ _ _ Em) as He.
      assert (Hdir : isdir fs p = true -> (None, fs) = (err, fs1) ->
                match err with
                | None =>
                    made p fs fs1 /\ isdir fs1 p = true /\
                    (forall d, below d p -> isfile fs d = false)
                | Some _ =>
                    fs1 = fs /\ exists d, below d p /\ isfile fs d = true
                end).
      { intros Hd [= <- <-]. refine (conj (made_refl _ _) (conj Hd _)).
        intros d. apply clear_way. now left. }
      destruct e; simpl.
      * destruct (isdir fs p) eqn:Hd; [now apply Hdir|].
        intros [= <- <-]. split; [reflexivity|]. exists p.
        split; [apply below_refl|].
        rewrite present_cases, Hd, orb_false_r in He. exact He.
      * destruct He as (Ha & Hnil & Hp & Hall).
        destruct (path_snoc p) as [->|(p' & n & ->)]; [congruence|].
        rewrite removelast_child in *.
        assert (Hl : List.length p' = depth).
        { unfold child in Hlen. rewrite length_app in Hlen. simpl in Hlen.
          lia. }
        destruct (mkdir_parents depth true p' fs) as [[e2|] fs2] eqn:E2.
        -- apply (IH _ _ _ _ Hl) in E2. destruct E2 as (_ & d & Hb & Hf).
           rewrite Hall in Hf; [discriminate|].
           destruct Hb as [rel ->]. exists (child rel n).
           unfold child. now rewrite app_assoc.
        -- apply (IH _ _ _ _ Hl) in E2. destruct E2 as (Hm & Hd & _).
           intros Hh. apply mkdir_here_spec in Hh.
           rewrite removelast_child in Hh.
           assert (Habs : present fs2 (child p' n) = false).
           { destruct Hm as (R & _ & N).
             rewrite present_cases, (isfile_read _ _ _ (R _)).
             rewrite present_cases in Ha. apply orb_false_iff in Ha.
             destruct Ha as [Hf Hdd]. rewrite Hf. simpl.
             destruct (isdir fs2 (child p' n)) eqn:K; [|reflexivity].
             destruct (N _ K) as [K'|[rel K']]; [congruence|].
             apply (f_equal (@List.length string)) in K'.
             unfold child in K'. rewrite !length_app in K'. simpl in K'.
             lia. }
           destruct err as [e3|].
           ++ destruct Hh as (_ & _ & [Hh|Hh]); congruence.
           ++ destruct Hh as (Hm2 & Hd2 & _).
              refine (conj _ (conj Hd2 Hall)).
              eapply made_trans; eauto. exists [n]. reflexivity.
      * destruct He as (Ha & d & Hb & Hne & Hf).
        rewrite present_cases in Ha. apply orb_false_iff in Ha.
        destruct Ha as [_ Hd]. rewrite Hd. intros [= <- <-].
        split; [reflexivity|]. exists d. auto.
Qed.

Lemma probes_silent (tr : list event) :
  forallb probe tr = true ->
  printed tr = [] /\ copied tr = [] /\ copy_calls tr = [] /\
  stat_sizes tr = [] /\ visited tr = [] /\ entered tr = [].
Proof.
  induction tr as [|ev tr IH]; [now auto|].
  simpl. intros H. apply andb_true_iff in H. destruct H as [H1 H2].
  destruct ev; try discriminate; simpl; auto.
Qed.

(** [outdir.mkdir(exist_ok=True, parents=parents)]: success makes [p] a
    directory and changes nothing else that was there; failure changes
    nothing at all. *)
Lemma path_mkdir_spec (parents : bool) (p : path) (fs fs1 : node)
    (err : option (mkdir_error * path)) :
  path_mkdir parents true p fs = (err, fs1) ->
  match err with
  | None =>
      made p fs fs1 /\ isdir fs1 p = true /\ ~ unmakeable parents fs p /\
      (parents = false ->
       forall q, isdir fs1 q = true -> isdir fs q = true \/ q = p)
  | Some _ => fs1 = fs /\ unmakeable parents fs p
  end.
Proof.
  unfold path_mkdir, unmakeable. destruct parents.
  - intros H. apply mkdir_parents_spec in H; [|reflexivity].
    destruct err as [e|].
    + exact H.
    + destruct H as (H1 & H2 & H3).
      refine (conj H1 (conj H2 (conj _ _))); [|discriminate].
      intros (d & Hb & Hf). rewrite H3 in Hf; [discriminate | exact Hb].
  - intros H. apply mkdir_here_spec in H. destruct err as [e|].
    + tauto.
    + destruct H as (H1 & H2 & H3 & H4).
      refine (conj H1 (conj H2 (conj _ (fun _ => H3)))).
      intros (Hd & Hc). destruct H4 as [H4|[H4 H5]]; [congruence|].
      destruct Hc; congruence.
Qed.

(** Which [OSError] [Path.mkdir] raises: with a plain file on the way
    [NotADirectoryError], from the first call of [os.mkdir], whatever
    [parents] is. *)
Lemma path_mkdir_enotdir (parents : bool) (p : path) (fs : node) :
  isfile fs p = false ->
  (exists d, below d p /\ isfile fs d = true) ->
  path_mkdir parents true p fs = (Some (ENOTDIR, p), fs).
Proof.
  intros Hf (d & Hb & Hd).
  assert (Hne : d <> p) by congruence.
  pose proof (file_above_absent _ _ _ Hb Hd Hne) as Ha.
  assert (Hnd : isdir fs p = false).
  { rewrite present_cases in Ha. now apply orb_false_iff in Ha. }
  assert (Em : os_mkdir fs p = inr ENOTDIR).
  { destruct (os_mkdir fs p) as [fs'|e] eqn:Em.
    - destruct (os_mkdir_made _ _ _ Em) as (_ & _ & H3 & H4 & H5 & _).
      rewrite (clear_way fs p d) in Hd; [discriminate | | exact Hb].
      right. auto.
    - pose proof (os_mkdir_errors _ _ _ Em) as He. destruct e.
      + congruence.
      + destruct He as (_ & _ & _ & Hall). rewrite Hall in Hd; congruence.
      + reflexivity. }
  unfold path_mkdir, mkdir_here. destruct parents.
  - destruct (List.length p); simpl; now rewrite Em, Hnd.
  - now rewrite Em, Hnd.
Qed.

(** Without [parents], and with no plain file on the way, a missing parent
    gives [FileNotFoundError]. *)
Lemma path_mkdir_enoent (p : path) (fs : node) :
  present fs p = false -> isdir fs (removelast p) = false ->
  (forall d, below d p -> isfile fs d = false) ->
  path_mkdir false true p fs = (Some (ENOENT, p), fs).
Proof.
  intros Ha Hp Hall.
  assert (Em : os_mkdir fs p = inr ENOENT).
  { destruct (os_mkdir fs p) as [fs'|e] eqn:Em.
    - destruct (os_mkdir_made _ _ _ Em) as (_ & _ & _ & _ & H5 & _).
      congruence.
    - pose proof (os_mkdir_errors _ _ _ Em) as He. destruct e.
      + congruence.
      + reflexivity.
      + destruct He as (_ & d & Hb & _ & Hd). rewrite Hall in Hd; congruence. }
  unfold path_mkdir, mkdir_here. now rewrite Em.
Qed.

Section Program.

Variable io_fault : path -> path -> fault.
Variable print_fault : string -> option exn.
Variable dir_size : Z.
Variable format_bytes : Z -> string.
Variable os_error_text : mkdir_error -> path -> string.

Local Notation main' := (main io_fault print_fault dir_size format_bytes os_error_text).
Local Notation flatten := (flatten_dir io_fault print_fault dir_size).
Local Notation summary := (summary_line format_bytes).

(** The two ways through [main]: a usage error, with nothing but look-ups
    done; or the destination made and [flatten_dir] run on the result,
    followed by the summary line when [flatten_dir] returned and the line
    can be printed. *)
Lemma main_inv (a : args) (fs fs' : node) (r : result ending)
    (tr : list event) :
  main' a fs = (r, fs', tr) ->
  ((exists msg, r = Ok (UsageError msg)) /\ fs' = fs /\
   forallb probe tr = true /\
   (isdir fs (arg_indir a) = false \/ isfile fs (arg_outdir a) = true \/
    arg_indir a = arg_outdir a \/
    exists err,
      path_mkdir (arg_parents a) true (arg_outdir a) fs = (Some err, fs))) \/
  (isdir fs (arg_indir a) = true /\ isfile fs (arg_outdir a) = false /\
   arg_indir a <> arg_outdir a /\
   exists fs1 checks r1 tr1,
     path_mkdir (arg_parents a) true (arg_outdir a) fs = (None, fs1) /\
     forallb probe checks = true /\
     flatten (arg_indir a) (arg_outdir a) (arg_recurse_max a) (arg_verbose a)
       (arg_force_overwrite a) fs1 = (r1, fs', tr1) /\
     match r1 with
     | Ok counts =>
         (print_fault (summary counts) = None /\
          r = Ok Done /\ tr = checks ++ tr1 ++ [EvPrint (summary counts)]) \/
         (exists e, print_fault (summary counts) = Some e /\
            r = Raise e /\ tr = checks ++ tr1)
     | Raise e => r = Raise e /\ tr = checks ++ tr1
     end).
Proof.
  intros H. unfold main in H. cbv zeta in H.
  apply bind_inv in H as [(b1 & s1 & t1 & t1' & E1 & H & ->)|(e & E1 & _)];
    [|discriminate].
  injection E1 as <- <- <-.
  destruct (present fs (arg_indir a)) eqn:Hpi; simpl in H.
  2:{ injection H as <- <- <-. left.
      refine (conj (ex_intro _ _ eq_refl) (conj eq_refl (conj eq_refl _))).
      left. rewrite present_cases in Hpi. now apply orb_false_iff in Hpi. }
  apply bind_inv in H as [(b2 & s2 & t2 & t2' & E2 & H & ->)|(e & E2 & _)];
    [|discriminate].
  injection E2 as <- <- <-.
  destruct (isdir fs (arg_indir a)) eqn:Hdi; simpl in H.
  2:{ injection H as <- <- <-. left.
      refine (conj (ex_intro _ _ eq_refl) (conj eq_refl (conj eq_refl _))).
      now left. }
  apply bind_inv in H as [(b3 & s3 & t3 & t3' & E3 & H & ->)|(e & E3 & _)];
    [|discriminate].
  injection E3 as <- <- <-.
  apply bind_inv in H as [(bad & s4 & t4 & t4' & E4 & H & ->)|(e & E4 & _)].
  2:{ destruct (present fs (arg_outdir a)); discriminate. }
  assert (K : bad = isfile fs (arg_outdir a) /\ s4 = fs /\
              forallb probe t4 = true).
  { rewrite present_cases in E4.
    destruct (isfile fs (arg_outdir a)) eqn:Hf;
      destruct (isdir fs (arg_outdir a)) eqn:Hd;
      unfold bind, is_dir, ret in E4; simpl in E4;
      try rewrite Hd in E4; simpl in E4;
      injection E4 as <- <- <-; auto.
    unfold isfile, isdir in *. destruct (observe fs (arg_outdir a));
      discriminate. }
  destruct K as (-> & -> & Ht4).
  assert (Hc : forall t, forallb probe t = true ->
             forallb probe
               ([EvExists (arg_indir a) true] ++
                [EvIsDir (arg_indir a) true] ++
                [EvExists (arg_outdir a) (present fs (arg_outdir a))] ++
                t4 ++ t) = true).
  { intros t Ht. simpl. rewrite forallb_app, Ht4. exact Ht. }
  destruct (isfile fs (arg_outdir a)) eqn:Hfo.
  { injection H as <- <- <-. left.
    refine (conj (ex_intro _ _ eq_refl)
              (conj eq_refl (conj (Hc [] eq_refl) _))).
    right; now left. }
  destruct (path_eqb (arg_indir a) (arg_outdir a)) eqn:He.
  { injection H as <- <- <-. left.
    refine (conj (ex_intro _ _ eq_refl)
              (conj eq_refl (conj (Hc [] eq_refl) _))).
    right; right; left. now apply path_eqb_eq. }
  apply path_eqb_neq in He.
  apply bind_inv in H as [(caught & s5 & t5 & t5' & E5 & H & ->)|(e & E5 & _)].
  2:{ unfold try_mkdir in E5.
      destruct (path_mkdir (arg_parents a) true (arg_outdir a) fs).
      discriminate. }
  unfold try_mkdir in E5.
  destruct (path_mkdir (arg_parents a) true (arg_outdir a) fs)
    as [err fs1] eqn:Em.
  injection E5 as <- <- <-.
  destruct err as [[e q]|].
  - pose proof (path_mkdir_spec _ _ _ _ _ Em) as [-> _].
    injection H as <- <- <-. left.
    refine (conj (ex_intro _ _ eq_refl)
              (conj eq_refl (conj (Hc [] eq_refl) _))).
    right; right; right. now exists (e, q).
  - right. refine (conj eq_refl (conj eq_refl (conj He _))).
    exists fs1,
      ([EvExists (arg_indir a) true] ++ [EvIsDir (arg_indir a) true] ++
       [EvExists (arg_outdir a) (present fs (arg_outdir a))] ++ t4).
    apply bind_inv in H
      as [(counts & s6 & t6 & t6' & E6 & H & ->)|(e & E6 & ->)].
    + exists (Ok counts), t6.
      assert (Hc0 := Hc [] eq_refl). rewrite app_nil_r in Hc0.
      unfold bind, print, ret in H.
      destruct (print_fault (summary counts)) as [e|] eqn:Epf; simpl in H;
        injection H as <- <- <-;
        refine (conj eq_refl (conj Hc0 (conj E6 _))).
      * right. exists e. refine (conj eq_refl (conj eq_refl _)).
        simpl. now rewrite <- ?app_assoc, ?app_nil_r.
      * left. refine (conj eq_refl (conj eq_refl _)).
        simpl. now rewrite <- ?app_assoc.
    + exists (Raise e), t5'.
      refine (conj eq_refl (conj _ (conj E6 (conj eq_refl _)))).
      * specialize (Hc [] eq_refl). now rewrite app_nil_r in Hc.
      * simpl. now rewrite <- ?app_assoc.
Qed.

(** What the run of [flatten_dir] inside [main] starts from and leaves. *)
Lemma main_flatten_fold (a : args) (fs fs1 fs' : node)
    (r1 : result (Z * Z)) (tr1 : list event) :
  isdir fs (arg_indir a) = true ->
  path_mkdir (arg_parents a) true (arg_outdir a) fs = (None, fs1) ->
  flatten (arg_indir a) (arg_outdir a) (arg_recurse_max a) (arg_verbose a)
    (arg_force_overwrite a) fs1 = (r1, fs', tr1) ->
  made (arg_outdir a) fs fs1 /\
  isdir fs1 (arg_indir a) = true /\ isdir fs1 (arg_outdir a) = true /\
  for_each
    (sources fs1 (arg_outdir a) (Z.to_nat (arg_recurse_max a + 1))
       (arg_indir a))
    (visit io_fault print_fault dir_size (arg_outdir a) (arg_verbose a)
       (arg_force_overwrite a)) (0, 0) fs1
    = (r1, fs', file_events tr1).
Proof.
  intros Hdi Em Ef. apply path_mkdir_spec in Em.
  destruct Em as (Hm & Hdo & _).
  assert (Hdi1 : isdir fs1 (arg_indir a) = true)
    by (destruct Hm as (_ & D & _); auto).
  refine (conj Hm (conj Hdi1 (conj Hdo _))).
  unfold flatten_dir in Ef. apply flatten_at_as_fold in Ef; auto.
Qed.


(** X9. The copies [main] attempts are well posed.  The checks of [main]
    and the making of the destination leave [flatten_dir] a destination
    that is a directory; so, when [-f] is not given or no entry of the
    destination is a directory, a call of [shutil.copy] that raised under
    [main] was let down by the operating system, on a plain file that was
    there when [main] started and its name in the destination. *)
Theorem main_copies_well_posed (a : args) (fs fs' : node) (r : result ending)
    (tr : list event) :
  main' a fs = (r, fs', tr) ->
  arg_force_overwrite a = false \/
    (forall x, isdir fs (child (arg_outdir a) x) = false) ->
  forall src dst e, In (EvCopy src dst (Raise e)) tr ->
    e = OSError /\ io_fault src dst <> NoFault /\
    dst = child (arg_outdir a) (name src) /\ isfile fs src = true.
Proof.
  intros H Hpol src dst e Hin.
  assert (Hprobe : forall t, forallb probe t = true ->
             ~ In (EvCopy src dst (Raise e)) t).
  { intros t Ht K. rewrite forallb_forall in Ht. specialize (Ht _ K).
    discriminate. }
  apply main_inv in H.
  destruct H as [(_ & _ & Hp & _)
                |(Hdi & _ & _ & fs1 & checks & r1 & tr1 & Em & Hp & Ef & Hr)].
  { now destruct (Hprobe _ Hp). }
  destruct (main_flatten_fold _ _ _ _ _ _ Hdi Em Ef)
    as ((R & _ & Hnew) & _ & Hdo & Hfold).
  assert (Hpol1 : arg_force_overwrite a = false \/
                  (forall x, isdir fs1 (child (arg_outdir a) x) = false)).
  { destruct Hpol as [Hf|Hx]; [now left | right].
    intros x. destruct (isdir fs1 (child (arg_outdir a) x)) eqn:Hd;
      [exfalso | reflexivity].
    destruct (Hnew _ Hd) as [Hd0|[rel Hb]]; [now rewrite Hx in Hd0|].
    apply (f_equal (@List.length string)) in Hb. unfold child in Hb.
    rewrite !length_app in Hb. simpl in Hb. lia. }
  assert (Hin1 : In (EvCopy src dst (Raise e)) tr1).
  { destruct r1 as [counts|e1];
      [destruct Hr as [(_ & _ & ->)|(e1 & _ & _ & ->)]
      | destruct Hr as [_ ->]];
      repeat (apply in_app_or in Hin; destruct Hin as [Hin|Hin]);
      try (now destruct (Hprobe _ Hp)); try exact Hin.
    destruct Hin as [|[]]; discriminate. }
  destruct (fold_failures io_fault print_fault dir_size (arg_outdir a)
              (arg_verbose a) (arg_force_overwrite a) _ _ _ _ _ _ Hfold Hdo
              Hpol1) with (src := src) (dst := dst) (e := e)
    as (K1 & K2 & K3 & K4).
  - intros p Hp'. eapply sources_not_in_outdir; eauto.
  - apply filter_In. split; [exact Hin1 | reflexivity].
  - repeat split; auto.
    rewrite <- (isfile_read _ _ _ (R src)). eapply sources_isfile; eauto.
Qed.

(** X10. What [main] prints: with [-v] one line for each copy called for,
    naming [outfile]; then, only when it runs to its end, the summary
    line, with the number of copies completed and the sum of the sizes
    [stat] reported for them. *)
Theorem summary_printed (a : args) (fs fs' : node) (r : result ending)
    (tr : list event) :
  main' a fs = (r, fs', tr) ->
  printed tr =
    map (fun c => copying_line (snd c))
      (if arg_verbose a then copy_calls tr else [])
    ++ match r with
       | Ok Done =>
           [summary (Z.of_nat (List.length (copied tr)),
                     sumZ (stat_sizes tr))]
       | _ => []
       end.
Proof.
  intros H. apply main_inv in H.
  destruct H as [((msg & ->) & _ & Hp & _)
                |(Hdi & _ & _ & fs1 & checks & r1 & tr1 & Em & Hp & Ef & Hr)].
  - apply probes_silent in Hp. destruct Hp as (-> & _ & -> & _).
    now destruct (arg_verbose a).
  - apply probes_silent in Hp.
    destruct Hp as (Hp1 & Hp2 & Hp3 & Hp4 & _).
    destruct (main_flatten_fold _ _ _ _ _ _ Hdi Em Ef) as (_ & _ & _ & Hfold).
    apply (fold_prints io_fault print_fault dir_size) in Hfold.
    rewrite printed_file_events, copy_calls_file_events in Hfold.
    destruct r1 as [counts|e];
      [destruct Hr as [(_ & -> & ->)|(e & _ & -> & ->)]
      | destruct Hr as [-> ->]].
    + unfold flatten_dir in Ef. apply flatten_at_counts in Ef.
      destruct Ef as (Hn & Hb & _).
      rewrite !printed_app, !copy_calls_app, !copied_app, !stat_sizes_app.
      rewrite Hp1, Hp2, Hp3, Hp4, Hfold. simpl.
      rewrite !app_nil_r, <- Hn, <- Hb. now destruct counts.
    + rewrite !printed_app, !copy_calls_app, Hp1, Hp3, Hfold. simpl.
      now rewrite app_nil_r.
    + rewrite !printed_app, !copy_calls_app, Hp1, Hp3, Hfold. simpl.
      now rewrite app_nil_r.
Qed.

(** X11. Files under [main]: a path holds other bytes afterwards only if
    a copy wrote it, one that completed or one that failed on the way, and
    it is then the target of that copy; when [main] runs to its end, only
    if a completed copy wrote it; without [-f] nothing that was there
    holds other bytes; and a plain file stays a plain file. *)
Theorem main_keeps_files (a : args) (fs fs' : node) (r : result ending)
    (tr : list event) :
  main' a fs = (r, fs', tr) ->
  (forall q, read fs' q <> read fs q ->
     exists src,
       (In (src, q) (copied tr) \/
        In (src, child (arg_outdir a) (name src)) (failed tr)) /\
       (q = child (arg_outdir a) (name src) \/
        q = child (child (arg_outdir a) (name src)) (name src))) /\
  (r = Ok Done ->
   forall q, read fs' q <> read fs q -> exists src, In (src, q) (copied tr)) /\
  (arg_force_overwrite a = false ->
   forall q, present fs q = true -> read fs' q = read fs q) /\
  (forall q, isfile fs q = true -> isfile fs' q = true).
Proof.
  intros H. apply main_inv in H.
  destruct H as [(_ & -> & _)
                |(Hdi & _ & _ & fs1 & checks & r1 & tr1 & Em & Hp & Ef & Hr)].
  - refine (conj _ (conj _ (conj _ _))); auto; congruence.
  - assert (Hpf : failed checks = []).
    { clear - Hp. induction checks as [|ev t IH]; [reflexivity|].
      simpl in Hp. apply andb_true_iff in Hp. destruct Hp as [H1 H2].
      destruct ev; try discriminate; simpl; auto. }
    apply probes_silent in Hp. destruct Hp as (_ & Hp2 & _).
    destruct (main_flatten_fold _ _ _ _ _ _ Hdi Em Ef)
      as (Hm & _ & _ & Hfold).
    pose proof Hm as (R & _ & _).
    assert (Hcop : copied tr = copied tr1 /\ failed tr = failed tr1).
    { destruct r1 as [counts|e1];
        [destruct Hr as [(_ & _ & ->)|(e1 & _ & _ & ->)]
        | destruct Hr as [_ ->]];
        rewrite ?copied_app, ?failed_app, Hp2, Hpf; simpl;
        now rewrite ?app_nil_r. }
    destruct Hcop as [Hcop Hfail].
    assert (Hfe : failed (file_events tr1) = failed tr1)
      by (apply flat_map_filter; now intros []).
    pose proof (fold_changed _ _ _ _ _ _ _ _ _ _ _ _ Hfold) as Hch.
    rewrite copied_file_events, Hfe in Hch.
    refine (conj _ (conj _ (conj _ _))).
    + intros q Hq. rewrite Hcop, Hfail.
      destruct (Hch q) as (src & E & Hsrc); [left; now rewrite R|].
      exists src. split; [exact Hsrc|].
      rewrite E. unfold copy_target.
      destruct (isdir fs1 (child (arg_outdir a) (name src))); auto.
    + intros Hr' q Hq. rewrite Hcop.
      destruct (Hch q) as (src & E & Hsrc); [left; now rewrite R|].
      exists src. destruct Hsrc as [Hsrc|Hsrc]; [exact Hsrc | exfalso].
      destruct r1 as [counts|e1].
      * pose proof (fold_ok_no_failed _ _ _ _ _ _ _ _ _ _ _ _ Hfold counts
                      eq_refl) as Hnf.
        rewrite Hfe in Hnf. rewrite Hnf in Hsrc. destruct Hsrc.
      * destruct Hr as [-> _]. discriminate.
    + intros Hf q Hq. rewrite <- R.
      apply (fold_no_overwrite _ _ _ _ _ _ _ _ _ _ _ _ Hfold Hf).
      eapply made_present; eauto.
    + intros q Hq.
      destruct (for_each_visit_grows _ _ _ _ _ _ _ _ _ _ _ _ Hfold)
        as (_ & F & _).
      apply F. rewrite (isfile_read _ _ _ (R q)). exact Hq.
Qed.

(** X12. Directories under [main]: every directory stays one; the only
    new ones are the destination and, with [-p], directories above it;
    and unless [main] ends in a usage error the destination is a directory
    afterwards. *)
Theorem destination_made (a : args) (fs fs' : node) (r : result ending)
    (tr : list event) :
  main' a fs = (r, fs', tr) ->
  (forall d, isdir fs d = true -> isdir fs' d = true) /\
  (forall d, isdir fs' d = true ->
     isdir fs d = true \/
     (below d (arg_outdir a) /\
      (arg_parents a = false -> d = arg_outdir a))) /\
  ((forall msg, r <> Ok (UsageError msg)) ->
   isdir fs' (arg_outdir a) = true).
Proof.
  intros H. apply main_inv in H.
  destruct H as [((msg & ->) & -> & _)
                |(Hdi & _ & _ & fs1 & checks & r1 & tr1 & Em & Hp & Ef & Hr)].
  - refine (conj _ (conj _ _)); auto. intros K. now destruct (K msg).
  - destruct (main_flatten_fold _ _ _ _ _ _ Hdi Em Ef)
      as ((_ & D & N) & _ & Hdo & Hfold).
    apply path_mkdir_spec in Em. destruct Em as (_ & _ & _ & Hone).
    destruct (for_each_visit_grows _ _ _ _ _ _ _ _ _ _ _ _ Hfold)
      as (G & _ & _).
    refine (conj _ (conj _ _)).
    + intros d Hd. rewrite G. auto.
    + intros d Hd. rewrite G in Hd.
      destruct (isdir fs d) eqn:Hd0; [now left | right].
      split.
      * destruct (N _ Hd) as [K|K]; [congruence | exact K].
      * intros Hp'. destruct (Hone Hp' _ Hd) as [K|K]; [congruence | exact K].
    + intros _. now rewrite G.
Qed.

(** X13. The message of the usage error, by the first check that fails:
    a missing source; a source that is not a directory; a destination that
    is a plain file; source and destination the same path; a destination
    that cannot be made, where the error reported names the destination
    itself and is [NotADirectoryError] when a plain file lies on the way
    (with or without [-p]) and otherwise [FileNotFoundError]. *)
Theorem usage_message (a : args) (fs fs' : node) (r : result ending)
    (tr : list event) :
  main' a fs = (r, fs', tr) ->
  (present fs (arg_indir a) = false ->
   r = Ok (UsageError ("Input directory does not exist: '"
                       ++ path_str (arg_indir a) ++ "'"))) /\
  (isfile fs (arg_indir a) = true ->
   r = Ok (UsageError ("Input path is not a valid directory: '"
                       ++ path_str (arg_indir a) ++ "'"))) /\
  (isdir fs (arg_indir a) = true -> isfile fs (arg_outdir a) = true ->
   r = Ok (UsageError ("Output path exists but is not a valid directory: "
                       ++ path_str (arg_outdir a)))) /\
  (isdir fs (arg_indir a) = true -> arg_indir a = arg_outdir a ->
   r = Ok (UsageError "Input and output directories are the same")) /\
  (isdir fs (arg_indir a) = true -> arg_indir a <> arg_outdir a ->
   isfile fs (arg_outdir a) = false ->
   (exists d, below d (arg_outdir a) /\ isfile fs d = true) ->
   r = Ok (UsageError
             ("Could not make output directory (did you mean to specify '-p'?):"
              ++ newline ++ " -> " ++ os_error_text ENOTDIR (arg_outdir a)))) /\
  (isdir fs (arg_indir a) = true -> arg_indir a <> arg_outdir a ->
   arg_parents a = false ->
   present fs (arg_outdir a) = false ->
   isdir fs (removelast (arg_outdir a)) = false ->
   (forall d, below d (arg_outdir a) -> isfile fs d = false) ->
   r = Ok (UsageError
             ("Could not make output directory (did you mean to specify '-p'?):"
              ++ newline ++ " -> " ++ os_error_text ENOENT (arg_outdir a)))).
Proof.
  intros H.
  assert (Hin : isdir fs (arg_indir a) = true ->
                present fs (arg_indir a) = true).
  { rewrite present_cases. intros ->. apply orb_true_r. }
  assert (Hout : isfile fs (arg_outdir a) = false ->
                 (if present fs (arg_outdir a)
                  then bind (is_dir (arg_outdir a)) (fun d => ret (negb d))
                  else ret false) fs
                 = (Ok false, fs,
                    if present fs (arg_outdir a)
                    then [EvIsDir (arg_outdir a) true] else [])).
  { intros Hf. rewrite present_cases, Hf. simpl.
    destruct (isdir fs (arg_outdir a)) eqn:Hd; [|reflexivity].
    unfold bind, is_dir, ret. now rewrite Hd. }
  unfold main in H. cbv zeta in H.
  refine (conj _ (conj _ (conj _ (conj _ (conj _ _))))).
  - intros Hp. unfold bind, exists_, ret in H. rewrite Hp in H.
    simpl in H. now injection H as <- _ _.
  - intros Hf.
    assert (Hp : present fs (arg_indir a) = true)
      by (rewrite present_cases, Hf; reflexivity).
    assert (Hd : isdir fs (arg_indir a) = false).
    { unfold isfile, isdir in *. now destruct (observe fs (arg_indir a)). }
    unfold bind, exists_, is_dir, ret in H. rewrite Hp in H. simpl in H.
    rewrite Hd in H. simpl in H. now injection H as <- _ _.
  - intros Hd Hf.
    assert (Hp : present fs (arg_outdir a) = true)
      by (rewrite present_cases, Hf; reflexivity).
    assert (Hd' : isdir fs (arg_outdir a) = false).
    { unfold isfile, isdir in *. now destruct (observe fs (arg_outdir a)). }
    unfold bind, exists_, is_dir, ret in H. rewrite (Hin Hd) in H.
    simpl in H. rewrite Hd in H. simpl in H. rewrite Hp in H. simpl in H.
    rewrite Hd' in H. simpl in H. now injection H as <- _ _.
  - intros Hd He.
    assert (Hf : isfile fs (arg_outdir a) = false).
    { rewrite <- He. unfold isfile, isdir in *.
      now destruct (observe fs (arg_indir a)). }
    apply path_eqb_eq in He.
    apply bind_inv in H as [(b1 & s1 & t1 & t1' & E1 & H & _)|(e & E1 & _)];
      [|discriminate].
    injection E1 as <- <- _. rewrite (Hin Hd) in H. simpl in H.
    apply bind_inv in H as [(b2 & s2 & t2 & t2' & E2 & H & _)|(e & E2 & _)];
      [|discriminate].
    injection E2 as <- <- _. rewrite Hd in H. simpl in H.
    apply bind_inv in H as [(b3 & s3 & t3 & t3' & E3 & H & _)|(e & E3 & _)];
      [|discriminate].
    injection E3 as <- <- _.
    apply bind_inv in H as [(b4 & s4 & t4 & t4' & E4 & H & _)|(e & E4 & _)];
      [|rewrite (Hout Hf) in E4; discriminate].
    rewrite (Hout Hf) in E4. injection E4 as <- <- _.
    rewrite He in H. now injection H as <- _ _.
  - intros Hd Hne Hf Hblock.
    apply path_eqb_neq in Hne.
    apply bind_inv in H as [(b1 & s1 & t1 & t1' & E1 & H & _)|(e & E1 & _)];
      [|discriminate].
    injection E1 as <- <- _. rewrite (Hin Hd) in H. simpl in H.
    apply bind_inv in H as [(b2 & s2 & t2 & t2' & E2 & H & _)|(e & E2 & _)];
      [|discriminate].
    injection E2 as <- <- _. rewrite Hd in H. simpl in H.
    apply bind_inv in H as [(b3 & s3 & t3 & t3' & E3 & H & _)|(e & E3 & _)];
      [|discriminate].
    injection E3 as <- <- _.
    apply bind_inv in H as [(b4 & s4 & t4 & t4' & E4 & H & _)|(e & E4 & _)];
      [|rewrite (Hout Hf) in E4; discriminate].
    rewrite (Hout Hf) in E4. injection E4 as <- <- _.
    rewrite Hne in H.
    unfold bind, try_mkdir, ret in H.
    rewrite (path_mkdir_enotdir _ _ _ Hf Hblock) in H.
    now injection H as <- _ _.
  - intros Hd Hne Hpar Ha Hp Hall.
    assert (Hf : isfile fs (arg_outdir a) = false).
    { rewrite present_cases in Ha. now apply orb_false_iff in Ha. }
    apply path_eqb_neq in Hne.
    apply bind_inv in H as [(b1 & s1 & t1 & t1' & E1 & H & _)|(e & E1 & _)];
      [|discriminate].
    injection E1 as <- <- _. rewrite (Hin Hd) in H. simpl in H.
    apply bind_inv in H as [(b2 & s2 & t2 & t2' & E2 & H & _)|(e & E2 & _)];
      [|discriminate].
    injection E2 as <- <- _. rewrite Hd in H. simpl in H.
    apply bind_inv in H as [(b3 & s3 & t3 & t3' & E3 & H & _)|(e & E3 & _)];
      [|discriminate].
    injection E3 as <- <- _.
    apply bind_inv in H as [(b4 & s4 & t4 & t4' & E4 & H & _)|(e & E4 & _)];
      [|rewrite (Hout Hf) in E4; discriminate].
    rewrite (Hout Hf) in E4. injection E4 as <- <- _.
    rewrite Hne in H.
    unfold bind, try_mkdir, ret in H.
    rewrite Hpar, (path_mkdir_enoent _ _ Ha Hp Hall) in H.
    now injection H as <- _ _.
Qed.

End Program.

(** * Instances of the further properties *)

Module MoreWitnesses.

Import Examples MoreExamples.

Lemma copies_well_posed_witness :
  exists r fs' tr,
    flatten_dir break_b print_ok 4096 ["root"] ["out"] 5 false false spec_tree
      = (r, fs', tr) /\
    r = Raise OSError /\
    In (EvCopy ["root"; "sub"; "b.txt"] ["out"; "b.txt"] (Raise OSError)) tr /\
    break_b ["root"; "sub"; "b.txt"] ["out"; "b.txt"] <> NoFault /\
    isfile spec_tree ["root"; "sub"; "b.txt"] = true.
Proof.
  eexists _, _, _. split; [reflexivity|]. split; [reflexivity|].
  assert (Hin : In (EvCopy ["root"; "sub"; "b.txt"] ["out"; "b.txt"]
                      (Raise OSError))
                  (snd (flatten_dir break_b print_ok 4096 ["root"] ["out"] 5
                          false false spec_tree))).
  { simpl. auto 20. }
  split; [exact Hin|].
  destruct (copies_well_posed break_b print_ok 4096 ["root"] ["out"] 5 false
              false spec_tree _ _ _ eq_refl (or_introl eq_refl) eq_refl
              _ _ _ Hin) as (_ & H2 & _ & H4).
  split; [exact H2 | exact H4].
Defined.

Lemma missing_destination_witness :
  isdir fresh_tree ["out"] = false /\
  exists r fs' tr,
    flatten_dir no_fault print_ok 4096 ["src"] ["out"] 1 false false fresh_tree
      = (r, fs', tr) /\
    r = Raise FileNotFoundError /\
    fs' = fresh_tree /\ copied tr = [] /\
    (forall counts, r = Ok counts -> counts = (0, 0) /\ visited tr = []).
Proof.
  split; [reflexivity|]. eexists _, _, _.
  split; [reflexivity|]. split; [reflexivity|].
  eapply (missing_destination no_fault print_ok 4096 ["src"] ["out"] 1 false false);
    reflexivity.
Defined.

Lemma destination_complete_witness :
  exists counts fs' tr,
    flatten_dir no_fault print_ok 4096 ["root"] ["out"] 1 false false spec_tree
      = (Ok counts, fs', tr) /\
    (forall p, In p (visited tr) ->
       present fs' (child ["out"] (name p)) = true) /\
    ((forall d, below ["root"] d -> isdir spec_tree d = true ->
                d <> ["out"]) ->
     forall k p, Z.of_nat k <= 1 -> file_at_depth spec_tree ["root"] k p ->
       present fs' (child ["out"] (name p)) = true).
Proof.
  eexists _, _, _. split; [reflexivity|].
  eapply (destination_complete no_fault print_ok 4096 ["root"] ["out"] 1 false false
           spec_tree).
  reflexivity.
Defined.

Lemma first_writer_wins_witness :
  exists counts fs' tr,
    flatten_dir no_fault print_ok 4096 ["src"] ["out"] 1 false false twin_tree
      = (Ok counts, fs', tr) /\
    visited tr = [] ++ ["src"; "f"] :: [["src"; "sub"; "f"]] /\
    read fs' ["out"; "f"] = Some [x01].
Proof.
  eexists _, _, _. split; [reflexivity|]. split; [reflexivity|].
  eapply (first_writer_wins no_fault print_ok 4096 ["src"] ["out"] 1 false twin_tree
           _ _ _ [] [["src"; "sub"; "f"]] ["src"; "f"]).
  - reflexivity.
  - reflexivity.
  - intros q [].
  - reflexivity.
Defined.

Lemma last_writer_wins_witness :
  exists counts fs' tr,
    flatten_dir no_fault print_ok 4096 ["src"] ["out"] 1 false true twin_tree
      = (Ok counts, fs', tr) /\
    visited tr = [["src"; "f"]] ++ ["src"; "sub"; "f"] :: [] /\
    read fs' ["out"; "f"] = Some [x02].
Proof.
  eexists _, _, _. split; [reflexivity|]. split; [reflexivity|].
  eapply (last_writer_wins no_fault print_ok 4096 ["src"] ["out"] 1 false twin_tree
           _ _ _ [["src"; "f"]] [] ["src"; "sub"; "f"]).
  - reflexivity.
  - reflexivity.
  - intros q [].
  - reflexivity.
Defined.

Lemma copy_into_directory_witness :
  flatten_entry no_fault print_ok 4096 (fun _ => ret (0, 0)) ["out"] true false
    ["src"; "f"] (0, 0) dir_target_tree
    = (Ok (0, 0), dir_target_tree,
       [EvIsDir ["src"; "f"] false; EvIsFile ["src"; "f"] true;
        EvExists ["out"; "f"] true]) /\
  exists fs',
    flatten_entry no_fault print_ok 4096 (fun _ => ret (0, 0)) ["out"] true true
      ["src"; "f"] (0, 0) dir_target_tree
      = (Ok (1, 2), fs',
         [EvIsDir ["src"; "f"] false; EvIsFile ["src"; "f"] true;
          EvExists ["out"; "f"] true; EvPrint "Copying '/out/f'";
          EvCopy ["src"; "f"] ["out"; "f"] (Ok ["out"; "f"; "f"]);
          EvStat ["src"; "f"] 2]) /\
    observe fs' ["out"; "f"; "f"] = OFile [x01; x02] /\
    isdir fs' ["out"; "f"] = true.
Proof.
  destruct (copy_into_directory no_fault print_ok 4096 (fun _ => ret (0, 0))
              ["src"] ["out"] "f" true (0, 0) dir_target_tree [x01; x02])
    as (Hskip & Hover & _).
  - discriminate.
  - reflexivity.
  - reflexivity.
  - reflexivity.
  - split; [exact Hskip|]. exact (Hover eq_refl (fun _ => eq_refl)).
Defined.

Lemma traversal_order_witness :
  exists r fs' tr,
    flatten_dir no_fault print_ok 4096 ["root"] ["out"] 1 false false spec_tree
      = (r, fs', tr) /\
    visited tr = [["root"; "a.txt"]; ["root"; "sub"; "b.txt"]] /\
    (exists rest,
       sources spec_tree ["out"] 2 ["root"] = visited tr ++ rest /\
       (forall counts, r = Ok counts -> rest = [])) /\
    ((forall d, below ["root"] d -> isdir spec_tree d = true ->
                d <> ["out"]) ->
     exists rest,
       files_within spec_tree 2 ["root"] = visited tr ++ rest /\
       (forall counts, r = Ok counts -> rest = [])).
Proof.
  eexists _, _, _. split; [reflexivity|]. split; [reflexivity|].
  eapply (traversal_order no_fault print_ok 4096 ["root"] ["out"] 1 false false
           spec_tree).
  reflexivity.
Defined.


Lemma main_copies_well_posed_witness :
  exists r fs' tr,
    main break_b print_ok 4096 fmt err_text (run ["root"] ["out"] false false)
      spec_tree = (r, fs', tr) /\
    r = Raise OSError /\
    In (EvCopy ["root"; "sub"; "b.txt"] ["out"; "b.txt"] (Raise OSError)) tr /\
    break_b ["root"; "sub"; "b.txt"] ["out"; "b.txt"] <> NoFault /\
    isfile spec_tree ["root"; "sub"; "b.txt"] = true.
Proof.
  eexists _, _, _. split; [reflexivity|]. split; [reflexivity|].
  assert (Hin : In (EvCopy ["root"; "sub"; "b.txt"] ["out"; "b.txt"]
                      (Raise OSError))
                  (snd (main break_b print_ok 4096 fmt err_text
                          (run ["root"] ["out"] false false) spec_tree))).
  { simpl. auto 20. }
  split; [exact Hin|].
  destruct (main_copies_well_posed break_b print_ok 4096 fmt err_text
              (run ["root"] ["out"] false false) spec_tree _ _ _ eq_refl
              (or_introl eq_refl) _ _ _ Hin) as (_ & H2 & _ & H4).
  split; [exact H2 | exact H4].
Defined.

Lemma summary_printed_witness :
  exists r fs' tr,
    main no_fault print_ok 4096 fmt err_text (run ["src"] ["a"; "out"] true false)
      fresh_tree = (r, fs', tr) /\
    r = Ok Done /\
    printed tr = ["Copied 1 files (3 bytes)"] /\
    printed tr =
      map (fun c : path * path => copying_line (snd c)) []
      ++ [summary_line fmt (Z.of_nat (List.length (copied tr)),
                            sumZ (stat_sizes tr))].
Proof.
  eexists _, _, _. split; [cbv; reflexivity|]. split; [reflexivity|].
  split; [reflexivity|].
  exact (summary_printed no_fault print_ok 4096 fmt err_text
           (run ["src"] ["a"; "out"] true false) fresh_tree _ _ _ eq_refl).
Defined.

Lemma main_keeps_files_witness :
  (exists r fs' tr,
     main no_fault print_ok 4096 fmt err_text (run ["src"] ["out"] false true)
       collide_tree = (r, fs', tr) /\
     r = Ok Done /\
     read fs' ["out"; "f"] = Some [x01; x02; x03] /\
     (forall q, read fs' q <> read collide_tree q ->
        exists src, In (src, q) (copied tr)) /\
     (forall q, isfile collide_tree q = true -> isfile fs' q = true)) /\
  (exists r fs' tr,
     main break_b print_ok 4096 fmt err_text (run ["root"] ["out"] false false)
       spec_tree = (r, fs', tr) /\
     r = Raise OSError /\
     read fs' ["out"; "b.txt"] = Some (zeros 15) /\
     copied tr = [(["root"; "a.txt"], ["out"; "a.txt"])] /\
     failed tr = [(["root"; "sub"; "b.txt"], ["out"; "b.txt"])] /\
     (forall q, read fs' q <> read spec_tree q ->
        exists src,
          (In (src, q) (copied tr) \/
           In (src, child ["out"] (name src)) (failed tr)) /\
          (q = child ["out"] (name src) \/
           q = child (child ["out"] (name src)) (name src))) /\
     (forall q, present spec_tree q = true -> read fs' q = read spec_tree q)).
Proof.
  split.
  - eexists _, _, _. split; [reflexivity|]. split; [reflexivity|].
    split; [reflexivity|].
    destruct (main_keeps_files no_fault print_ok 4096 fmt err_text
                (run ["src"] ["out"] false true) collide_tree _ _ _ eq_refl)
      as (_ & H2 & _ & H4).
    split; [exact (H2 eq_refl) | exact H4].
  - eexists _, _, _. split; [reflexivity|]. split; [reflexivity|].
    split; [reflexivity|]. split; [reflexivity|]. split; [reflexivity|].
    destruct (main_keeps_files break_b print_ok 4096 fmt err_text
                (run ["root"] ["out"] false false) spec_tree _ _ _ eq_refl)
      as (H1 & _ & H3 & _).
    split; [exact H1 | exact (H3 eq_refl)].
Defined.

Lemma destination_made_witness :
  exists r fs' tr,
    main no_fault print_ok 4096 fmt err_text (run ["src"] ["a"; "out"] true false)
      fresh_tree = (r, fs', tr) /\
    isdir fresh_tree ["a"] = false /\ isdir fs' ["a"] = true /\
    (forall d, isdir fresh_tree d = true -> isdir fs' d = true) /\
    (forall d, isdir fs' d = true ->
       isdir fresh_tree d = true \/
       (below d ["a"; "out"] /\ (true = false -> d = ["a"; "out"]))) /\
    ((forall msg, r <> Ok (UsageError msg)) ->
     isdir fs' ["a"; "out"] = true).
Proof.
  eexists _, _, _. split; [reflexivity|]. split; [reflexivity|].
  split; [reflexivity|].
  eapply (destination_made no_fault print_ok 4096 fmt err_text
           (run ["src"] ["a"; "out"] true false) fresh_tree).
  reflexivity.
Defined.

Lemma usage_message_witness :
  exists r fs' tr,
    main no_fault print_ok 4096 fmt err_text
      (run ["src"] ["src"; "f"; "out"] true false) fresh_tree
      = (r, fs', tr) /\
    r = Ok (UsageError
              ("Could not make output directory (did you mean to specify '-p'?):"
               ++ newline ++ " -> Not a directory: /src/f/out")).
Proof.
  eexists _, _, _. split; [cbv; reflexivity|].
  destruct (usage_message no_fault print_ok 4096 fmt err_text
              (run ["src"] ["src"; "f"; "out"] true false) fresh_tree
              _ _ _ eq_refl)
    as (_ & _ & _ & _ & Hmk & _).
  apply Hmk.
  - reflexivity.
  - discriminate.
  - reflexivity.
  - exists ["src"; "f"]. split; [now exists ["out"] | reflexivity].
Defined.

End MoreWitnesses.
